(** * dbxml: a Go binding to Berkeley DB XML, and its handle lifecycle

    The development embeds the two layers of the repository:

    - [c_dbxml.cc], the [extern "C"] layer that wraps the C++ engine and
      turns its exceptions into a sticky error flag and error string kept in
      the connection handle;
    - [dbxml.go], the Go types [Db] (a connection) and [Docs] (an iterator
      over documents), with the registry [docss] of live iterators that a
      connection force-closes when it is closed.

    The C++ engine itself (DbXml::XmlManager, XmlContainer, ...) is outside
    the repository.  It is a parameter of the development: a type of engine
    states and one function per engine method the wrapper calls, each of
    which either returns a value or throws.

    The model is sequential: one caller at a time, so the mutexes of [Db]
    and [Docs] are not represented. *)

From Stdlib Require Import String Ascii NArith ZArith List Lia.
From stdpp Require Import base option gmap strings list fin_maps.

Set Default Proof Using "Type".
Local Open Scope string_scope.
Local Open Scope N_scope.

(** ** The wrapped engine *)

(** Outcome of one engine method: a value, or a [DbXml::XmlException]
    with its [what()] text. *)
Inductive exc (A : Type) : Type :=
| Val (a : A)
| Throw (what : string).
Arguments Val {A} a.
Arguments Throw {A} what.

(** [DbXml::XmlContainerConfig], of which the wrapper only uses
    [setReadOnly]. *)
Record XmlContainerConfig := mkConfig { readOnly : bool }.

Definition default_config : XmlContainerConfig := mkConfig false.
Definition setReadOnly (b : bool) (c : XmlContainerConfig) : XmlContainerConfig :=
  mkConfig b.

#[global] Instance XmlContainerConfig_eq_dec : EqDecision XmlContainerConfig.
Proof. solve_decision. Defined.

(** The engine.  [World] is everything the engine owns or reads: containers
    on disc, the files read by [createLocalFileInputStream], its caches.
    Every method takes the world and returns the new world, also when it
    throws. *)
Class DbXml := {
  World : Type;
  XmlManager : Type;
  XmlUpdateContext : Type;
  XmlQueryContext : Type;
  XmlContainer : Type;
  XmlResults : Type;
  XmlDocument : Type;
  XmlInputStream : Type;
  (* default constructors, run by [new c_dbxml_t] and [new c_dbxml_docs_t] *)
  new_XmlManager : XmlManager;
  new_XmlUpdateContext : XmlUpdateContext;
  new_XmlQueryContext : XmlQueryContext;
  new_XmlContainer : XmlContainer;
  new_XmlResults : XmlResults;
  new_XmlDocument : XmlDocument;
  (* XmlManager *)
  createUpdateContext : XmlManager → World → exc XmlUpdateContext * World;
  existsContainer : XmlManager → string → World → exc bool * World;
  openContainer :
    XmlManager → string → XmlContainerConfig → World → exc XmlContainer * World;
  createContainer : XmlManager → string → World → exc XmlContainer * World;
  createLocalFileInputStream :
    XmlManager → string → World → exc XmlInputStream * World;
  createQueryContext : XmlManager → World → exc XmlQueryContext * World;
  query :
    XmlManager → string → XmlQueryContext → World → exc XmlResults * World;
  (* XmlQueryContext *)
  setDefaultCollection :
    XmlQueryContext → string → World → exc XmlQueryContext * World;
  (* XmlContainer *)
  addAlias : XmlContainer → string → World → exc bool * World;
  deleteDocument :
    XmlContainer → string → XmlUpdateContext → World → exc unit * World;
  putDocument_stream :
    XmlContainer → string → XmlInputStream → XmlUpdateContext → World →
    exc unit * World;
  putDocument_string :
    XmlContainer → string → string → XmlUpdateContext → World →
    exc unit * World;
  putDocument_doc :
    XmlContainer → XmlDocument → XmlUpdateContext → World → exc unit * World;
  getDocument : XmlContainer → string → World → exc XmlDocument * World;
  getNumDocuments : XmlContainer → World → exc N * World;
  getAllDocuments : XmlContainer → World → exc XmlResults * World;
  (* XmlDocument *)
  getName : XmlDocument → World → exc string * World;
  getContent : XmlDocument → World → exc string * World;
  (* XmlResults::next(XmlDocument &): the answer, the advanced cursor and
     the document it stored *)
  results_next :
    XmlResults → XmlDocument → World →
    exc (bool * XmlResults * XmlDocument) * World;
  (* a result set is finite: [remaining] bounds the number of documents
     [next] can still deliver *)
  remaining : XmlResults → nat;
  results_next_remaining :
    ∀ it doc w it' doc' w',
      results_next it doc w = (Val (true, it', doc'), w') →
      (remaining it' < remaining it)%nat;
}.

(** ** Native handles: the structs of c_dbxml.cc *)

Module c_dbxml_t.
Record t `{DbXml} := mk {
    manager : XmlManager;
    context : XmlUpdateContext;
    container : XmlContainer;
    config : XmlContainerConfig;
    error : bool;
    errstring : string;
    result : string;
  }.
Definition set_context `{DbXml} (x : XmlUpdateContext) (d : t) : t :=
    mk _ (manager d) x (container d) (config d) (error d) (errstring d) (result d).
Definition set_container `{DbXml} (x : XmlContainer) (d : t) : t :=
    mk _ (manager d) (context d) x (config d) (error d) (errstring d) (result d).
Definition set_config `{DbXml} (x : XmlContainerConfig) (d : t) : t :=
    mk _ (manager d) (context d) (container d) x (error d) (errstring d) (result d).
Definition set_error `{DbXml} (x : bool) (d : t) : t :=
    mk _ (manager d) (context d) (container d) (config d) x (errstring d) (result d).
Definition set_errstring `{DbXml} (x : string) (d : t) : t :=
    mk _ (manager d) (context d) (container d) (config d) (error d) x (result d).
Definition set_result `{DbXml} (x : string) (d : t) : t :=
    mk _ (manager d) (context d) (container d) (config d) (error d) (errstring d) x.
  (** [new c_dbxml_t]: every member default-constructed.  [error] is a
      plain [bool] that [new] leaves uninitialised; the only allocation site,
      [c_dbxml_open], assigns it before any read, so [false] stands for the
      indeterminate value. *)
Definition new `{DbXml} : t :=
    mk _ new_XmlManager new_XmlUpdateContext new_XmlContainer default_config
       false "" "".
End c_dbxml_t.

Module c_dbxml_docs_t.
Record t `{DbXml} := mk {
    doc : XmlDocument;
    it : XmlResults;
    context : XmlQueryContext;
    more : bool;
    name : string;
    content : string;
  }.
Definition set_doc `{DbXml} (x : XmlDocument) (d : t) : t :=
    mk _ x (it d) (context d) (more d) (name d) (content d).
Definition set_it `{DbXml} (x : XmlResults) (d : t) : t :=
    mk _ (doc d) x (context d) (more d) (name d) (content d).
Definition set_context `{DbXml} (x : XmlQueryContext) (d : t) : t :=
    mk _ (doc d) (it d) x (more d) (name d) (content d).
Definition set_more `{DbXml} (x : bool) (d : t) : t :=
    mk _ (doc d) (it d) (context d) x (name d) (content d).
Definition set_name `{DbXml} (x : string) (d : t) : t :=
    mk _ (doc d) (it d) (context d) (more d) x (content d).
Definition set_content `{DbXml} (x : string) (d : t) : t :=
    mk _ (doc d) (it d) (context d) (more d) (name d) x.
  (** [new c_dbxml_docs_t]; [more] is assigned by both allocation sites
      before any read. *)
Definition new `{DbXml} : t :=
    mk _ new_XmlDocument new_XmlResults new_XmlQueryContext false "" "".
End c_dbxml_docs_t.

(** ** Go objects: the structs of dbxml.go *)

(** A C handle ([C.c_dbxml], [C.c_dbxml_docs]) is an address of the native
    heap; 0 is the null pointer.  A Go pointer is an address of the Go heap;
    a field that may be nil is an [option]. *)

(** uint64 arithmetic of [Db.next]. *)
Definition uint64_modulus : N := 2 ^ 64.
Definition uint64_incr (n : N) : N := (n + 1) mod uint64_modulus.

Module Db.
Record t := mk {
    opened : bool;
    db : N;                (* C.c_dbxml *)
    next : N;              (* uint64 *)
    docss : gmap N N;      (* map[uint64]*Docs; a nil map reads as empty *)
  }.
Definition set_opened (x : bool) (d : t) : t := mk x (db d) (next d) (docss d).
Definition set_db (x : N) (d : t) : t := mk (opened d) x (next d) (docss d).
Definition set_next (x : N) (d : t) : t := mk (opened d) (db d) x (docss d).
Definition set_docss (x : gmap N N) (d : t) : t := mk (opened d) (db d) (next d) x.
  (** [&Db{}] *)
Definition zero : t := mk false 0 0 ∅.
End Db.

Module Docs.
Record t := mk {
    db : option N;         (* *Db *)
    id : N;                (* uint64 *)
    started : bool;
    opened : bool;
    docs : N;              (* C.c_dbxml_docs *)
  }.
Definition set_db (x : option N) (d : t) : t :=
    mk x (id d) (started d) (opened d) (docs d).
Definition set_id (x : N) (d : t) : t :=
    mk (db d) x (started d) (opened d) (docs d).
Definition set_started (x : bool) (d : t) : t :=
    mk (db d) (id d) x (opened d) (docs d).
Definition set_opened (x : bool) (d : t) : t :=
    mk (db d) (id d) (started d) x (docs d).
Definition set_docs (x : N) (d : t) : t :=
    mk (db d) (id d) (started d) (opened d) x.
  (** [&Docs{}] *)
Definition zero : t := mk None 0 false false 0.
End Docs.

(** Go's [error]: nil is [None].  [errclosed] is the package variable, one
    value distinct from every [errors.New] made later, whatever its text. *)
Inductive goerror :=
| errclosed
| errors_New (text : string).

#[global] Instance goerror_eq_dec : EqDecision goerror.
Proof. solve_decision. Defined.

(** ** Program state *)

(** Observable actions, in the order they happen: entries into the
    functions of c_dbxml.h, and the engine methods those functions call
    (with the text of the exception when the call threw).  The log is a
    ghost component: no function reads it. *)
Inductive cfun :=
| F_open (filename : string)
| F_free (db : N)
| F_error (db : N)
| F_errstring (db : N)
| F_put_file (db : N) (filename : string) (replace : Z)
| F_put_xml (db : N) (name data : string) (replace : Z)
| F_merge (db : N) (dbxmlfile : string) (replace : Z)
| F_remove (db : N) (filename : string)
| F_get (db : N) (name : string)
| F_size (db : N)
| F_get_all (db : N)
| F_get_query (db : N) (query : string)
| F_docs_next (docs : N)
| F_docs_name (docs : N)
| F_docs_content (docs : N)
| F_docs_free (docs : N).

Inductive libcall :=
| L_createUpdateContext
| L_setReadOnly (b : bool)
| L_existsContainer (filename : string)
| L_openContainer (filename : string) (config : XmlContainerConfig)
| L_createContainer (filename : string)
| L_addAlias (alias : string)
| L_deleteDocument (name : string)
| L_createLocalFileInputStream (filename : string)
| L_putDocument (name : string)
| L_putDocument_doc
| L_getDocument (name : string)
| L_getNumDocuments
| L_getAllDocuments
| L_getName
| L_getContent
| L_createQueryContext
| L_setDefaultCollection (alias : string)
| L_query (expr : string)
| L_next.

Inductive event :=
| Enter (f : cfun)
| Lib (l : libcall) (threw : option string).

#[global] Instance cfun_eq_dec : EqDecision cfun.
Proof. solve_decision. Defined.
#[global] Instance libcall_eq_dec : EqDecision libcall.
Proof. solve_decision. Defined.
#[global] Instance event_eq_dec : EqDecision event.
Proof. solve_decision. Defined.

(** Is the event an entry into a function of c_dbxml.h? *)
Definition is_Enter (e : event) : bool :=
  match e with Enter _ => true | Lib _ _ => false end.

(** The exception an event records, if any. *)
Definition thrown (e : event) : option string :=
  match e with Enter _ => None | Lib _ t => t end.

Record State `{DbXml} := mkState {
  world : World;
  c_dbxml_heap : gmap N c_dbxml_t.t;        (* live [c_dbxml_t] objects *)
  c_docs_heap : gmap N c_dbxml_docs_t.t;    (* live [c_dbxml_docs_t] objects *)
  c_brk : N;                                (* next address [new] returns *)
  go_Db : gmap N Db.t;                      (* Go heap, [Db] objects *)
  go_Docs : gmap N Docs.t;                  (* Go heap, [Docs] objects *)
  go_brk : N;                               (* next address [&T{}] returns *)
  finalizers : gset N;                      (* runtime.SetFinalizer *)
  trace : list event;
}.

Definition set_world `{DbXml} (x : World) (s : State) : State :=
  mkState _ x (c_dbxml_heap s) (c_docs_heap s) (c_brk s) (go_Db s) (go_Docs s)
    (go_brk s) (finalizers s) (trace s).
Definition set_c_dbxml_heap `{DbXml} (x : gmap N c_dbxml_t.t) (s : State) : State :=
  mkState _ (world s) x (c_docs_heap s) (c_brk s) (go_Db s) (go_Docs s)
    (go_brk s) (finalizers s) (trace s).
Definition set_c_docs_heap `{DbXml} (x : gmap N c_dbxml_docs_t.t) (s : State) : State :=
  mkState _ (world s) (c_dbxml_heap s) x (c_brk s) (go_Db s) (go_Docs s)
    (go_brk s) (finalizers s) (trace s).
Definition set_c_brk `{DbXml} (x : N) (s : State) : State :=
  mkState _ (world s) (c_dbxml_heap s) (c_docs_heap s) x (go_Db s) (go_Docs s)
    (go_brk s) (finalizers s) (trace s).
Definition set_go_Db `{DbXml} (x : gmap N Db.t) (s : State) : State :=
  mkState _ (world s) (c_dbxml_heap s) (c_docs_heap s) (c_brk s) x (go_Docs s)
    (go_brk s) (finalizers s) (trace s).
Definition set_go_Docs `{DbXml} (x : gmap N Docs.t) (s : State) : State :=
  mkState _ (world s) (c_dbxml_heap s) (c_docs_heap s) (c_brk s) (go_Db s) x
    (go_brk s) (finalizers s) (trace s).
Definition set_go_brk `{DbXml} (x : N) (s : State) : State :=
  mkState _ (world s) (c_dbxml_heap s) (c_docs_heap s) (c_brk s) (go_Db s)
    (go_Docs s) x (finalizers s) (trace s).
Definition set_finalizers `{DbXml} (x : gset N) (s : State) : State :=
  mkState _ (world s) (c_dbxml_heap s) (c_docs_heap s) (c_brk s) (go_Db s)
    (go_Docs s) (go_brk s) x (trace s).
Definition set_trace `{DbXml} (x : list event) (s : State) : State :=
  mkState _ (world s) (c_dbxml_heap s) (c_docs_heap s) (c_brk s) (go_Db s)
    (go_Docs s) (go_brk s) (finalizers s) x.

(** The state of a program that has not called the package yet.  Address 0
    is the null pointer, so allocation starts at 1. *)
Definition init `{DbXml} (w : World) : State :=
  mkState _ w ∅ ∅ 1 ∅ ∅ 1 ∅ [].

(** ** The monad of both layers *)

(** Ways a run stops without returning to its caller. *)
Inductive fault :=
| NilDereference              (* Go: nil pointer dereference *)
| WildPointer (p : N)         (* Go: an address the program never obtained *)
| BadHandle (h : N)           (* C++: null, freed or never allocated handle *)
| Uncaught (what : string)    (* C++: an exception leaves an extern "C" function *)
| OutOfFuel.

(** [Raise] is a C++ exception in flight; only code under [extern_C]
    produces it, and [extern_C] never lets it out. *)
Inductive res `{DbXml} (A : Type) : Type :=
| Ok (a : A) (s : State)
| Raise (what : string) (s : State)
| Fault (f : fault).
Arguments Ok {_ A} a s.
Arguments Raise {_ A} what s.
Arguments Fault {_ A} f.

Definition M `{DbXml} (A : Type) : Type := State → res A.

#[global] Instance M_ret `{DbXml} : MRet M := λ A a s, Ok a s.
#[global] Instance M_bind `{DbXml} : MBind M := λ A B f m s,
  match m s with
  | Ok a s' => f a s'
  | Raise what s' => Raise what s'
  | Fault x => Fault x
  end.

Definition log `{DbXml} (e : event) : M unit :=
  λ s, Ok tt (set_trace (trace s ++ [e]) s).

(** One engine method call: the world moves, the call is logged, and a
    thrown exception starts to propagate. *)
Definition lib `{DbXml} {A} (l : libcall) (f : World → exc A * World) : M A :=
  λ s, let '(r, w) := f (world s) in
       match r with
       | Val a => Ok a (set_trace (trace s ++ [Lib l None]) (set_world w s))
       | Throw what =>
           Raise what (set_trace (trace s ++ [Lib l (Some what)]) (set_world w s))
       end.

(** [try { body } catch (DbXml::XmlException &xe) { handler xe.what() }] *)
Definition try_catch `{DbXml} {A} (body : M A) (handler : string → M A) : M A :=
  λ s, match body s with
       | Raise what s' => handler what s'
       | r => r
       end.

(** The body of an [extern "C"] function: the entry is logged; an exception
    that reaches the boundary has no handler above it. *)
Definition extern_C `{DbXml} {A} (f : cfun) (body : M A) : M A :=
  λ s, match body (set_trace (trace s ++ [Enter f]) s) with
       | Raise what _ => Fault (Uncaught what)
       | r => r
       end.

Definition panic `{DbXml} {A} (f : fault) : M A := λ _, Fault f.

(** *** Native heap *)

Definition new_c_dbxml_t `{DbXml} : M N :=
  λ s, Ok (c_brk s)
          (set_c_brk (c_brk s + 1)
             (set_c_dbxml_heap (<[c_brk s := c_dbxml_t.new]> (c_dbxml_heap s)) s)).

Definition new_c_dbxml_docs_t `{DbXml} : M N :=
  λ s, Ok (c_brk s)
          (set_c_brk (c_brk s + 1)
             (set_c_docs_heap (<[c_brk s := c_dbxml_docs_t.new]> (c_docs_heap s)) s)).

(** [*db] *)
Definition deref `{DbXml} (db : N) : M c_dbxml_t.t :=
  λ s, match c_dbxml_heap s !! db with
       | Some d => Ok d s
       | None => Fault (BadHandle db)
       end.

(** [db->field = ...] *)
Definition assign `{DbXml} (db : N) (f : c_dbxml_t.t → c_dbxml_t.t) : M unit :=
  λ s, match c_dbxml_heap s !! db with
       | Some d => Ok tt (set_c_dbxml_heap (<[db := f d]> (c_dbxml_heap s)) s)
       | None => Fault (BadHandle db)
       end.

(** [delete db] *)
Definition delete_c_dbxml_t `{DbXml} (db : N) : M unit :=
  λ s, match c_dbxml_heap s !! db with
       | Some _ => Ok tt (set_c_dbxml_heap (delete db (c_dbxml_heap s)) s)
       | None => Fault (BadHandle db)
       end.

Definition deref_docs `{DbXml} (docs : N) : M c_dbxml_docs_t.t :=
  λ s, match c_docs_heap s !! docs with
       | Some d => Ok d s
       | None => Fault (BadHandle docs)
       end.

Definition assign_docs `{DbXml} (docs : N)
    (f : c_dbxml_docs_t.t → c_dbxml_docs_t.t) : M unit :=
  λ s, match c_docs_heap s !! docs with
       | Some d => Ok tt (set_c_docs_heap (<[docs := f d]> (c_docs_heap s)) s)
       | None => Fault (BadHandle docs)
       end.

Definition delete_c_dbxml_docs_t `{DbXml} (docs : N) : M unit :=
  λ s, match c_docs_heap s !! docs with
       | Some _ => Ok tt (set_c_docs_heap (delete docs (c_docs_heap s)) s)
       | None => Fault (BadHandle docs)
       end.

(** ** c_dbxml.cc *)

Definition ALIAS : string := "c_dbxml".

(** The double-quote character of C string literals. *)
Definition dquote : string := String (ascii_of_N 34) EmptyString.

(** C truth of an [int]. *)
Definition nonzero (i : Z) : bool := negb (i =? 0)%Z.

(** One round of the [for] loop of [c_dbxml_open], rounds being numbered
    from 0. *)
Definition open_attempt `{DbXml} (db : N) (filename : string) (i : nat) : M unit :=
  assign db (c_dbxml_t.set_error false) ;;
  assign db (c_dbxml_t.set_errstring "") ;;
  try_catch
    (d ← deref db;
     ctx ← lib L_createUpdateContext (createUpdateContext (c_dbxml_t.manager d));
     assign db (c_dbxml_t.set_context ctx) ;;
     (if decide (i = 1%nat) then
        log (Lib (L_setReadOnly true) None) ;;
        assign db (λ d, c_dbxml_t.set_config (setReadOnly true (c_dbxml_t.config d)) d)
      else mret tt) ;;
     d ← deref db;
     ex ← lib (L_existsContainer filename)
            (existsContainer (c_dbxml_t.manager d) filename);
     c ← (if ex : bool then
            lib (L_openContainer filename (c_dbxml_t.config d))
              (openContainer (c_dbxml_t.manager d) filename (c_dbxml_t.config d))
          else
            lib (L_createContainer filename)
              (createContainer (c_dbxml_t.manager d) filename));
     assign db (c_dbxml_t.set_container c) ;;
     ok ← lib (L_addAlias ALIAS) (addAlias c ALIAS);
     if ok : bool then mret tt
     else
       assign db (c_dbxml_t.set_errstring
                    ("Unable to add alias " ++ dquote ++ ALIAS ++ dquote)) ;;
       assign db (c_dbxml_t.set_error true))
    (λ what,
       assign db (c_dbxml_t.set_errstring what) ;;
       assign db (c_dbxml_t.set_error true)).

(** [for (int i = 0; i < 2; i++) { ...; if (db->error == false) break; }]
    with [rounds] rounds left. *)
Fixpoint open_loop `{DbXml} (rounds : nat) (db : N) (filename : string) (i : nat)
    : M unit :=
  match rounds with
  | O => mret tt
  | S rounds' =>
      open_attempt db filename i ;;
      d ← deref db;
      if c_dbxml_t.error d then open_loop rounds' db filename (S i)
      else mret tt
  end.

Definition c_dbxml_open `{DbXml} (filename : string) : M N :=
  extern_C (F_open filename)
    (db ← new_c_dbxml_t;
     open_loop 2 db filename 0 ;;
     mret db).

Definition c_dbxml_free `{DbXml} (db : N) : M unit :=
  extern_C (F_free db) (delete_c_dbxml_t db).

Definition c_dbxml_error `{DbXml} (db : N) : M Z :=
  extern_C (F_error db)
    (d ← deref db;
     mret (if c_dbxml_t.error d then 1 else 0)%Z).

Definition c_dbxml_errstring `{DbXml} (db : N) : M string :=
  extern_C (F_errstring db)
    (d ← deref db;
     mret (c_dbxml_t.errstring d)).

(** The first two statements of every function that reports through the
    handle: [db->errstring = ""; db->error = false;] *)
Definition clear_error `{DbXml} (db : N) : M unit :=
  assign db (c_dbxml_t.set_errstring "") ;;
  assign db (c_dbxml_t.set_error false).

(** The [catch] block shared by the reporting functions:
    [db->error = true; db->errstring = xe.what(); return 0;] *)
Definition report `{DbXml} (db : N) (what : string) : M Z :=
  assign db (c_dbxml_t.set_error true) ;;
  assign db (c_dbxml_t.set_errstring what) ;;
  mret 0%Z.

Definition c_dbxml_put_file `{DbXml} (db : N) (filename : string) (replace : Z)
    : M Z :=
  extern_C (F_put_file db filename replace)
    (clear_error db ;;
     (if nonzero replace then
        try_catch
          (d ← deref db;
           lib (L_deleteDocument filename)
             (deleteDocument (c_dbxml_t.container d) filename (c_dbxml_t.context d)))
          (λ _, mret tt)
      else mret tt) ;;
     try_catch
       (d ← deref db;
        stream ← lib (L_createLocalFileInputStream filename)
               (createLocalFileInputStream (c_dbxml_t.manager d) filename);
        lib (L_putDocument filename)
          (putDocument_stream (c_dbxml_t.container d) filename stream
             (c_dbxml_t.context d)) ;;
        mret 1%Z)
       (report db)).

Definition c_dbxml_put_xml `{DbXml} (db : N) (name data : string) (replace : Z)
    : M Z :=
  extern_C (F_put_xml db name data replace)
    (clear_error db ;;
     (if nonzero replace then
        try_catch
          (d ← deref db;
           lib (L_deleteDocument name)
             (deleteDocument (c_dbxml_t.container d) name (c_dbxml_t.context d)))
          (λ _, mret tt)
      else mret tt) ;;
     try_catch
       (d ← deref db;
        lib (L_putDocument name)
          (putDocument_string (c_dbxml_t.container d) name data
             (c_dbxml_t.context d)) ;;
        mret 1%Z)
       (report db)).

(** The [while (it.next(doc))] loop of [c_dbxml_merge]; [it] and [doc] are
    its local variables.  A round either leaves the function ([Some] of the
    returned [int]) or goes on. *)
Fixpoint merge_loop `{DbXml} (fuel : nat) (db : N) (replace : Z)
    (it : XmlResults) (doc : XmlDocument) : M Z :=
  match fuel with
  | O => panic OutOfFuel
  | S fuel' =>
      '(b, it', doc') ← lib L_next (results_next it doc);
      if b : bool then
        (if nonzero replace then
           try_catch
             (d ← deref db;
              n ← lib L_getName (getName doc');
              lib (L_deleteDocument n)
                (deleteDocument (c_dbxml_t.container d) n (c_dbxml_t.context d)))
             (λ _, mret tt)
         else mret tt) ;;
        r ← try_catch
              (d ← deref db;
               lib L_putDocument_doc
                 (putDocument_doc (c_dbxml_t.container d) doc'
                    (c_dbxml_t.context d)) ;;
               mret None)
              (λ what, z ← report db what; mret (Some z));
        match r with
        | Some z => mret z
        | None => merge_loop fuel' db replace it' doc'
        end
      else mret 1%Z
  end.

Definition c_dbxml_merge `{DbXml} (db : N) (dbxmlfile : string) (replace : Z)
    : M Z :=
  extern_C (F_merge db dbxmlfile replace)
    (clear_error db ;;
     d ← deref db;
     input ← lib (L_openContainer dbxmlfile default_config)
               (openContainer (c_dbxml_t.manager d) dbxmlfile default_config);
     it ← lib L_getAllDocuments (getAllDocuments input);
     merge_loop (S (remaining it)) db replace it new_XmlDocument).

Definition c_dbxml_remove `{DbXml} (db : N) (filename : string) : M Z :=
  extern_C (F_remove db filename)
    (clear_error db ;;
     try_catch
       (d ← deref db;
        lib (L_deleteDocument filename)
          (deleteDocument (c_dbxml_t.container d) filename (c_dbxml_t.context d)) ;;
        mret 1%Z)
       (report db)).

Definition c_dbxml_get `{DbXml} (db : N) (name : string) : M string :=
  extern_C (F_get db name)
    (clear_error db ;;
     try_catch
       (d ← deref db;
        doc ← lib (L_getDocument name) (getDocument (c_dbxml_t.container d) name);
        text ← lib L_getContent (getContent doc);
        assign db (c_dbxml_t.set_result text) ;;
        mret text)
       (λ what,
          assign db (c_dbxml_t.set_errstring what) ;;
          assign db (c_dbxml_t.set_error true) ;;
          mret what)).

(** [(unsigned long long) db->container.getNumDocuments()] *)
Definition c_dbxml_size `{DbXml} (db : N) : M N :=
  extern_C (F_size db)
    (d ← deref db;
     n ← lib L_getNumDocuments (getNumDocuments (c_dbxml_t.container d));
     mret (n mod uint64_modulus)).

Definition c_dbxml_get_all `{DbXml} (db : N) : M N :=
  extern_C (F_get_all db)
    (clear_error db ;;
     docs ← new_c_dbxml_docs_t;
     d ← deref db;
     it ← lib L_getAllDocuments (getAllDocuments (c_dbxml_t.container d));
     assign_docs docs (c_dbxml_docs_t.set_it it) ;;
     assign_docs docs (c_dbxml_docs_t.set_more true) ;;
     mret docs).

Definition c_dbxml_get_query `{DbXml} (db : N) (query_ : string) : M N :=
  extern_C (F_get_query db query_)
    (clear_error db ;;
     docs ← new_c_dbxml_docs_t;
     assign_docs docs (c_dbxml_docs_t.set_more true) ;;
     try_catch
       (d ← deref db;
        ctx ← lib L_createQueryContext (createQueryContext (c_dbxml_t.manager d));
        assign_docs docs (c_dbxml_docs_t.set_context ctx) ;;
        ctx ← lib (L_setDefaultCollection ALIAS) (setDefaultCollection ctx ALIAS);
        assign_docs docs (c_dbxml_docs_t.set_context ctx) ;;
        it ← lib (L_query ("collection('" ++ ALIAS ++ "')" ++ query_))
               (query (c_dbxml_t.manager d)
                  ("collection('" ++ ALIAS ++ "')" ++ query_) ctx);
        assign_docs docs (c_dbxml_docs_t.set_it it))
       (λ what,
          assign_docs docs (c_dbxml_docs_t.set_more false) ;;
          assign db (c_dbxml_t.set_error true) ;;
          assign db (c_dbxml_t.set_errstring what)) ;;
     mret docs).

Definition c_dbxml_docs_next `{DbXml} (docs : N) : M Z :=
  extern_C (F_docs_next docs)
    (d ← deref_docs docs;
     (if c_dbxml_docs_t.more d then
        '(b, it', doc') ← lib L_next
            (results_next (c_dbxml_docs_t.it d) (c_dbxml_docs_t.doc d));
        assign_docs docs (c_dbxml_docs_t.set_it it') ;;
        assign_docs docs (c_dbxml_docs_t.set_doc doc') ;;
        assign_docs docs (c_dbxml_docs_t.set_more b) ;;
        assign_docs docs (c_dbxml_docs_t.set_name "") ;;
        assign_docs docs (c_dbxml_docs_t.set_content "")
      else mret tt) ;;
     d ← deref_docs docs;
     mret (if c_dbxml_docs_t.more d then 1 else 0)%Z).

Definition c_dbxml_docs_name `{DbXml} (docs : N) : M string :=
  extern_C (F_docs_name docs)
    (d ← deref_docs docs;
     (if c_dbxml_docs_t.more d && (String.length (c_dbxml_docs_t.name d) =? 0)%nat
      then
        n ← lib L_getName (getName (c_dbxml_docs_t.doc d));
        assign_docs docs (c_dbxml_docs_t.set_name n)
      else mret tt) ;;
     d ← deref_docs docs;
     mret (c_dbxml_docs_t.name d)).

Definition c_dbxml_docs_content `{DbXml} (docs : N) : M string :=
  extern_C (F_docs_content docs)
    (d ← deref_docs docs;
     (if c_dbxml_docs_t.more d && (String.length (c_dbxml_docs_t.content d) =? 0)%nat
      then
        text ← lib L_getContent (getContent (c_dbxml_docs_t.doc d));
        assign_docs docs (c_dbxml_docs_t.set_content text)
      else mret tt) ;;
     d ← deref_docs docs;
     mret (c_dbxml_docs_t.content d)).

Definition c_dbxml_docs_free `{DbXml} (docs : N) : M unit :=
  extern_C (F_docs_free docs) (delete_c_dbxml_docs_t docs).

(** ** dbxml.go *)

(** *** Go heap *)

(** [&Db{}] *)
Definition new_Db `{DbXml} : M N :=
  λ s, Ok (go_brk s)
          (set_go_brk (go_brk s + 1)
             (set_go_Db (<[go_brk s := Db.zero]> (go_Db s)) s)).

(** [&Docs{}] *)
Definition new_Docs `{DbXml} : M N :=
  λ s, Ok (go_brk s)
          (set_go_brk (go_brk s + 1)
             (set_go_Docs (<[go_brk s := Docs.zero]> (go_Docs s)) s)).

Definition load_Db `{DbXml} (p : N) : M Db.t :=
  λ s, match go_Db s !! p with
       | Some d => Ok d s
       | None => Fault (WildPointer p)
       end.

Definition store_Db `{DbXml} (p : N) (f : Db.t → Db.t) : M unit :=
  λ s, match go_Db s !! p with
       | Some d => Ok tt (set_go_Db (<[p := f d]> (go_Db s)) s)
       | None => Fault (WildPointer p)
       end.

Definition load_Docs `{DbXml} (p : N) : M Docs.t :=
  λ s, match go_Docs s !! p with
       | Some d => Ok d s
       | None => Fault (WildPointer p)
       end.

Definition store_Docs `{DbXml} (p : N) (f : Docs.t → Docs.t) : M unit :=
  λ s, match go_Docs s !! p with
       | Some d => Ok tt (set_go_Docs (<[p := f d]> (go_Docs s)) s)
       | None => Fault (WildPointer p)
       end.

(** A pointer field that is followed: nil panics. *)
Definition follow `{DbXml} (p : option N) : M N :=
  match p with
  | Some a => mret a
  | None => panic NilDereference
  end.

(** [runtime.SetFinalizer(p, Close)] *)
Definition SetFinalizer `{DbXml} (p : N) : M unit :=
  λ s, Ok tt (set_finalizers ({[p]} ∪ finalizers s) s).

(** [repl := C.int(0); if replace { repl = 1 }] *)
Definition repl (replace : bool) : Z := if replace then 1%Z else 0%Z.

(** *** Iterators *)

(** [func (docs *Docs) close()] *)
Definition Docs_close `{DbXml} (docs : N) : M unit :=
  d ← load_Docs docs;
  if Docs.opened d then
    c_dbxml_docs_free (Docs.docs d) ;;
    store_Docs docs (Docs.set_opened false) ;;
    d ← load_Docs docs;
    owner ← follow (Docs.db d);
    store_Db owner (λ o, Db.set_docss (delete (Docs.id d) (Db.docss o)) o) ;;
    store_Docs docs (Docs.set_db None)
  else mret tt.

(** [func (docs *Docs) Close()] *)
Definition Docs_Close `{DbXml} (docs : N) : M unit :=
  Docs_close docs.

(** [func (docs *Docs) Next() bool] *)
Definition Docs_Next `{DbXml} (docs : N) : M bool :=
  d ← load_Docs docs;
  if negb (Docs.opened d) then mret false
  else
    store_Docs docs (Docs.set_started true) ;;
    d ← load_Docs docs;
    r ← c_dbxml_docs_next (Docs.docs d);
    if (r =? 0)%Z then
      Docs_close docs ;;
      mret false
    else mret true.

(** [func (docs *Docs) Name() string] *)
Definition Docs_Name `{DbXml} (docs : N) : M string :=
  d ← load_Docs docs;
  if negb (Docs.opened d && Docs.started d) then mret ""
  else c_dbxml_docs_name (Docs.docs d).

(** [func (docs *Docs) Content() string] *)
Definition Docs_Content `{DbXml} (docs : N) : M string :=
  d ← load_Docs docs;
  if negb (Docs.opened d && Docs.started d) then mret ""
  else c_dbxml_docs_content (Docs.docs d).

(** *** Connections *)

(** [func Open(filename string) ( *Db, error)] *)
Definition Open `{DbXml} (filename : string) : M (N * option goerror) :=
  db ← new_Db;
  h ← c_dbxml_open filename;
  store_Db db (Db.set_db h) ;;
  d ← load_Db db;
  e ← c_dbxml_error (Db.db d);
  if negb (e =? 0)%Z then
    text ← c_dbxml_errstring (Db.db d);
    c_dbxml_free (Db.db d) ;;
    mret (db, Some (errors_New text))
  else
    store_Db db (Db.set_docss ∅) ;;
    store_Db db (Db.set_opened true) ;;
    SetFinalizer db ;;
    mret (db, None).

(** The loop of [Db.Close]:
    [for id := uint64(0); id < db.next; id++ {
       if _, ok := db.docss[id]; ok { db.docss[id].Close() } }].
    The condition is read again on every round, as in the source; [fuel]
    bounds the number of rounds. *)
Fixpoint Close_loop `{DbXml} (fuel : nat) (db : N) (id : N) : M unit :=
  d ← load_Db db;
  if (id <? Db.next d)%N then
    match fuel with
    | O => panic OutOfFuel
    | S fuel' =>
        match Db.docss d !! id with
        | Some docs => Docs_Close docs
        | None => mret tt
        end ;;
        Close_loop fuel' db (uint64_incr id)
    end
  else mret tt.

(** [func (db *Db) Close()] *)
Definition Db_Close `{DbXml} (db : N) : M unit :=
  d ← load_Db db;
  if Db.opened d then
    Close_loop (N.to_nat (Db.next d)) db 0 ;;
    d ← load_Db db;
    c_dbxml_free (Db.db d) ;;
    store_Db db (Db.set_opened false)
  else mret tt.

(** After a failed C call: [errors.New(C.GoString(C.c_dbxml_errstring(db.db)))] *)
Definition last_error `{DbXml} (db : N) : M (option goerror) :=
  d ← load_Db db;
  text ← c_dbxml_errstring (Db.db d);
  mret (Some (errors_New text)).

(** [func (db *Db) PutFile(filename string, replace bool) error] *)
Definition Db_PutFile `{DbXml} (db : N) (filename : string) (replace : bool)
    : M (option goerror) :=
  d ← load_Db db;
  if negb (Db.opened d) then mret (Some errclosed)
  else
    r ← c_dbxml_put_file (Db.db d) filename (repl replace);
    if (r =? 0)%Z then last_error db else mret None.

(** [func (db *Db) PutXml(name string, data string, replace bool) error] *)
Definition Db_PutXml `{DbXml} (db : N) (name data : string) (replace : bool)
    : M (option goerror) :=
  d ← load_Db db;
  if negb (Db.opened d) then mret (Some errclosed)
  else
    r ← c_dbxml_put_xml (Db.db d) name data (repl replace);
    if (r =? 0)%Z then last_error db else mret None.

(** [func (db *Db) Merge(filename string, replace bool) error] *)
Definition Db_Merge `{DbXml} (db : N) (filename : string) (replace : bool)
    : M (option goerror) :=
  d ← load_Db db;
  if negb (Db.opened d) then mret (Some errclosed)
  else
    r ← c_dbxml_merge (Db.db d) filename (repl replace);
    if (r =? 0)%Z then last_error db else mret None.

(** [func (db *Db) Remove(name string) error] *)
Definition Db_Remove `{DbXml} (db : N) (name : string) : M (option goerror) :=
  d ← load_Db db;
  if negb (Db.opened d) then mret (Some errclosed)
  else
    r ← c_dbxml_remove (Db.db d) name;
    if (r =? 0)%Z then last_error db else mret None.

(** [func (db *Db) Get(name string) (string, error)] *)
Definition Db_Get `{DbXml} (db : N) (name : string)
    : M (string * option goerror) :=
  d ← load_Db db;
  if negb (Db.opened d) then mret ("", Some errclosed)
  else
    text ← c_dbxml_get (Db.db d) name;
    e ← c_dbxml_error (Db.db d);
    if negb (e =? 0)%Z then mret ("", Some (errors_New text))
    else mret (text, None).

(** [func (db *Db) Size() (uint64, error)] *)
Definition Db_Size `{DbXml} (db : N) : M (N * option goerror) :=
  d ← load_Db db;
  if negb (Db.opened d) then mret (0, Some errclosed)
  else
    n ← c_dbxml_size (Db.db d);
    mret (n, None).

(** The common tail of [All] and [Query]: the new iterator is bound to the
    connection and entered in [docss] under the next id. *)
Definition register `{DbXml} (db docs : N) : M unit :=
  store_Docs docs (Docs.set_db (Some db)) ;;
  d ← load_Db db;
  store_Docs docs (Docs.set_id (Db.next d)) ;;
  store_Db db (λ d, Db.set_next (uint64_incr (Db.next d)) d) ;;
  i ← load_Docs docs;
  store_Db db (λ d, Db.set_docss (<[Docs.id i := docs]> (Db.docss d)) d) ;;
  SetFinalizer docs ;;
  store_Docs docs (Docs.set_opened true).

(** [func (db *Db) All() ( *Docs, error)] *)
Definition Db_All `{DbXml} (db : N) : M (N * option goerror) :=
  docs ← new_Docs;
  d ← load_Db db;
  if negb (Db.opened d) then mret (docs, Some errclosed)
  else
    h ← c_dbxml_get_all (Db.db d);
    store_Docs docs (Docs.set_docs h) ;;
    register db docs ;;
    mret (docs, None).

(** [func (db *Db) Query(query string) ( *Docs, error)] *)
Definition Db_Query `{DbXml} (db : N) (query_ : string)
    : M (N * option goerror) :=
  docs ← new_Docs;
  d ← load_Db db;
  if negb (Db.opened d) then mret (docs, Some errclosed)
  else
    h ← c_dbxml_get_query (Db.db d) query_;
    store_Docs docs (Docs.set_docs h) ;;
    e ← c_dbxml_error (Db.db d);
    if negb (e =? 0)%Z then
      text ← c_dbxml_errstring (Db.db d);
      mret (docs, Some (errors_New text))
    else
      register db docs ;;
      mret (docs, None).

(** ** The calls a client can make *)

Inductive call :=
| Call_Open (filename : string)
| Call_Close (db : N)
| Call_PutFile (db : N) (filename : string) (replace : bool)
| Call_PutXml (db : N) (name data : string) (replace : bool)
| Call_Merge (db : N) (filename : string) (replace : bool)
| Call_Remove (db : N) (name : string)
| Call_Get (db : N) (name : string)
| Call_Size (db : N)
| Call_All (db : N)
| Call_Query (db : N) (query_ : string)
| Call_Next (docs : N)
| Call_Name (docs : N)
| Call_Content (docs : N)
| Call_DocsClose (docs : N).

(** What a call hands back, whatever its Go type. *)
Inductive answer :=
| A_unit
| A_error (e : option goerror)
| A_string (text : string)
| A_string_error (text : string) (e : option goerror)
| A_count_error (n : N) (e : option goerror)
| A_pointer_error (p : N) (e : option goerror)
| A_bool (b : bool).

Definition answering `{DbXml} {A} (f : A → answer) (m : M A) : M answer :=
  a ← m; mret (f a).

Definition run `{DbXml} (c : call) : M answer :=
  match c with
  | Call_Open filename =>
      answering (λ r, A_pointer_error r.1 r.2) (Open filename)
  | Call_Close db => answering (λ _, A_unit) (Db_Close db)
  | Call_PutFile db filename replace =>
      answering A_error (Db_PutFile db filename replace)
  | Call_PutXml db name data replace =>
      answering A_error (Db_PutXml db name data replace)
  | Call_Merge db filename replace =>
      answering A_error (Db_Merge db filename replace)
  | Call_Remove db name => answering A_error (Db_Remove db name)
  | Call_Get db name =>
      answering (λ r, A_string_error r.1 r.2) (Db_Get db name)
  | Call_Size db => answering (λ r, A_count_error r.1 r.2) (Db_Size db)
  | Call_All db => answering (λ r, A_pointer_error r.1 r.2) (Db_All db)
  | Call_Query db query_ =>
      answering (λ r, A_pointer_error r.1 r.2) (Db_Query db query_)
  | Call_Next docs => answering A_bool (Docs_Next docs)
  | Call_Name docs => answering A_string (Docs_Name docs)
  | Call_Content docs => answering A_string (Docs_Content docs)
  | Call_DocsClose docs => answering (λ _, A_unit) (Docs_Close docs)
  end.

(** [reach n s]: [s] is the state after [n] calls that returned, from a
    program start. *)
Inductive reach `{DbXml} : nat → State → Prop :=
| reach_init w : reach 0 (init w)
| reach_call n s c a s' :
    reach n s → run c s = Ok a s' → reach (S n) s'.

(** Runs a list of calls; [None] when one of them does not return. *)
Fixpoint run_all `{DbXml} (cs : list call) (s : State) : option State :=
  match cs with
  | [] => Some s
  | c :: cs' =>
      match run c s with
      | Ok _ s' => run_all cs' s'
      | _ => None
      end
  end.

(** ** A small engine to run the model on

    Containers are lists of (name, content) pairs kept by path; a container
    whose path is in [locked] opens read-only only.  The only query the
    engine understands selects every document. *)

Module Toy.

Record world := mkWorld {
  disk : list (string * list (string * string));
  files : list (string * string);
  locked : list string;
  aliased : option string;
}.

Fixpoint lookup {A} (k : string) (l : list (string * A)) : option A :=
  match l with
  | [] => None
  | (k', v) :: l' => if String.eqb k k' then Some v else lookup k l'
  end.

Fixpoint remove {A} (k : string) (l : list (string * A)) : list (string * A) :=
  match l with
  | [] => []
  | (k', v) :: l' => if String.eqb k k' then l' else (k', v) :: remove k l'
  end.

Definition mem (k : string) (l : list string) : bool :=
  existsb (String.eqb k) l.

Definition set_disk (x : list (string * list (string * string))) (w : world) :=
  mkWorld x (files w) (locked w) (aliased w).

Definition store (path : string) (docs : list (string * string)) (w : world) :=
  set_disk ((path, docs) :: remove path (disk w)) w.

(** A container handle: its path and whether it was opened read-only. *)
Definition handle : Type := string * bool.

Definition t_openContainer (path : string) (cfg : XmlContainerConfig) (w : world)
    : exc handle * world :=
  match lookup path (disk w) with
  | None => (Throw "container not found", w)
  | Some _ =>
      if mem path (locked w) && negb (readOnly cfg)
      then (Throw "permission denied", w)
      else (Val (path, readOnly cfg), w)
  end.

Definition t_createContainer (path : string) (w : world) : exc handle * world :=
  if String.eqb path "" then (Throw "invalid path", w)
  else (Val (path, false), store path [] w).

Definition t_delete (c : handle) (name : string) (w : world) : exc unit * world :=
  if c.2 then (Throw "container is read-only", w)
  else
    match lookup c.1 (disk w) with
    | None => (Throw "container not found", w)
    | Some docs =>
        match lookup name docs with
        | None => (Throw "document not found", w)
        | Some _ => (Val tt, store c.1 (remove name docs) w)
        end
    end.

Definition t_put (c : handle) (name text : string) (w : world) : exc unit * world :=
  if c.2 then (Throw "container is read-only", w)
  else
    match lookup c.1 (disk w) with
    | None => (Throw "container not found", w)
    | Some docs =>
        match lookup name docs with
        | Some _ => (Throw "document exists", w)
        | None => (Val tt, store c.1 (docs ++ [(name, text)]) w)
        end
    end.

Definition t_docs (c : handle) (w : world) : list (string * string) :=
  default [] (lookup c.1 (disk w)).

Definition t_query (expr : string) (w : world)
    : exc (list (string * string)) * world :=
  if String.eqb expr "collection('c_dbxml')/*" then
    match aliased w with
    | Some path => (Val (default [] (lookup path (disk w))), w)
    | None => (Throw "unknown collection", w)
    end
  else (Throw "syntax error", w).

Definition t_next (it : list (string * string)) (doc : string * string) (w : world)
    : exc (bool * list (string * string) * (string * string)) * world :=
  match it with
  | [] => (Val (false, [], doc), w)
  | d :: it' => (Val (true, it', d), w)
  end.

Lemma t_next_remaining it doc w it' doc' w' :
  t_next it doc w = (Val (true, it', doc'), w') →
  (length it' < length it)%nat.
Proof. destruct it; simpl; intros [= <- <- <-]; lia. Qed.

#[export] Instance engine : DbXml := {|
  World := world;
  XmlManager := unit;
  XmlUpdateContext := unit;
  XmlQueryContext := unit;
  XmlContainer := handle;
  XmlResults := list (string * string);
  XmlDocument := string * string;
  XmlInputStream := string;
  new_XmlManager := tt;
  new_XmlUpdateContext := tt;
  new_XmlQueryContext := tt;
  new_XmlContainer := ("", false);
  new_XmlResults := [];
  new_XmlDocument := ("", "");
  createUpdateContext := λ _ w, (Val tt, w);
  existsContainer := λ _ path w, (Val (bool_decide (is_Some (lookup path (disk w)))), w);
  openContainer := λ _, t_openContainer;
  createContainer := λ _, t_createContainer;
  createLocalFileInputStream := λ _ path w,
    match lookup path (files w) with
    | Some text => (Val text, w)
    | None => (Throw "file not found", w)
    end;
  createQueryContext := λ _ w, (Val tt, w);
  query := λ _ expr _, t_query expr;
  setDefaultCollection := λ _ _ w, (Val tt, w);
  addAlias := λ c alias w,
    (Val true, mkWorld (disk w) (files w) (locked w) (Some c.1));
  deleteDocument := λ c name _, t_delete c name;
  putDocument_stream := λ c name text _, t_put c name text;
  putDocument_string := λ c name text _, t_put c name text;
  putDocument_doc := λ c doc _, t_put c doc.1 doc.2;
  getDocument := λ c name w,
    match lookup name (t_docs c w) with
    | Some text => (Val (name, text), w)
    | None => (Throw "document not found", w)
    end;
  getNumDocuments := λ c w, (Val (N.of_nat (length (t_docs c w))), w);
  getAllDocuments := λ c w, (Val (t_docs c w), w);
  getName := λ doc w, (Val doc.1, w);
  getContent := λ doc w, (Val doc.2, w);
  results_next := t_next;
  remaining := length;
  results_next_remaining := t_next_remaining;
|}.

(** An empty disc with two xml files beside it. *)
Definition w0 : world :=
  mkWorld [] [("a.xml", "<a/>"); ("b.xml", "<b/>")] [] None.

(** A disc that holds one container the caller may not write. *)
Definition w_locked : world :=
  mkWorld [("ro.dbxml", [("a.xml", "<a/>")])] [] ["ro.dbxml"] None.

End Toy.

(** ** The native operations as one type *)

(** The functions of c_dbxml.cc that act on a container through its
    connection handle. *)
Inductive native_op :=
| Op_put_file (filename : string) (replace : Z)
| Op_put_xml (name data : string) (replace : Z)
| Op_merge (dbxmlfile : string) (replace : Z)
| Op_remove (filename : string)
| Op_get (name : string)
| Op_size
| Op_get_all
| Op_get_query (query_ : string).

(** What they return: an [int], a [char const *], an [unsigned long long] or
    a cursor. *)
Inductive native_answer :=
| R_int (z : Z)
| R_text (t : string)
| R_count (n : N)
| R_docs (p : N).

Definition entry (op : native_op) (db : N) : cfun :=
  match op with
  | Op_put_file filename replace => F_put_file db filename replace
  | Op_put_xml name data replace => F_put_xml db name data replace
  | Op_merge dbxmlfile replace => F_merge db dbxmlfile replace
  | Op_remove filename => F_remove db filename
  | Op_get name => F_get db name
  | Op_size => F_size db
  | Op_get_all => F_get_all db
  | Op_get_query query_ => F_get_query db query_
  end.

Definition run_native `{DbXml} (op : native_op) (db : N) : M native_answer :=
  match op with
  | Op_put_file filename replace =>
      r ← c_dbxml_put_file db filename replace; mret (R_int r)
  | Op_put_xml name data replace =>
      r ← c_dbxml_put_xml db name data replace; mret (R_int r)
  | Op_merge dbxmlfile replace =>
      r ← c_dbxml_merge db dbxmlfile replace; mret (R_int r)
  | Op_remove filename => r ← c_dbxml_remove db filename; mret (R_int r)
  | Op_get name => r ← c_dbxml_get db name; mret (R_text r)
  | Op_size => r ← c_dbxml_size db; mret (R_count r)
  | Op_get_all => r ← c_dbxml_get_all db; mret (R_docs r)
  | Op_get_query query_ => r ← c_dbxml_get_query db query_; mret (R_docs r)
  end.

(** The exception of the last engine call among the events, if it threw. *)
Definition last_thrown (l : list event) : option string :=
  match last l with
  | Some (Lib _ t) => t
  | _ => None
  end.

Definition flag_of (t : option string) : bool :=
  match t with Some _ => true | None => false end.

(** ** Events of a merge, and the alias message *)








Section specification.
Context `{E : DbXml}.

(** * Reasoning about runs *)

(** [post m s Q X]: if [m] run from [s] returns, [Q] holds of its value and
    final state; if it throws, [X] holds of the exception and final state. *)
Definition post {A} (m : M A) (s : State)
    (Q : A → State → Prop) (X : string → State → Prop) : Prop :=
  match m s with
  | Ok a s' => Q a s'
  | Raise what s' => X what s'
  | Fault _ => True
  end.

(** A run [keeps] a relation between the state it starts from and every
    state it can end in. *)
Definition keeps (R : State → State → Prop) {A} (m : M A) : Prop :=
  ∀ s, post m s (λ _ s', R s s') (λ _ s', R s s').

(** [shape s s']: the two states have the same Go heap and the same live
    native handles; only the engine's world, the contents of native objects
    and the log may differ. *)
Record shape (s s' : State) : Prop := mkShape {
  shape_go_Db : go_Db s' = go_Db s;
  shape_go_Docs : go_Docs s' = go_Docs s;
  shape_go_brk : go_brk s' = go_brk s;
  shape_finalizers : finalizers s' = finalizers s;
  shape_c_brk : c_brk s' = c_brk s;
  shape_c_dbxml : dom (c_dbxml_heap s') = dom (c_dbxml_heap s);
  shape_c_docs : dom (c_docs_heap s') = dom (c_docs_heap s);
}.

(** Addresses at or above the allocation marks are unused. *)
Record heap_ok (s : State) : Prop := mkHeapOk {
  go_Db_fresh : ∀ p, go_brk s ≤ p → go_Db s !! p = None;
  go_Docs_fresh : ∀ p, go_brk s ≤ p → go_Docs s !! p = None;
  c_dbxml_fresh : ∀ h, c_brk s ≤ h → c_dbxml_heap s !! h = None;
  c_docs_fresh : ∀ h, c_brk s ≤ h → c_docs_heap s !! h = None;
}.

(** The lifecycle invariant of the package. *)
Record Inv (s : State) : Prop := mkInv {
  inv_heap : heap_ok s;
  (* an open connection owns a live native handle *)
  inv_handle : ∀ p d,
    go_Db s !! p = Some d → Db.opened d = true →
    is_Some (c_dbxml_heap s !! Db.db d);
  (* which no other open connection has *)
  inv_handle_inj : ∀ p q d e,
    go_Db s !! p = Some d → go_Db s !! q = Some e →
    Db.opened d = true → Db.opened e = true → Db.db d = Db.db e → p = q;
  (* a connection that is not open has no children *)
  inv_closed : ∀ p d,
    go_Db s !! p = Some d → Db.opened d = false → Db.docss d = ∅;
  inv_next : ∀ p d, go_Db s !! p = Some d → Db.next d < uint64_modulus;
  (* every child is an open iterator of this connection, filed under its
     own id, and ids are below the counter *)
  inv_child : ∀ p d k a,
    go_Db s !! p = Some d → Db.docss d !! k = Some a →
    k < Db.next d ∧
    ∃ i, go_Docs s !! a = Some i ∧ Docs.opened i = true ∧
         Docs.db i = Some p ∧ Docs.id i = k;
  (* every open iterator is a child of its connection and owns a live
     native cursor *)
  inv_open : ∀ a i,
    go_Docs s !! a = Some i → Docs.opened i = true →
    is_Some (c_docs_heap s !! Docs.docs i) ∧
    ∃ p d, Docs.db i = Some p ∧ go_Db s !! p = Some d ∧
           Db.docss d !! Docs.id i = Some a;
  (* which no other open iterator has *)
  inv_cursor_inj : ∀ a b i j,
    go_Docs s !! a = Some i → go_Docs s !! b = Some j →
    Docs.opened i = true → Docs.opened j = true →
    Docs.docs i = Docs.docs j → a = b;
  (* finalizers are set on allocated objects only *)
  inv_finalizers : ∀ p, p ∈ finalizers s → p < go_brk s;
}.

(** ** Closing an iterator *)

(** The state [close] leaves when the iterator [a], with fields [i], is
    open and belongs to the connection [p], with fields [o]. *)
Definition closed_Docs (i : Docs.t) : Docs.t :=
  Docs.mk None (Docs.id i) (Docs.started i) false (Docs.docs i).

Definition unfiled (i : Docs.t) (o : Db.t) : Db.t :=
  Db.mk (Db.opened o) (Db.db o) (Db.next o) (delete (Docs.id i) (Db.docss o)).

Definition after_close (a : N) (i : Docs.t) (p : N) (o : Db.t) (s : State) : State :=
  mkState _ (world s) (c_dbxml_heap s) (delete (Docs.docs i) (c_docs_heap s))
    (c_brk s) (<[p := unfiled i o]> (go_Db s)) (<[a := closed_Docs i]> (go_Docs s))
    (go_brk s) (finalizers s) (trace s ++ [Enter (F_docs_free (Docs.docs i))]).

(** What [Db.Close] on the connection [p] makes of an iterator. *)
Definition close_of (p : N) (i : Docs.t) : Docs.t :=
  if Docs.opened i && bool_decide (Docs.db i = Some p) then closed_Docs i else i.

(** The native cursors of the iterators filed under the [n] ids from [id]
    on, in the order of the ids. *)
Fixpoint child_cursors (s : State) (m : gmap N N) (id : N) (n : nat) : list N :=
  match n with
  | O => []
  | S n' =>
      match m !! id with
      | Some a =>
          match go_Docs s !! a with
          | Some i => [Docs.docs i]
          | None => []
          end
      | None => []
      end ++ child_cursors s m (id + 1) n'
  end.

Definition after_loop (p : N) (d : Db.t) (cs : list N) (s : State) : State :=
  mkState _ (world s) (c_dbxml_heap s)
    (foldl (λ m h, delete h m) (c_docs_heap s) cs)
    (c_brk s)
    (<[p := Db.mk (Db.opened d) (Db.db d) (Db.next d) ∅]> (go_Db s))
    (close_of p <$> go_Docs s)
    (go_brk s) (finalizers s)
    (trace s ++ map (λ h, Enter (F_docs_free h)) cs).

(** The cursors [Db.Close] releases: those of the iterators filed under
    the ids below [next]. *)
Definition cursors_of (s : State) (d : Db.t) : list N :=
  child_cursors s (Db.docss d) 0 (N.to_nat (Db.next d)).

(** The state [Db.Close] leaves when the connection [p], with fields [d],
    is open. *)
Definition after_Db_Close (p : N) (d : Db.t) (s : State) : State :=
  mkState _ (world s) (delete (Db.db d) (c_dbxml_heap s))
    (foldl (λ m h, delete h m) (c_docs_heap s) (cursors_of s d))
    (c_brk s)
    (<[p := Db.mk false (Db.db d) (Db.next d) ∅]> (go_Db s))
    (close_of p <$> go_Docs s)
    (go_brk s) (finalizers s)
    (trace s ++ map (λ h, Enter (F_docs_free h)) (cursors_of s d)
             ++ [Enter (F_free (Db.db d))]).

(** ** Allocation *)

Definition after_new_Docs (s : State) : State :=
  mkState _ (world s) (c_dbxml_heap s) (c_docs_heap s) (c_brk s) (go_Db s)
    (<[go_brk s := Docs.zero]> (go_Docs s)) (go_brk s + 1) (finalizers s)
    (trace s).

(** ** Registration of a new iterator *)

Definition filed (a : N) (d : Db.t) : Db.t :=
  Db.mk (Db.opened d) (Db.db d) (uint64_incr (Db.next d))
    (<[Db.next d := a]> (Db.docss d)).

Definition registered (db : N) (d : Db.t) (i : Docs.t) : Docs.t :=
  Docs.mk (Some db) (Db.next d) (Docs.started i) true (Docs.docs i).

Definition after_register (db : N) (d : Db.t) (a : N) (i : Docs.t) (s : State)
    : State :=
  mkState _ (world s) (c_dbxml_heap s) (c_docs_heap s) (c_brk s)
    (<[db := filed a d]> (go_Db s)) (<[a := registered db d i]> (go_Docs s))
    (go_brk s) ({[a]} ∪ finalizers s) (trace s).

(** A run that keeps [R] and, when it returns, returns [v]. *)
Definition yields (R : State → State → Prop) {A} (v : A) (m : M A) : Prop :=
  ∀ s, post m s (λ a s', a = v ∧ R s s') (λ _ s', R s s').

(** [grown_docs s s' h]: from [s] to [s'] one native cursor, [h], was
    allocated; nothing else of the shape changed. *)
Record grown_docs (s s' : State) (h : N) : Prop := mkGrownDocs {
  gd_go_Db : go_Db s' = go_Db s;
  gd_go_Docs : go_Docs s' = go_Docs s;
  gd_go_brk : go_brk s' = go_brk s;
  gd_finalizers : finalizers s' = finalizers s;
  gd_handle : h = c_brk s;
  gd_c_brk : c_brk s' = c_brk s + 1;
  gd_c_dbxml : dom (c_dbxml_heap s') = dom (c_dbxml_heap s);
  gd_c_docs : dom (c_docs_heap s') = {[h]} ∪ dom (c_docs_heap s);
}.

(** [grown_db s s' h]: from [s] to [s'] one connection handle, [h], was
    allocated; nothing else of the shape changed. *)
Record grown_db (s s' : State) (h : N) : Prop := mkGrownDb {
  gb_go_Db : go_Db s' = go_Db s;
  gb_go_Docs : go_Docs s' = go_Docs s;
  gb_go_brk : go_brk s' = go_brk s;
  gb_finalizers : finalizers s' = finalizers s;
  gb_handle : h = c_brk s;
  gb_c_brk : c_brk s' = c_brk s + 1;
  gb_c_dbxml : dom (c_dbxml_heap s') = {[h]} ∪ dom (c_dbxml_heap s);
  gb_c_docs : dom (c_docs_heap s') = dom (c_docs_heap s);
}.

(** ** Next *)

Definition started_state (a : N) (i : Docs.t) (s : State) : State :=
  set_go_Docs (<[a := Docs.set_started true i]> (go_Docs s)) s.

(** ** All and Query *)

(** The new iterator [a] once its native cursor [h] is stored in it. *)
Definition with_docs (a h : N) (s : State) : State :=
  set_go_Docs (<[a := Docs.set_docs h Docs.zero]> (go_Docs s)) s.

Definition logged (l : list event) (s : State) : State :=
  set_trace (trace s ++ l) s.

(** ** Open *)

Definition after_new_Db (s : State) : State :=
  mkState _ (world s) (c_dbxml_heap s) (c_docs_heap s) (c_brk s)
    (<[go_brk s := Db.zero]> (go_Db s)) (go_Docs s) (go_brk s + 1) (finalizers s)
    (trace s).

(** The state [Open] returns in when the native open reported an error:
    the handle is released. *)
Definition open_failed (a h : N) (s : State) : State :=
  mkState _ (world s) (delete h (c_dbxml_heap s)) (c_docs_heap s) (c_brk s)
    (<[a := Db.mk false h 0 ∅]> (go_Db s)) (go_Docs s) (go_brk s) (finalizers s)
    (trace s ++ [Enter (F_error h); Enter (F_errstring h); Enter (F_free h)]).

(** The state [Open] returns in when the native open succeeded. *)
Definition open_done (a h : N) (s : State) : State :=
  mkState _ (world s) (c_dbxml_heap s) (c_docs_heap s) (c_brk s)
    (<[a := Db.mk true h 0 ∅]> (go_Db s)) (go_Docs s) (go_brk s)
    ({[a]} ∪ finalizers s) (trace s ++ [Enter (F_error h)]).

(** [later s s']: what is final.  An iterator that is not open in [s] is
    the same in [s'], and a connection that is not open in [s] is not open
    in [s'].  This needs no invariant beyond the allocation marks. *)
Record later (s s' : State) : Prop := mkLater {
  later_heap : heap_ok s → heap_ok s';
  later_Docs : heap_ok s → ∀ a i,
    go_Docs s !! a = Some i → Docs.opened i = false → go_Docs s' !! a = Some i;
  later_Db : heap_ok s → ∀ p d,
    go_Db s !! p = Some d → Db.opened d = false →
    ∃ d', go_Db s' !! p = Some d' ∧ Db.opened d' = false;
}.

(** The counter of no connection is at its last value. *)
Definition no_wrap (s : State) : Prop :=
  ∀ p d, go_Db s !! p = Some d → Db.next d + 1 < uint64_modulus.

(** [steady s s']: from [s] to [s'] the counter of a connection grew by at
    most one, and a new connection starts at 0. *)
Definition steady (s s' : State) : Prop :=
  ∀ p d', go_Db s' !! p = Some d' →
    Db.next d' = 0 ∨ ∃ d, go_Db s !! p = Some d ∧ Db.next d' ≤ Db.next d + 1.

(** After [n] calls no counter is above [n]. *)
Definition bounded (n : nat) (s : State) : Prop :=
  ∀ p d, go_Db s !! p = Some d → Db.next d ≤ N.of_nat n.




(** ** Notions used by the properties *)

(** Is [c] an operation of the connection [db] other than [Close]? *)
Definition operation_on (db : N) (c : call) : bool :=
  match c with
  | Call_PutFile p _ _ | Call_PutXml p _ _ _ | Call_Merge p _ _
  | Call_Remove p _ | Call_Get p _ | Call_Size p | Call_All p
  | Call_Query p _ => bool_decide (p = db)
  | _ => false
  end.

(** The [error] of an answer. *)
Definition error_of (a : answer) : option goerror :=
  match a with
  | A_error e | A_string_error _ e | A_count_error _ e | A_pointer_error _ e => e
  | _ => None
  end.

(** [untouched s s']: nothing native happened from [s] to [s']: no function
    of c_dbxml.h was entered, and the engine and the native heap are the
    same. *)
Definition untouched (s s' : State) : Prop :=
  trace s' = trace s ∧ world s' = world s ∧
  c_dbxml_heap s' = c_dbxml_heap s ∧ c_docs_heap s' = c_docs_heap s.

(** The cursor after the engine's [next] answered [b]. *)
Definition advanced (b : bool) (it' : XmlResults) (doc' : XmlDocument)
    (x : c_dbxml_docs_t.t) : c_dbxml_docs_t.t :=
  c_dbxml_docs_t.mk _ doc' it' (c_dbxml_docs_t.context x) b EmptyString EmptyString.












(** Every [openContainer] among the events was made with [readOnly] set to
    [ro]. *)
Definition opens_in_mode (ro : bool) (l : list event) : Prop :=
  ∀ f cfg t, Lib (L_openContainer f cfg) t ∈ l → readOnly cfg = ro.

(** The state in which [c_dbxml_open], called by [Open], enters its loop:
    the [Db] and the handle are allocated, the entry is logged. *)
Definition open_entry (filename : string) (s : State) : State :=
  mkState _ (world s) (<[c_brk s := c_dbxml_t.new]> (c_dbxml_heap s))
    (c_docs_heap s) (c_brk s + 1) (<[go_brk s := Db.zero]> (go_Db s)) (go_Docs s)
    (go_brk s + 1) (finalizers s) (trace s ++ [Enter (F_open filename)]).

(** The number of open attempts among the events: each attempt starts by
    asking the manager for an update context. *)
Definition starts_attempt (e : event) : bool :=
  match e with Lib L_createUpdateContext _ => true | _ => false end.

Definition attempts (l : list event) : nat :=
  length (List.filter starts_attempt l).

(** How an answer tells the caller of a failure: the [int] is 0, the text is
    the error text, the cursor has nothing more.  A count tells nothing. *)
Definition signalled (r : native_answer) (x : c_dbxml_t.t) (s : State) : Prop :=
  match r with
  | R_int z => z = (if c_dbxml_t.error x then 0 else 1)%Z
  | R_text t =>
      t = if c_dbxml_t.error x then c_dbxml_t.errstring x else c_dbxml_t.result x
  | R_count _ => True
  | R_docs p =>
      ∃ y, c_docs_heap s !! p = Some y ∧
           c_dbxml_docs_t.more y = negb (c_dbxml_t.error x)
  end.

(** The error state an operation leaves in the handle [h] depends on the
    engine calls of this operation only: the flag is set if and only if the
    last of them threw, the string is the text of that exception and empty
    otherwise, and the answer tells the same. *)
Definition error_protocol (op : native_op) (h : N) (r : native_answer)
    (s s' : State) : Prop :=
  ∃ x' l,
    c_dbxml_heap s' !! h = Some x' ∧
    trace s' = (trace s ++ Enter (entry op h) :: l)%list ∧
    c_dbxml_t.error x' = flag_of (last_thrown l) ∧
    c_dbxml_t.errstring x' = default "" (last_thrown l) ∧
    signalled r x' s'.

(** The operations in which every engine call is inside a [try]. *)
Definition catches_all (op : native_op) : bool :=
  match op with
  | Op_merge _ _ | Op_size | Op_get_all => false
  | _ => true
  end.

(** The iterator [a] exists and [Next] has not set its [started]. *)
Definition unstarted (a : N) (s : State) : Prop :=
  ∃ i, go_Docs s !! a = Some i ∧ Docs.started i = false.

(** The calls that return a new iterator. *)
Definition makes_iterator (c : call) : bool :=
  match c with
  | Call_All _ | Call_Query _ _ => true
  | _ => false
  end.

(** ** Notions used by the further properties *)

(** The pointers a call is given are addresses of objects the package
    returned: a [*Db] from [Open], a [*Docs] from [All] or [Query]. *)
Definition allocated (c : call) (s : State) : Prop :=
  match c with
  | Call_Open _ => True
  | Call_Close db | Call_PutFile db _ _ | Call_PutXml db _ _ _
  | Call_Merge db _ _ | Call_Remove db _ | Call_Get db _ | Call_Size db
  | Call_All db | Call_Query db _ => is_Some (go_Db s !! db)
  | Call_Next a | Call_Name a | Call_Content a | Call_DocsClose a =>
      is_Some (go_Docs s !! a)
  end.

(** The calls on whose path every engine call is inside a [try]. *)
Definition guarded (c : call) : bool :=
  match c with
  | Call_Merge _ _ _ | Call_Size _ | Call_All _
  | Call_Next _ | Call_Name _ | Call_Content _ => false
  | _ => true
  end.

(** A run that returns, or stops on an exception no [try] encloses: it
    does not follow a nil or stale pointer, free twice, or run out of
    rounds. *)
Definition safe {A} (r : res A) : Prop :=
  match r with
  | Ok _ _ => True
  | Raise _ _ => False
  | Fault f => ∃ what, f = Uncaught what
  end.

Definition returns {A} (r : res A) : Prop :=
  match r with Ok _ _ => True | _ => False end.

(** The native handle [h] belongs to an open connection. *)
Definition owned (s : State) (h : N) : Prop :=
  ∃ p d, go_Db s !! p = Some d ∧ Db.opened d = true ∧ Db.db d = h.

(** No connection handle is allocated without an open connection that
    holds it. *)
Definition no_leak (s : State) : Prop :=
  ∀ h, is_Some (c_dbxml_heap s !! h) → owned s h.

(** No open iterator holds the native cursor [h]. *)
Definition unowned_cursor (s : State) (h : N) : Prop :=
  ∀ a i, go_Docs s !! a = Some i → Docs.opened i = true → Docs.docs i ≠ h.

(** The cursor [h] is allocated and no open iterator holds it. *)
Definition stray (s : State) (h : N) : Prop :=
  is_Some (c_docs_heap s !! h) ∧ unowned_cursor s h.




(** An iterator refers to a connection exactly while it is open. *)
Definition refers_while_open (s : State) : Prop :=
  ∀ a i, go_Docs s !! a = Some i →
    (Docs.opened i = true ↔ is_Some (Docs.db i)).

End specification.

(** ** States of the toy engine *)

(** The state after the calls [cs], from a start on the disc [Toy.w0]. *)
Definition demo_after (cs : list call) : @State Toy.engine :=
  default (@init Toy.engine Toy.w0) (run_all cs (@init Toy.engine Toy.w0)).

(** A connection just opened on an empty disc: the [Db] is at address 1 and
    its native handle is 1. *)
Definition demo_opened : @State Toy.engine :=
  demo_after [Call_Open "x.dbxml"].

(** The same connection after [Get] of a document that is not there: the
    error flag of its handle is set. *)
Definition demo_failed_get : @State Toy.engine :=
  demo_after [Call_Open "x.dbxml"; Call_Get 1 "nope"].

(** The connection closed. *)
Definition demo_closed : @State Toy.engine :=
  demo_after [Call_Open "x.dbxml"; Call_Close 1].

(** The connection closed, and another one opened after that. *)
Definition demo_reopened : @State Toy.engine :=
  demo_after [Call_Open "x.dbxml"; Call_Close 1; Call_Open "y.dbxml"].

(** One document stored and an iterator over all documents made: the
    [Docs] is at address 2 and its cursor is 2. *)
Definition demo_listing : @State Toy.engine :=
  demo_after [Call_Open "x.dbxml"; Call_PutXml 1 "a" "<a/>" false; Call_All 1].

(** A query that does not parse. *)
Definition demo_bad_query : @State Toy.engine :=
  demo_after [Call_Open "x.dbxml"; Call_Query 1 "//a["].

(** The [Db] of [demo_opened], the [Db] and the [Docs] of [demo_listing],
    the native handle of [demo_opened]. *)
Definition demo_Db : Db.t := Db.mk true 1 0 ∅.
Definition demo_Db_listing : Db.t := Db.mk true 1 1 {[0 := 2]}.
Definition demo_Docs : Docs.t := Docs.mk (Some 1) 0 false true 2.
Definition demo_handle : @c_dbxml_t.t Toy.engine :=
  @c_dbxml_t.mk Toy.engine tt tt ("x.dbxml", false) default_config false "" "".

(** One document stored. *)
Definition demo_stored : @State Toy.engine :=
  demo_after [Call_Open "x.dbxml"; Call_PutXml 1 "a" "<a/>" false].

(** The iterator of [demo_listing] advanced to the document. *)
Definition demo_advanced : @State Toy.engine :=
  demo_after [Call_Open "x.dbxml"; Call_PutXml 1 "a" "<a/>" false; Call_All 1;
              Call_Next 2].

(** The iterator of [demo_advanced]. *)
Definition demo_Docs_advanced : Docs.t := Docs.mk (Some 1) 0 true true 2.

(** The failed query of [demo_bad_query], then its iterator and the
    connection closed. *)
Definition demo_bad_query_closed : @State Toy.engine :=
  demo_after [Call_Open "x.dbxml"; Call_Query 1 "//a["; Call_DocsClose 2;
              Call_Close 1].

(** A container with one document, and a second connection, at address 2
    with handle 2, to merge it into. *)
Definition demo_two : @State Toy.engine :=
  demo_after [Call_Open "src.dbxml"; Call_PutXml 1 "a" "<a/>" false;
              Call_Open "x.dbxml"].



(** The second connection of [demo_two] closed. *)
Definition demo_two_closed : @State Toy.engine :=
  demo_after [Call_Open "src.dbxml"; Call_PutXml 1 "a" "<a/>" false;
              Call_Open "x.dbxml"; Call_Close 2].

Section lemmas_1.
Context `{E : DbXml}.

Lemma post_ret {A} (a : A) s Q X : Q a s → post (mret a) s Q X.
Proof. done. Qed.

Lemma post_bind {A B} (m : M A) (f : A → M B) s Q X :
  post m s (λ a s', post (f a) s' Q X) X → post (m ≫= f) s Q X.
Proof.
  unfold post, mbind, M_bind. by destruct (m s).
Qed.

Lemma post_try_catch {A} (body : M A) handler s Q X :
  post body s Q (λ what s', post (handler what) s' Q X) →
  post (try_catch body handler) s Q X.
Proof. unfold post, try_catch. by destruct (body s). Qed.

Lemma post_extern_C {A} f (body : M A) s Q X :
  post body (set_trace (trace s ++ [Enter f]) s) Q (λ _ _, True) →
  post (extern_C f body) s Q X.
Proof.
  unfold post, extern_C.
  by destruct (body (set_trace (trace s ++ [Enter f]) s)).
Qed.

Lemma post_mono {A} (m : M A) s (Q Q' : A → State → Prop) (X X' : string → State → Prop) :
  post m s Q X →
  (∀ a s', Q a s' → Q' a s') → (∀ w s', X w s' → X' w s') →
  post m s Q' X'.
Proof. unfold post. destruct (m s); auto. Qed.

Lemma post_Ok {A} (m : M A) s a s' Q X : post m s Q X → m s = Ok a s' → Q a s'.
Proof. unfold post. intros HQ Hm. by rewrite Hm in HQ. Qed.

Lemma keeps_ret R `{!Reflexive R} {A} (a : A) : keeps R (mret a).
Proof. intros s. apply post_ret. reflexivity. Qed.

Lemma keeps_panic R {A} f : keeps R (panic (A:=A) f).
Proof. by intros s. Qed.

Lemma keeps_bind R `{!Transitive R} {A B} (m : M A) (f : A → M B) :
  keeps R m → (∀ a, keeps R (f a)) → keeps R (m ≫= f).
Proof.
  intros Hm Hf s. apply post_bind.
  eapply post_mono; [apply Hm | |]; simpl.
  - intros a s' Hs. eapply post_mono; [apply Hf | |]; simpl; intros; by etrans.
  - done.
Qed.

Lemma keeps_try_catch R `{!Transitive R} {A} (body : M A) handler :
  keeps R body → (∀ what, keeps R (handler what)) → keeps R (try_catch body handler).
Proof.
  intros Hm Hf s. apply post_try_catch.
  eapply post_mono; [apply Hm | |]; simpl.
  - done.
  - intros a s' Hs. eapply post_mono; [apply Hf | |]; simpl; intros; by etrans.
Qed.

Lemma keeps_extern_C R `{!Transitive R} {A} f (body : M A) :
  (∀ s, R s (set_trace (trace s ++ [Enter f]) s)) →
  keeps R body → keeps R (extern_C f body).
Proof.
  intros Hlog Hm s. apply post_extern_C.
  eapply post_mono; [apply Hm | |]; simpl; [|done].
  intros a s' Hs. etrans; [apply Hlog | exact Hs].
Qed.

Lemma keeps_if R {A} (b : bool) (m1 m2 : M A) :
  keeps R m1 → keeps R m2 → keeps R (if b then m1 else m2).
Proof. by destruct b. Qed.

#[global] Instance shape_refl : Reflexive shape.
Proof. by intros s; split. Qed.

#[global] Instance shape_trans : Transitive shape.
Proof.
  intros s1 s2 s3 [] []; split; congruence.
Qed.

Lemma shape_log s e : shape s (set_trace (trace s ++ [e]) s).
Proof. by split. Qed.

Lemma keeps_shape_log e : keeps shape (log e).
Proof. intros s. apply shape_log. Qed.

Lemma keeps_shape_lib {A} l (f : World → exc A * World) : keeps shape (lib l f).
Proof.
  intros s. unfold post, lib. destruct (f (world s)) as [[a|what] w]; by split.
Qed.

Lemma keeps_shape_deref db : keeps shape (deref db).
Proof. intros s. unfold post, deref. by destruct (c_dbxml_heap s !! db). Qed.

Lemma keeps_shape_assign db f : keeps shape (assign db f).
Proof.
  intros s. unfold post, assign.
  destruct (c_dbxml_heap s !! db) as [d|] eqn:Hd; [|done].
  split; simpl; try done.
  apply dom_insert_lookup_L; eauto.
Qed.

Lemma keeps_shape_deref_docs docs : keeps shape (deref_docs docs).
Proof. intros s. unfold post, deref_docs. by destruct (c_docs_heap s !! docs). Qed.

Lemma keeps_shape_assign_docs docs f : keeps shape (assign_docs docs f).
Proof.
  intros s. unfold post, assign_docs.
  destruct (c_docs_heap s !! docs) as [d|] eqn:Hd; [|done].
  split; simpl; try done.
  apply dom_insert_lookup_L; eauto.
Qed.

Lemma keeps_shape_load_Db p : keeps shape (load_Db p).
Proof. intros s. unfold post, load_Db. by destruct (go_Db s !! p). Qed.

Lemma keeps_shape_load_Docs p : keeps shape (load_Docs p).
Proof. intros s. unfold post, load_Docs. by destruct (go_Docs s !! p). Qed.

End lemmas_1.

Create HintDb keeps.
#[global] Hint Resolve keeps_shape_log keeps_shape_lib
  keeps_shape_deref keeps_shape_assign keeps_shape_deref_docs
  keeps_shape_assign_docs keeps_shape_load_Db keeps_shape_load_Docs
  shape_log : keeps.

(** Walks through a run built from the combinators. *)
Ltac keeps_step :=
  lazymatch goal with
  | |- keeps _ (mbind _ _) => apply keeps_bind; [try apply _ .. | | intros ?]
  | |- keeps _ (try_catch _ _) => apply keeps_try_catch; [try apply _ .. | | intros ?]
  | |- keeps _ (extern_C _ _) => apply keeps_extern_C; [try apply _ .. | | ]
  | |- keeps _ (mret _) => apply keeps_ret; apply _
  | |- keeps _ (panic _) => apply keeps_panic
  | |- keeps _ (if ?b then _ else _) => first [apply keeps_if | destruct b]
  | |- keeps _ (match ?x with _ => _ end) => destruct x
  | |- keeps _ (let '(_, _) := ?x in _) => destruct x
  | |- _ => solve [eauto with keeps]
  end.
Ltac keeps_auto := repeat keeps_step.

Section lemmas_2.
Context `{E : DbXml}.

Lemma keeps_shape_report db what : keeps shape (report db what).
Proof. unfold report. keeps_auto. Qed.

Lemma keeps_shape_clear_error db : keeps shape (clear_error db).
Proof. unfold clear_error. keeps_auto. Qed.

Lemma keeps_shape_c_dbxml_error db : keeps shape (c_dbxml_error db).
Proof. unfold c_dbxml_error. keeps_auto. Qed.

Lemma keeps_shape_c_dbxml_errstring db : keeps shape (c_dbxml_errstring db).
Proof. unfold c_dbxml_errstring. keeps_auto. Qed.

Lemma keeps_shape_c_dbxml_put_file db f r : keeps shape (c_dbxml_put_file db f r).
Proof. unfold c_dbxml_put_file, report, clear_error. keeps_auto. Qed.

Lemma keeps_shape_c_dbxml_put_xml db n x r : keeps shape (c_dbxml_put_xml db n x r).
Proof. unfold c_dbxml_put_xml, report, clear_error. keeps_auto. Qed.

Lemma keeps_shape_merge_loop fuel db r it doc : keeps shape (merge_loop fuel db r it doc).
Proof.
  revert it doc. induction fuel as [|fuel IH]; intros it doc; simpl.
  - keeps_auto.
  - unfold report. keeps_auto.
Qed.

Lemma keeps_shape_c_dbxml_merge db f r : keeps shape (c_dbxml_merge db f r).
Proof.
  unfold c_dbxml_merge, clear_error. keeps_auto. apply keeps_shape_merge_loop.
Qed.

Lemma keeps_shape_c_dbxml_remove db f : keeps shape (c_dbxml_remove db f).
Proof. unfold c_dbxml_remove, report, clear_error. keeps_auto. Qed.

Lemma keeps_shape_c_dbxml_get db f : keeps shape (c_dbxml_get db f).
Proof. unfold c_dbxml_get, clear_error. keeps_auto. Qed.

Lemma keeps_shape_c_dbxml_size db : keeps shape (c_dbxml_size db).
Proof. unfold c_dbxml_size. keeps_auto. Qed.

Lemma keeps_shape_c_dbxml_docs_next docs : keeps shape (c_dbxml_docs_next docs).
Proof. unfold c_dbxml_docs_next. keeps_auto. Qed.

Lemma keeps_shape_c_dbxml_docs_name docs : keeps shape (c_dbxml_docs_name docs).
Proof. unfold c_dbxml_docs_name. keeps_auto. Qed.

Lemma keeps_shape_c_dbxml_docs_content docs : keeps shape (c_dbxml_docs_content docs).
Proof. unfold c_dbxml_docs_content. keeps_auto. Qed.

Lemma heap_ok_init w : heap_ok (init w).
Proof. split; intros; apply lookup_empty. Qed.

Lemma Inv_init w : Inv (init w).
Proof.
  split; try apply heap_ok_init; simpl; intros *; rewrite ?lookup_empty; done.
Qed.

Lemma heap_ok_shape s s' : shape s s' → heap_ok s → heap_ok s'.
Proof.
  intros [S1 S2 S3 S4 S5 S6 S7] [F1 F2 F3 F4]. split; intros x Hx.
  - rewrite S1. apply F1. congruence.
  - rewrite S2. apply F2. congruence.
  - apply not_elem_of_dom. rewrite S6. apply not_elem_of_dom.
    apply F3. congruence.
  - apply not_elem_of_dom. rewrite S7. apply not_elem_of_dom.
    apply F4. congruence.
Qed.

Lemma Inv_shape s s' : shape s s' → Inv s → Inv s'.
Proof.
  intros Hsh HI. pose proof Hsh as [S1 S2 S3 S4 S5 S6 S7].
  destruct HI as [I1 I2 I3 I4 I5 I6 I7 I8 I9]. split.
  - by eapply heap_ok_shape.
  - rewrite S1. intros p d Hp Ho.
    apply elem_of_dom. rewrite S6. apply elem_of_dom. eauto.
  - rewrite S1. eauto.
  - rewrite S1. eauto.
  - rewrite S1. eauto.
  - rewrite S1, S2. eauto.
  - rewrite S1, S2. intros a i Ha Ho.
    destruct (I7 a i Ha Ho) as [Hc Hr]. split; [|done].
    apply elem_of_dom. rewrite S7. by apply elem_of_dom.
  - rewrite S2. eauto.
  - rewrite S3, S4. eauto.
Qed.

Lemma Docs_close_closed a i s :
  go_Docs s !! a = Some i → Docs.opened i = false → Docs_close a s = Ok tt s.
Proof.
  intros Ha Ho. unfold Docs_close, mbind, M_bind, load_Docs.
  by rewrite Ha, Ho.
Qed.

Lemma Docs_close_open a i p o s :
  go_Docs s !! a = Some i → Docs.opened i = true → Docs.db i = Some p →
  go_Db s !! p = Some o → is_Some (c_docs_heap s !! Docs.docs i) →
  Docs_close a s = Ok tt (after_close a i p o s).
Proof.
  intros Ha Ho Hp Hd [x Hx].
  unfold Docs_close, mbind, M_bind, load_Docs, c_dbxml_docs_free, extern_C,
    delete_c_dbxml_docs_t, store_Docs, store_Db, follow.
  rewrite Ha, Ho. simpl. rewrite Hx. simpl. rewrite Ha. simpl.
  rewrite lookup_insert_eq. simpl. rewrite Hp. simpl. rewrite Hd. simpl.
  rewrite lookup_insert_eq. simpl.
  unfold after_close, set_go_Docs, set_go_Db; simpl.
  by rewrite insert_insert_eq.
Qed.

Lemma go_Db_below s p d : heap_ok s → go_Db s !! p = Some d → p < go_brk s.
Proof.
  intros H Hp. destruct (N.lt_ge_cases p (go_brk s)) as [|Hge]; [done|].
  apply (go_Db_fresh _ H) in Hge. congruence.
Qed.

Lemma go_Docs_below s p d : heap_ok s → go_Docs s !! p = Some d → p < go_brk s.
Proof.
  intros H Hp. destruct (N.lt_ge_cases p (go_brk s)) as [|Hge]; [done|].
  apply (go_Docs_fresh _ H) in Hge. congruence.
Qed.

Lemma c_dbxml_below s h : heap_ok s → is_Some (c_dbxml_heap s !! h) → h < c_brk s.
Proof.
  intros H [x Hp]. destruct (N.lt_ge_cases h (c_brk s)) as [|Hge]; [done|].
  apply (c_dbxml_fresh _ H) in Hge. congruence.
Qed.

Lemma c_docs_below s h : heap_ok s → is_Some (c_docs_heap s !! h) → h < c_brk s.
Proof.
  intros H [x Hp]. destruct (N.lt_ge_cases h (c_brk s)) as [|Hge]; [done|].
  apply (c_docs_fresh _ H) in Hge. congruence.
Qed.

(** What the invariant says of an open iterator, in one step. *)
Lemma Inv_owner s a i :
  Inv s → go_Docs s !! a = Some i → Docs.opened i = true →
  ∃ p o, Docs.db i = Some p ∧ go_Db s !! p = Some o ∧
         Db.docss o !! Docs.id i = Some a ∧ Db.opened o = true ∧
         is_Some (c_docs_heap s !! Docs.docs i).
Proof.
  intros HI Ha Ho. destruct (inv_open _ HI a i Ha Ho) as (Hc & p & o & Hp & Hd & Hk).
  exists p, o. repeat split; try done.
  destruct (Db.opened o) eqn:Hop; [done|].
  rewrite (inv_closed _ HI p o Hd Hop) in Hk. by rewrite lookup_empty in Hk.
Qed.

Lemma Inv_after_close s a i p o :
  Inv s → go_Docs s !! a = Some i → Docs.opened i = true →
  Docs.db i = Some p → go_Db s !! p = Some o →
  Inv (after_close a i p o s).
Proof.
  intros HI Ha Ho Hp Hd.
  destruct (Inv_owner s a i HI Ha Ho) as (p' & o' & Hp' & Hd' & Hk & Hop & Hc).
  assert (p' = p) as -> by congruence. assert (o' = o) as -> by congruence.
  split; simpl.
  - destruct (inv_heap _ HI) as [F1 F2 F3 F4]. split; simpl; intros x Hx.
    + rewrite lookup_insert_ne; [eauto|].
      intros ->. rewrite F1 in Hd; done.
    + rewrite lookup_insert_ne; [eauto|].
      intros ->. rewrite F2 in Ha; done.
    + eauto.
    + rewrite lookup_delete_None. eauto.
  - intros q d Hq Hod. destruct (decide (q = p)) as [->|Hne].
    + rewrite lookup_insert_eq in Hq. injection Hq as <-. simpl in *.
      eapply inv_handle; eauto.
    + rewrite lookup_insert_ne in Hq by done. eapply inv_handle; eauto.
  - intros q q' d e Hq Hq' Hod Hoe Heq.
    assert (∀ r x, <[p:=unfiled i o]> (go_Db s) !! r = Some x →
              ∃ y, go_Db s !! r = Some y ∧ Db.opened y = Db.opened x ∧
                   Db.db y = Db.db x) as Hback.
    { intros r x. destruct (decide (r = p)) as [->|Hne].
      - rewrite lookup_insert_eq. intros [= <-]. by exists o.
      - rewrite lookup_insert_ne by done. intros. by exists x. }
    destruct (Hback _ _ Hq) as (y & Hy & Hy1 & Hy2).
    destruct (Hback _ _ Hq') as (y' & Hy' & Hy1' & Hy2').
    eapply (inv_handle_inj _ HI q q' y y'); congruence.
  - intros q d Hq Hod. destruct (decide (q = p)) as [->|Hne].
    + rewrite lookup_insert_eq in Hq. injection Hq as <-. simpl in *. congruence.
    + rewrite lookup_insert_ne in Hq by done. eapply inv_closed; eauto.
  - intros q d Hq. destruct (decide (q = p)) as [->|Hne].
    + rewrite lookup_insert_eq in Hq. injection Hq as <-. simpl.
      eapply inv_next; eauto.
    + rewrite lookup_insert_ne in Hq by done. eapply inv_next; eauto.
  - intros q d k b Hq Hb. destruct (decide (q = p)) as [->|Hne].
    + rewrite lookup_insert_eq in Hq. injection Hq as <-. simpl in *.
      apply lookup_delete_Some in Hb as [Hk' Hb].
      destruct (inv_child _ HI p o k b Hd Hb) as (Hlt & j & Hj & Hoj & Hpj & Hkj).
      split; [done|]. exists j. repeat split; try done.
      rewrite lookup_insert_ne; [done|]. intros ->. congruence.
    + rewrite lookup_insert_ne in Hq by done.
      destruct (inv_child _ HI q d k b Hq Hb) as (Hlt & j & Hj & Hoj & Hpj & Hkj).
      split; [done|]. exists j. repeat split; try done.
      rewrite lookup_insert_ne; [done|]. intros ->. congruence.
  - intros b j Hb Hoj. destruct (decide (b = a)) as [->|Hne].
    { rewrite lookup_insert_eq in Hb. by injection Hb as <-. }
    rewrite lookup_insert_ne in Hb by done.
    destruct (Inv_owner s b j HI Hb Hoj) as (q & e & Hq & He & Hkj & Hoe & Hcj).
    split.
    + rewrite lookup_delete_ne; [done|]. intros Heq.
      apply Hne. symmetry. eapply (inv_cursor_inj _ HI a b i j); eauto.
    + destruct (decide (q = p)) as [->|Hqp].
      * exists p, (unfiled i o). rewrite lookup_insert_eq. repeat split; try done.
        simpl. assert (e = o) as -> by congruence.
        rewrite lookup_delete_ne; [done|]. intros Heq. rewrite Heq in Hk.
        congruence.
      * exists q, e. rewrite lookup_insert_ne by done. done.
  - intros b c j l Hb Hc' Hoj Hol Heq.
    assert (∀ r x, <[a:=closed_Docs i]> (go_Docs s) !! r = Some x →
              Docs.opened x = true → go_Docs s !! r = Some x) as Hback.
    { intros r x. destruct (decide (r = a)) as [->|Hne].
      - rewrite lookup_insert_eq. by intros [= <-].
      - by rewrite lookup_insert_ne by done. }
    eapply (inv_cursor_inj _ HI b c j l); eauto.
  - apply (inv_finalizers _ HI).
Qed.

(** Closing an iterator, whatever its state, returns and keeps the
    invariant. *)
Lemma Docs_close_Inv s a i :
  Inv s → go_Docs s !! a = Some i →
  ∃ s', Docs_close a s = Ok tt s' ∧ Inv s'.
Proof.
  intros HI Ha. destruct (Docs.opened i) eqn:Ho.
  - destruct (Inv_owner s a i HI Ha Ho) as (p & o & Hp & Hd & Hk & Hop & Hc).
    exists (after_close a i p o s). split.
    + by apply Docs_close_open.
    + by apply Inv_after_close.
  - exists s. split; [|done]. by eapply Docs_close_closed.
Qed.

Lemma child_cursors_frame s s' m m' id n :
  (∀ k, id ≤ k → m' !! k = m !! k) →
  (∀ k a, id ≤ k → m !! k = Some a → go_Docs s' !! a = go_Docs s !! a) →
  child_cursors s' m' id n = child_cursors s m id n.
Proof.
  revert id. induction n as [|n IH]; intros id Hm Hs; simpl; [done|].
  rewrite (Hm id) by lia. f_equal.
  - destruct (m !! id) as [a|] eqn:Ha; [|done].
    by rewrite (Hs id a) by (done || lia).
  - apply IH.
    + intros k Hk. apply Hm. lia.
    + intros k a Hk Ha. apply (Hs k a); [lia | done].
Qed.

Lemma after_loop_nil p d s :
  Inv s → go_Db s !! p = Some d → Db.docss d = ∅ → after_loop p d [] s = s.
Proof.
  intros HI Hd Hm. destruct s as [w ch cd cb gd gdo gb fin tr].
  unfold after_loop; simpl in *. f_equal.
  - apply insert_id. rewrite Hd. f_equal. destruct d; simpl in *; congruence.
  - apply map_eq. intros a. rewrite lookup_fmap.
    destruct (gdo !! a) as [i|] eqn:Ha; simpl; [|done]. f_equal.
    unfold close_of. destruct (Docs.opened i) eqn:Ho; [|done]. simpl.
    case_bool_decide as Hp; [|done].
    destruct (inv_open _ HI a i Ha Ho) as (_ & q & e & Hq & He & Hk).
    simpl in *. assert (q = p) as -> by congruence.
    assert (e = d) as -> by congruence.
    rewrite Hm in Hk. by rewrite lookup_empty in Hk.
  - by rewrite app_nil_r.
Qed.

Lemma uint64_incr_small n : n + 1 < uint64_modulus → uint64_incr n = n + 1.
Proof. intros. unfold uint64_incr. by apply N.mod_small. Qed.

Lemma Close_loop_spec fuel : ∀ id s p d,
  Inv s → go_Db s !! p = Some d →
  id ≤ Db.next d → (N.to_nat (Db.next d - id) ≤ fuel)%nat →
  (∀ k, is_Some (Db.docss d !! k) → id ≤ k) →
  Close_loop fuel p id s =
    Ok tt (after_loop p d
             (child_cursors s (Db.docss d) id (N.to_nat (Db.next d - id))) s) ∧
  Inv (after_loop p d
         (child_cursors s (Db.docss d) id (N.to_nat (Db.next d - id))) s).
Proof.
  assert (∀ fuel id s p d, Db.next d ≤ id →
    Inv s → go_Db s !! p = Some d → id ≤ Db.next d →
    (∀ k, is_Some (Db.docss d !! k) → id ≤ k) →
    Close_loop fuel p id s = Ok tt s ∧
    child_cursors s (Db.docss d) id (N.to_nat (Db.next d - id)) = [] ∧
    Db.docss d = ∅) as Hdone.
  { intros fuel' id s p d Hge HI Hd Hle Hkeys.
    assert (id = Db.next d) as -> by lia.
    split; [|split].
    - destruct fuel'; simpl; unfold mbind, M_bind, load_Db; rewrite Hd;
        simpl; by rewrite N.ltb_irrefl.
    - by rewrite N.sub_diag.
    - apply map_empty. intros k. destruct (Db.docss d !! k) as [a|] eqn:Hk; [|done].
      destruct (inv_child _ HI p d k a Hd Hk) as [Hlt _].
      specialize (Hkeys k (mk_is_Some _ _ Hk)). lia. }
  induction fuel as [|fuel IH]; intros id s p d HI Hd Hle Hfuel Hkeys.
  - destruct (Hdone 0%nat id s p d) as (H1 & H2 & H3); try done; [lia|].
    rewrite H2, after_loop_nil by done. done.
  - destruct (N.lt_ge_cases id (Db.next d)) as [Hlt|Hge]; cycle 1.
    { destruct (Hdone (S fuel) id s p d) as (H1 & H2 & H3); try done.
      rewrite H2, after_loop_nil by done. done. }
    pose proof (inv_next _ HI p d Hd) as Hmax.
    assert (N.to_nat (Db.next d - id) = S (N.to_nat (Db.next d - (id + 1))))
      as Hn by lia.
    rewrite Hn.
    cbn [Close_loop child_cursors]. unfold mbind at 1, M_bind at 1, load_Db at 1.
    rewrite Hd. apply N.ltb_lt in Hlt as Hlt'. rewrite Hlt'.
    rewrite uint64_incr_small by lia.
    destruct (Db.docss d !! id) as [a|] eqn:Ha.
    + destruct (inv_child _ HI p d id a Hd Ha) as (_ & i & Hi & Ho & Hp & Hid).
      destruct (Inv_owner s a i HI Hi Ho) as (p' & o' & Hp' & Hd' & Hk & Hop & Hc).
      unfold mbind at 1, M_bind at 1, Docs_Close.
      rewrite (Docs_close_open a i p d s) by done.
      pose proof (Inv_after_close s a i p d HI Hi Ho Hp Hd) as HI1.
      set (s1 := after_close a i p d s) in *.
      assert (go_Db s1 !! p = Some (unfiled i d)) as Hd1
        by (unfold s1; simpl; apply lookup_insert_eq).
      destruct (IH (id + 1) s1 p (unfiled i d) HI1 Hd1) as [Hrun HI'].
      { simpl. lia. }
      { simpl. lia. }
      { simpl. intros k [b Hb]. rewrite Hid in Hb.
        apply lookup_delete_Some in Hb as [Hne Hb].
        specialize (Hkeys k (mk_is_Some _ _ Hb)). lia. }
      rewrite Hi. simpl in Hrun, HI'.
      assert (child_cursors s1 (delete (Docs.id i) (Db.docss d)) (id + 1)
                (N.to_nat (Db.next d - (id + 1))) =
              child_cursors s (Db.docss d) (id + 1)
                (N.to_nat (Db.next d - (id + 1)))) as Hcs.
      { apply child_cursors_frame.
        - intros k Hk'. apply lookup_delete_ne. lia.
        - intros k b Hk' Hb. unfold s1; simpl. apply lookup_insert_ne.
          intros <-. destruct (inv_child _ HI p d k a Hd Hb) as (_ & j & Hj & _ & _ & Hjk).
          assert (j = i) as -> by congruence. lia. }
      rewrite Hcs in Hrun, HI'.
      set (cs := child_cursors s (Db.docss d) (id + 1)
                   (N.to_nat (Db.next d - (id + 1)))) in *.
      assert (after_loop p (unfiled i d) cs s1 =
              after_loop p d ([Docs.docs i] ++ cs) s) as Heq.
      { unfold after_loop, s1, after_close; simpl. f_equal.
        - by rewrite insert_insert_eq.
        - rewrite fmap_insert. apply insert_id. rewrite lookup_fmap, Hi. simpl.
          f_equal. unfold close_of. simpl. rewrite Ho, Hp. simpl.
          by rewrite bool_decide_eq_true_2.
        - by rewrite <- app_assoc. }
      rewrite Heq in Hrun, HI'. done.
    + unfold mbind at 1, M_bind at 1. cbn [mret M_ret].
      destruct (IH (id + 1) s p d HI Hd) as [Hrun HI']; try lia.
      { intros k Hk. specialize (Hkeys k Hk).
        destruct (decide (k = id)) as [->|]; [|lia].
        rewrite Ha in Hk. by destruct Hk. }
      done.
Qed.

Lemma Db_Close_closed p d s :
  go_Db s !! p = Some d → Db.opened d = false → Db_Close p s = Ok tt s.
Proof.
  intros Hd Ho. unfold Db_Close, mbind, M_bind, load_Db. by rewrite Hd, Ho.
Qed.

Lemma Inv_mark_closed s p d tr :
  Inv s → go_Db s !! p = Some d → Db.opened d = true → Db.docss d = ∅ →
  Inv (mkState _ (world s) (delete (Db.db d) (c_dbxml_heap s)) (c_docs_heap s)
         (c_brk s) (<[p := Db.set_opened false d]> (go_Db s)) (go_Docs s)
         (go_brk s) (finalizers s) tr).
Proof.
  intros HI Hd Ho Hm.
  assert (∀ q e, <[p := Db.set_opened false d]> (go_Db s) !! q = Some e →
            Db.opened e = true → q ≠ p ∧ go_Db s !! q = Some e) as Hback.
  { intros q e. destruct (decide (q = p)) as [->|Hne].
    - rewrite lookup_insert_eq. by intros [= <-].
    - by rewrite lookup_insert_ne by done. }
  split; simpl.
  - destruct (inv_heap _ HI) as [F1 F2 F3 F4]. split; simpl; intros x Hx; eauto.
    + rewrite lookup_insert_ne; [eauto|]. intros ->. rewrite F1 in Hd; done.
    + rewrite lookup_delete_None. eauto.
  - intros q e Hq Hoe. destruct (Hback q e Hq Hoe) as [Hne Hq'].
    rewrite lookup_delete_ne; [exact (inv_handle _ HI q e Hq' Hoe)|].
    intros Heq. apply Hne. symmetry.
    exact (inv_handle_inj _ HI p q d e Hd Hq' Ho Hoe Heq).
  - intros q q' e e' Hq Hq' Hoe Hoe' Heq.
    destruct (Hback q e Hq Hoe) as [_ ?]. destruct (Hback q' e' Hq' Hoe') as [_ ?].
    eapply (inv_handle_inj _ HI q q' e e'); eassumption.
  - intros q e Hq Hoe. destruct (decide (q = p)) as [->|Hne].
    + rewrite lookup_insert_eq in Hq. by injection Hq as <-.
    + rewrite lookup_insert_ne in Hq by done. exact (inv_closed _ HI q e Hq Hoe).
  - intros q e Hq. destruct (decide (q = p)) as [->|Hne].
    + rewrite lookup_insert_eq in Hq. injection Hq as <-.
      exact (inv_next _ HI p d Hd).
    + rewrite lookup_insert_ne in Hq by done. exact (inv_next _ HI q e Hq).
  - intros q e k a Hq Ha. destruct (decide (q = p)) as [->|Hne].
    + rewrite lookup_insert_eq in Hq. injection Hq as <-. simpl in Ha.
      rewrite Hm in Ha. by rewrite lookup_empty in Ha.
    + rewrite lookup_insert_ne in Hq by done. exact (inv_child _ HI q e k a Hq Ha).
  - intros a i Ha Hoi.
    destruct (Inv_owner s a i HI Ha Hoi) as (q & e & Hq & He & Hk & Hoe & Hc).
    split; [done|]. exists q, e. repeat split; try done.
    rewrite lookup_insert_ne; [done|]. intros <-.
    assert (e = d) as -> by congruence. rewrite Hm in Hk.
    by rewrite lookup_empty in Hk.
  - apply (inv_cursor_inj _ HI).
  - apply (inv_finalizers _ HI).
Qed.

Lemma Db_Close_open p d s :
  Inv s → go_Db s !! p = Some d → Db.opened d = true →
  Db_Close p s = Ok tt (after_Db_Close p d s) ∧ Inv (after_Db_Close p d s).
Proof.
  intros HI Hd Ho.
  destruct (Close_loop_spec (N.to_nat (Db.next d)) 0 s p d HI Hd) as [Hrun HI1].
  { lia. } { lia. } { intros; lia. }
  rewrite N.sub_0_r in Hrun, HI1. fold (cursors_of s d) in Hrun, HI1.
  set (s1 := after_loop p d (cursors_of s d) s) in *.
  assert (go_Db s1 !! p = Some (Db.mk (Db.opened d) (Db.db d) (Db.next d) ∅)) as Hd1
    by (unfold s1; simpl; apply lookup_insert_eq).
  pose proof (inv_handle _ HI1 p _ Hd1 Ho) as [x Hx]. simpl in Hx.
  pose proof (Inv_mark_closed s1 p _
                (trace s1 ++ [Enter (F_free (Db.db d))]) HI1 Hd1 Ho eq_refl) as HI2.
  assert (Db_Close p s = Ok tt (after_Db_Close p d s)) as Hclose.
  { unfold Db_Close, mbind at 1, M_bind at 1, load_Db at 1. rewrite Hd, Ho.
    unfold mbind at 1, M_bind at 1. rewrite Hrun.
    unfold mbind, M_bind, load_Db, c_dbxml_free, extern_C, delete_c_dbxml_t,
      store_Db.
    rewrite Hd1. simpl. rewrite Hx. simpl.
    rewrite lookup_insert_eq. unfold after_Db_Close, set_go_Db. simpl.
    rewrite insert_insert_eq, <- app_assoc. done. }
  split; [done|].
  unfold after_Db_Close. unfold s1 in HI2. simpl in HI2.
  rewrite insert_insert_eq, <- app_assoc in HI2. exact HI2.
Qed.

Lemma new_Docs_run s : new_Docs s = Ok (go_brk s) (after_new_Docs s).
Proof. done. Qed.

(** Writing a record of an iterator that is not open over one that is not
    open, or at an unused address, keeps the invariant: the invariant says
    nothing of such iterators. *)
Lemma Inv_store_closed s a i brk fin tr :
  Inv s → Docs.opened i = false →
  (∀ j, go_Docs s !! a = Some j → Docs.opened j = false) →
  go_brk s ≤ brk → a < brk → (∀ p, p ∈ fin → p < brk) →
  Inv (mkState _ (world s) (c_dbxml_heap s) (c_docs_heap s) (c_brk s) (go_Db s)
         (<[a := i]> (go_Docs s)) brk fin tr).
Proof.
  intros HI Hi Hold Hbrk Ha Hfin.
  assert (∀ b j, <[a := i]> (go_Docs s) !! b = Some j → Docs.opened j = true →
            b ≠ a ∧ go_Docs s !! b = Some j) as Hback.
  { intros b j. destruct (decide (b = a)) as [->|Hne].
    - rewrite lookup_insert_eq. intros [= <-]. congruence.
    - by rewrite lookup_insert_ne by done. }
  split; simpl.
  - destruct (inv_heap _ HI) as [F1 F2 F3 F4]. split; simpl; intros x Hx; eauto.
    + apply F1. lia.
    + rewrite lookup_insert_ne by lia. apply F2. lia.
  - apply (inv_handle _ HI).
  - apply (inv_handle_inj _ HI).
  - apply (inv_closed _ HI).
  - apply (inv_next _ HI).
  - intros p d k b Hp Hb.
    destruct (inv_child _ HI p d k b Hp Hb) as (Hlt & j & Hj & Hoj & Hpj & Hkj).
    split; [done|]. exists j. repeat split; try done.
    rewrite lookup_insert_ne; [done|]. intros <-.
    specialize (Hold j Hj). congruence.
  - intros b j Hb Hoj. destruct (Hback b j Hb Hoj) as [Hne Hb'].
    exact (inv_open _ HI b j Hb' Hoj).
  - intros b c j l Hb Hc Hoj Hol Heq.
    destruct (Hback b j Hb Hoj) as [_ Hb']. destruct (Hback c l Hc Hol) as [_ Hc'].
    exact (inv_cursor_inj _ HI b c j l Hb' Hc' Hoj Hol Heq).
  - exact Hfin.
Qed.

Lemma Inv_new_Docs s : Inv s → Inv (after_new_Docs s).
Proof.
  intros HI. unfold after_new_Docs. apply Inv_store_closed; try done; try lia.
  - intros j Hj. rewrite (go_Docs_fresh _ (inv_heap _ HI)) in Hj; [done|lia].
  - intros p Hp. pose proof (inv_finalizers _ HI p Hp). lia.
Qed.

Lemma register_run db d a i s :
  go_Db s !! db = Some d → go_Docs s !! a = Some i →
  register db a s = Ok tt (after_register db d a i s).
Proof.
  intros Hd Hi.
  unfold register, mbind, M_bind, store_Docs, load_Db, store_Db, load_Docs,
    SetFinalizer.
  rewrite Hi. simpl. rewrite Hd. simpl. rewrite lookup_insert_eq. simpl.
  rewrite Hd. simpl. rewrite lookup_insert_eq. simpl.
  rewrite !lookup_insert_eq. simpl.
  unfold after_register, set_go_Docs, set_go_Db, set_finalizers; simpl.
  rewrite !lookup_insert_eq, !insert_insert_eq. done.
Qed.

Lemma Inv_after_register db d a i s :
  Inv s → go_Db s !! db = Some d → Db.opened d = true →
  go_Docs s !! a = Some i → Docs.opened i = false →
  is_Some (c_docs_heap s !! Docs.docs i) →
  (∀ b j, go_Docs s !! b = Some j → Docs.opened j = true →
          Docs.docs j ≠ Docs.docs i) →
  Db.next d + 1 < uint64_modulus →
  Inv (after_register db d a i s).
Proof.
  intros HI Hd Ho Hi Hoi Hc Hfresh Hmax.
  assert (∀ q e, <[db := filed a d]> (go_Db s) !! q = Some e →
            ∃ y, go_Db s !! q = Some y ∧ Db.opened y = Db.opened e ∧
                 Db.db y = Db.db e) as Hback.
  { intros r x. destruct (decide (r = db)) as [->|Hne].
    - rewrite lookup_insert_eq. intros [= <-]. by exists d.
    - rewrite lookup_insert_ne by done. intros. by exists x. }
  assert (∀ k, Db.docss d !! k ≠ Some a) as Hnew.
  { intros k Hk. destruct (inv_child _ HI db d k a Hd Hk) as (_ & j & Hj & Hoj & _).
    congruence. }
  split; simpl.
  - destruct (inv_heap _ HI) as [F1 F2 F3 F4]. split; simpl; intros x Hx; eauto.
    + rewrite lookup_insert_ne; [eauto|]. intros ->. rewrite F1 in Hd; done.
    + rewrite lookup_insert_ne; [eauto|]. intros ->. rewrite F2 in Hi; done.
  - intros q e Hq Hoe. destruct (Hback q e Hq) as (y & Hy & Hy1 & Hy2).
    rewrite <- Hy2. apply (inv_handle _ HI q y Hy). congruence.
  - intros q q' e e' Hq Hq' Hoe Hoe' Heq.
    destruct (Hback q e Hq) as (y & Hy & Hy1 & Hy2).
    destruct (Hback q' e' Hq') as (y' & Hy' & Hy1' & Hy2').
    eapply (inv_handle_inj _ HI q q' y y'); congruence.
  - intros q e Hq Hoe. destruct (decide (q = db)) as [->|Hne].
    + rewrite lookup_insert_eq in Hq. injection Hq as <-. simpl in Hoe. congruence.
    + rewrite lookup_insert_ne in Hq by done. exact (inv_closed _ HI q e Hq Hoe).
  - intros q e Hq. destruct (decide (q = db)) as [->|Hne].
    + rewrite lookup_insert_eq in Hq. injection Hq as <-. simpl.
      unfold uint64_incr. apply N.mod_lt. done.
    + rewrite lookup_insert_ne in Hq by done. exact (inv_next _ HI q e Hq).
  - intros q e k b Hq Hb. destruct (decide (q = db)) as [->|Hne].
    + rewrite lookup_insert_eq in Hq. injection Hq as <-. simpl in *.
      rewrite uint64_incr_small by done.
      destruct (decide (k = Db.next d)) as [->|Hk].
      * rewrite lookup_insert_eq in Hb. injection Hb as <-.
        split; [lia|]. exists (registered db d i).
        by rewrite lookup_insert_eq.
      * rewrite lookup_insert_ne in Hb by done.
        destruct (inv_child _ HI db d k b Hd Hb) as (Hlt & j & Hj & Hoj & Hpj & Hkj).
        split; [lia|]. exists j. repeat split; try done.
        rewrite lookup_insert_ne; [done|]. intros <-. congruence.
    + rewrite lookup_insert_ne in Hq by done.
      destruct (inv_child _ HI q e k b Hq Hb) as (Hlt & j & Hj & Hoj & Hpj & Hkj).
      split; [done|]. exists j. repeat split; try done.
      rewrite lookup_insert_ne; [done|]. intros <-. congruence.
  - intros b j Hb Hoj. destruct (decide (b = a)) as [->|Hne].
    + rewrite lookup_insert_eq in Hb. injection Hb as <-. simpl.
      split; [done|]. exists db, (filed a d). rewrite lookup_insert_eq.
      repeat split; try done. simpl. by rewrite lookup_insert_eq.
    + rewrite lookup_insert_ne in Hb by done.
      destruct (Inv_owner s b j HI Hb Hoj) as (q & e & Hq & He & Hk & Hoe & Hcj).
      split; [done|]. destruct (decide (q = db)) as [->|Hqd].
      * exists db, (filed a d). rewrite lookup_insert_eq. repeat split; try done.
        simpl. assert (e = d) as -> by congruence.
        rewrite lookup_insert_ne; [done|]. intros Heq.
        destruct (inv_child _ HI db d _ b Hd Hk) as [Hlt _]. lia.
      * exists q, e. by rewrite lookup_insert_ne by done.
  - intros b c j l Hb Hc' Hoj Hol Heq.
    destruct (decide (b = a)) as [->|Hba]; destruct (decide (c = a)) as [->|Hca];
      try done.
    + rewrite lookup_insert_eq in Hb. injection Hb as <-.
      rewrite lookup_insert_ne in Hc' by done. simpl in Heq.
      by destruct (Hfresh c l Hc' Hol).
    + rewrite lookup_insert_eq in Hc'. injection Hc' as <-.
      rewrite lookup_insert_ne in Hb by done. simpl in Heq.
      by destruct (Hfresh b j Hb Hoj).
    + rewrite lookup_insert_ne in Hb, Hc' by done.
      exact (inv_cursor_inj _ HI b c j l Hb Hc' Hoj Hol Heq).
  - intros p. rewrite elem_of_union, elem_of_singleton. intros [->|Hp].
    + exact (go_Docs_below _ _ _ (inv_heap _ HI) Hi).
    + exact (inv_finalizers _ HI p Hp).
Qed.

Lemma post_keeps {A B} (R : State → State → Prop) (m : M A) (f : A → M B) s Q X :
  keeps R m →
  (∀ a s1, R s s1 → post (f a) s1 Q X) →
  (∀ what s1, R s s1 → X what s1) →
  post (m ≫= f) s Q X.
Proof.
  intros Hm Hf HX. apply post_bind. eapply post_mono; [apply Hm | |]; simpl; eauto.
Qed.

Lemma yields_ret R `{!Reflexive R} {A} (v : A) : yields R v (mret v).
Proof. intros s. by split. Qed.

Lemma yields_bind R `{!Transitive R} {A B} (v : B) (m : M A) (f : A → M B) :
  keeps R m → (∀ a, yields R v (f a)) → yields R v (m ≫= f).
Proof.
  intros Hm Hf s. eapply post_keeps; [done | | done].
  intros a s1 H1. eapply post_mono; [apply Hf | |]; simpl.
  - intros b s2 [-> H2]. split; [done | by etrans].
  - intros w s2 H2. by etrans.
Qed.

Lemma grown_docs_intro s s1 s2 :
  shape s s1 →
  shape (set_c_brk (c_brk s1 + 1)
           (set_c_docs_heap (<[c_brk s1 := c_dbxml_docs_t.new]> (c_docs_heap s1)) s1))
        s2 →
  grown_docs s s2 (c_brk s1).
Proof.
  intros [S1 S2 S3 S4 S5 S6 S7] [T1 T2 T3 T4 T5 T6 T7]. simpl in *.
  split; try congruence.
  rewrite T7, dom_insert_L. congruence.
Qed.

(** A function of the form [pre; docs = new c_dbxml_docs_t; rest; return docs]
    whose other statements keep the shape. *)
Lemma post_new_docs (pre : M unit) (rest : N → M N) s X :
  keeps shape pre → (∀ docs, yields shape docs (rest docs)) →
  post (pre ;; docs ← new_c_dbxml_docs_t; rest docs)
    (set_trace (trace s ++ [Enter X]) s)
    (λ h s', grown_docs s s' h) (λ _ _, True).
Proof.
  intros Hpre Hrest. eapply (post_keeps shape); [done | | done].
  intros _ s1 H1. apply post_bind. unfold post at 1, new_c_dbxml_docs_t.
  eapply post_mono; [apply Hrest | | done]; simpl.
  intros h s2 [-> H2]. apply grown_docs_intro; [|done].
  etrans; [apply shape_log | exact H1].
Qed.

End lemmas_2.

Ltac yields_step :=
  lazymatch goal with
  | |- yields _ _ (mret _) => apply yields_ret; apply _
  | |- yields _ _ (mbind _ _) =>
      apply yields_bind; [try apply _ .. | keeps_auto | intros ?]
  end.
Ltac yields_auto := repeat yields_step.

Section lemmas_3.
Context `{E : DbXml}.

Lemma c_dbxml_get_all_grows db s :
  post (c_dbxml_get_all db) s (λ h s', grown_docs s s' h) (λ _ _, False).
Proof.
  unfold c_dbxml_get_all. apply post_extern_C.
  apply post_new_docs; [apply keeps_shape_clear_error|].
  intros docs. yields_auto.
Qed.

Lemma c_dbxml_get_query_grows db q s :
  post (c_dbxml_get_query db q) s (λ h s', grown_docs s s' h) (λ _ _, False).
Proof.
  unfold c_dbxml_get_query. apply post_extern_C.
  apply post_new_docs; [apply keeps_shape_clear_error|].
  intros docs. yields_auto.
Qed.

Lemma bind_inv {A B} (m : M A) (f : A → M B) s b s'' :
  (m ≫= f) s = Ok b s'' → ∃ a s', m s = Ok a s' ∧ f a s' = Ok b s''.
Proof.
  unfold mbind, M_bind. destruct (m s) as [a s'| |]; try done. eauto.
Qed.

Lemma ret_inv {A} (a b : A) s s' : mret (M:=M) a s = Ok b s' → b = a ∧ s' = s.
Proof. by intros [= <- <-]. Qed.

Lemma load_Db_inv p s d s' :
  load_Db p s = Ok d s' → go_Db s !! p = Some d ∧ s' = s.
Proof. unfold load_Db. destruct (go_Db s !! p); by intros [= <- <-]. Qed.

Lemma load_Docs_inv p s d s' :
  load_Docs p s = Ok d s' → go_Docs s !! p = Some d ∧ s' = s.
Proof. unfold load_Docs. destruct (go_Docs s !! p); by intros [= <- <-]. Qed.

Lemma store_Db_inv p f s u s' :
  store_Db p f s = Ok u s' →
  ∃ d, go_Db s !! p = Some d ∧ s' = set_go_Db (<[p := f d]> (go_Db s)) s.
Proof. unfold store_Db. destruct (go_Db s !! p); intros [= <- <-]; eauto. Qed.

Lemma store_Docs_inv p f s u s' :
  store_Docs p f s = Ok u s' →
  ∃ d, go_Docs s !! p = Some d ∧ s' = set_go_Docs (<[p := f d]> (go_Docs s)) s.
Proof. unfold store_Docs. destruct (go_Docs s !! p); intros [= <- <-]; eauto. Qed.

Lemma keeps_Ok R {A} (m : M A) s a s' : keeps R m → m s = Ok a s' → R s s'.
Proof. intros Hk Hm. specialize (Hk s). unfold post in Hk. by rewrite Hm in Hk. Qed.

Lemma keeps_shape_open_attempt db f i : keeps shape (open_attempt db f i).
Proof. unfold open_attempt. keeps_auto. Qed.

Lemma keeps_shape_open_loop n db f i : keeps shape (open_loop n db f i).
Proof.
  revert i. induction n as [|n IH]; intros i; simpl; keeps_auto.
  apply keeps_shape_open_attempt.
Qed.

Lemma c_dbxml_open_grows f s :
  post (c_dbxml_open f) s (λ h s', grown_db s s' h) (λ _ _, False).
Proof.
  unfold c_dbxml_open. apply post_extern_C. apply post_bind.
  unfold post at 1, new_c_dbxml_t.
  assert (yields shape (c_brk s) (open_loop 2 (c_brk s) f 0 ;; mret (c_brk s))) as Hy.
  { apply yields_bind; [apply _ | apply keeps_shape_open_loop |].
    intros _. apply yields_ret. apply _. }
  eapply post_mono; [apply Hy | | done]; simpl.
  intros h s' [-> [S1 S2 S3 S4 S5 S6 S7]]. simpl in *.
  split; try done. by rewrite S6, dom_insert_L.
Qed.

End lemmas_3.

#[global] Hint Resolve keeps_shape_report keeps_shape_clear_error
  keeps_shape_c_dbxml_error keeps_shape_c_dbxml_errstring
  keeps_shape_c_dbxml_put_file keeps_shape_c_dbxml_put_xml
  keeps_shape_c_dbxml_merge keeps_shape_c_dbxml_remove keeps_shape_c_dbxml_get
  keeps_shape_c_dbxml_size keeps_shape_c_dbxml_docs_next
  keeps_shape_c_dbxml_docs_name keeps_shape_c_dbxml_docs_content : keeps.

Section lemmas_4.
Context `{E : DbXml}.

(** ** Calls that only reach the engine *)

Lemma keeps_shape_last_error db : keeps shape (last_error db).
Proof. unfold last_error. keeps_auto. Qed.

Lemma keeps_shape_Db_PutFile db f r : keeps shape (Db_PutFile db f r).
Proof. unfold Db_PutFile. keeps_auto. apply keeps_shape_last_error. Qed.

Lemma keeps_shape_Db_PutXml db n x r : keeps shape (Db_PutXml db n x r).
Proof. unfold Db_PutXml. keeps_auto. apply keeps_shape_last_error. Qed.

Lemma keeps_shape_Db_Merge db f r : keeps shape (Db_Merge db f r).
Proof. unfold Db_Merge. keeps_auto. apply keeps_shape_last_error. Qed.

Lemma keeps_shape_Db_Remove db n : keeps shape (Db_Remove db n).
Proof. unfold Db_Remove. keeps_auto. apply keeps_shape_last_error. Qed.

Lemma keeps_shape_Db_Get db n : keeps shape (Db_Get db n).
Proof. unfold Db_Get. keeps_auto. Qed.

Lemma keeps_shape_Db_Size db : keeps shape (Db_Size db).
Proof. unfold Db_Size. keeps_auto. Qed.

Lemma keeps_shape_Docs_Name a : keeps shape (Docs_Name a).
Proof. unfold Docs_Name. keeps_auto. Qed.

Lemma keeps_shape_Docs_Content a : keeps shape (Docs_Content a).
Proof. unfold Docs_Content. keeps_auto. Qed.

(** [Next] on an open iterator, in terms of what the native advance does
    from the state in which [started] is set. *)
Lemma Docs_Next_open a i p o s :
  go_Docs s !! a = Some i → Docs.opened i = true → Docs.db i = Some p →
  go_Db s !! p = Some o → is_Some (c_docs_heap s !! Docs.docs i) →
  Docs_Next a s =
    match c_dbxml_docs_next (Docs.docs i) (started_state a i s) with
    | Ok r s2 =>
        if (r =? 0)%Z then
          Ok false (after_close a (Docs.set_started true i) p o s2)
        else Ok true s2
    | Raise what s2 => Raise what s2
    | Fault f => Fault f
    end.
Proof.
  intros Ha Ho Hp Hd Hc.
  unfold Docs_Next, mbind at 1, M_bind at 1, load_Docs at 1. rewrite Ha, Ho. simpl.
  unfold mbind at 1, M_bind at 1, store_Docs at 1. rewrite Ha.
  fold (started_state a i s).
  unfold mbind at 1, M_bind at 1, load_Docs at 1.
  assert (go_Docs (started_state a i s) !! a = Some (Docs.set_started true i)) as Ha1
    by apply lookup_insert_eq.
  rewrite Ha1. simpl Docs.docs.
  unfold mbind at 1, M_bind at 1.
  pose proof (keeps_shape_c_dbxml_docs_next (Docs.docs i) (started_state a i s)) as Hsh.
  unfold post in Hsh.
  destruct (c_dbxml_docs_next (Docs.docs i) (started_state a i s))
    as [r s2|what s2|f]; try done.
  destruct (r =? 0)%Z; [|done].
  destruct Hsh as [S1 S2 S3 S4 S5 S6 S7].
  assert (go_Docs s2 !! a = Some (Docs.set_started true i)) as Ha2 by congruence.
  assert (go_Db s2 !! p = Some o) as Hd2 by (rewrite S1; done).
  unfold mbind at 1, M_bind at 1.
  rewrite (Docs_close_open a (Docs.set_started true i) p o s2); try done.
  simpl. apply elem_of_dom. rewrite S7. by apply elem_of_dom.
Qed.

Lemma Docs_Next_closed a i s :
  go_Docs s !! a = Some i → Docs.opened i = false → Docs_Next a s = Ok false s.
Proof.
  intros Ha Ho. unfold Docs_Next, mbind, M_bind, load_Docs. by rewrite Ha, Ho.
Qed.

Lemma Inv_started a i s :
  Inv s → go_Docs s !! a = Some i → Inv (started_state a i s).
Proof.
  intros HI Ha.
  assert (∀ b j, <[a := Docs.set_started true i]> (go_Docs s) !! b = Some j →
            ∃ j', go_Docs s !! b = Some j' ∧ Docs.opened j' = Docs.opened j ∧
                  Docs.db j' = Docs.db j ∧ Docs.id j' = Docs.id j ∧
                  Docs.docs j' = Docs.docs j) as Hback.
  { intros b j. destruct (decide (b = a)) as [->|Hne].
    - rewrite lookup_insert_eq. intros [= <-]. by exists i.
    - rewrite lookup_insert_ne by done. intros. by exists j. }
  assert (∀ b j, go_Docs s !! b = Some j →
            ∃ j', <[a := Docs.set_started true i]> (go_Docs s) !! b = Some j' ∧
                  Docs.opened j' = Docs.opened j ∧
                  Docs.db j' = Docs.db j ∧ Docs.id j' = Docs.id j ∧
                  Docs.docs j' = Docs.docs j) as Hforth.
  { intros b j Hb. destruct (decide (b = a)) as [->|Hne].
    - rewrite lookup_insert_eq. assert (j = i) as -> by congruence.
      by eexists.
    - rewrite lookup_insert_ne by done. by exists j. }
  split; simpl.
  - destruct (inv_heap _ HI) as [F1 F2 F3 F4]. split; simpl; intros x Hx; eauto.
    rewrite lookup_insert_ne; [eauto|]. intros ->. rewrite F2 in Ha; done.
  - apply (inv_handle _ HI).
  - apply (inv_handle_inj _ HI).
  - apply (inv_closed _ HI).
  - apply (inv_next _ HI).
  - intros p d k b Hp Hb.
    destruct (inv_child _ HI p d k b Hp Hb) as (Hlt & j & Hj & Hoj & Hpj & Hkj).
    split; [done|]. destruct (Hforth b j Hj) as (j' & Hj' & H1 & H2 & H3 & H4).
    exists j'. repeat split; congruence.
  - intros b j Hb Hoj. destruct (Hback b j Hb) as (j' & Hj' & H1 & H2 & H3 & H4).
    rewrite <- H2, <- H3, <- H4. apply (inv_open _ HI b j' Hj'). congruence.
  - intros b c j l Hb Hc Hoj Hol Heq.
    destruct (Hback b j Hb) as (j' & Hj' & H1 & H2 & H3 & H4).
    destruct (Hback c l Hc) as (l' & Hl' & G1 & G2 & G3 & G4).
    eapply (inv_cursor_inj _ HI b c j' l'); congruence.
  - apply (inv_finalizers _ HI).
Qed.

Lemma c_dbxml_error_run h x s :
  c_dbxml_heap s !! h = Some x →
  c_dbxml_error h s =
    Ok (if c_dbxml_t.error x then 1 else 0)%Z
       (set_trace (trace s ++ [Enter (F_error h)]) s).
Proof. intros Hx. unfold c_dbxml_error, extern_C, mbind, M_bind, deref. simpl. by rewrite Hx. Qed.

Lemma c_dbxml_errstring_run h x s :
  c_dbxml_heap s !! h = Some x →
  c_dbxml_errstring h s =
    Ok (c_dbxml_t.errstring x) (set_trace (trace s ++ [Enter (F_errstring h)]) s).
Proof.
  intros Hx. unfold c_dbxml_errstring, extern_C, mbind, M_bind, deref. simpl.
  by rewrite Hx.
Qed.

Lemma c_dbxml_free_run h x s :
  c_dbxml_heap s !! h = Some x →
  c_dbxml_free h s =
    Ok tt (set_c_dbxml_heap (delete h (c_dbxml_heap s))
             (set_trace (trace s ++ [Enter (F_free h)]) s)).
Proof.
  intros Hx. unfold c_dbxml_free, extern_C, delete_c_dbxml_t. simpl. by rewrite Hx.
Qed.

Lemma Db_All_closed db d s :
  go_Db s !! db = Some d → Db.opened d = false →
  Db_All db s = Ok (go_brk s, Some errclosed) (after_new_Docs s).
Proof.
  intros Hd Ho. unfold Db_All, mbind, M_bind. rewrite new_Docs_run.
  unfold load_Db. simpl. by rewrite Hd, Ho.
Qed.

Lemma Db_Query_closed db d q s :
  go_Db s !! db = Some d → Db.opened d = false →
  Db_Query db q s = Ok (go_brk s, Some errclosed) (after_new_Docs s).
Proof.
  intros Hd Ho. unfold Db_Query, mbind, M_bind. rewrite new_Docs_run.
  unfold load_Db. simpl. by rewrite Hd, Ho.
Qed.

Lemma Db_All_open db d s :
  go_Db s !! db = Some d → Db.opened d = true →
  Db_All db s =
    match c_dbxml_get_all (Db.db d) (after_new_Docs s) with
    | Ok h s1 =>
        Ok (go_brk s, None)
           (after_register db d (go_brk s) (Docs.set_docs h Docs.zero)
              (with_docs (go_brk s) h s1))
    | Raise what s1 => Raise what s1
    | Fault f => Fault f
    end.
Proof.
  intros Hd Ho. unfold Db_All, mbind at 1, M_bind at 1. rewrite new_Docs_run.
  unfold mbind at 1, M_bind at 1, load_Db at 1. simpl go_Db. rewrite Hd, Ho. simpl.
  unfold mbind at 1, M_bind at 1.
  pose proof (c_dbxml_get_all_grows (Db.db d) (after_new_Docs s)) as Hg.
  unfold post in Hg.
  destruct (c_dbxml_get_all (Db.db d) (after_new_Docs s)) as [h s1|what s1|f];
    try done.
  destruct Hg as [G1 G2 G3 G4 G5 G6 G7 G8]. simpl in *.
  unfold mbind at 1, M_bind at 1, store_Docs at 1.
  rewrite G2, lookup_insert_eq. rewrite <- G2. fold (with_docs (go_brk s) h s1).
  unfold mbind at 1, M_bind at 1.
  rewrite (register_run db d (go_brk s) (Docs.set_docs h Docs.zero)); [done| |].
  - simpl. by rewrite G1.
  - simpl. by rewrite lookup_insert_eq.
Qed.

Lemma Db_Query_open db d q s :
  go_Db s !! db = Some d → Db.opened d = true →
  is_Some (c_dbxml_heap s !! Db.db d) →
  Db_Query db q s =
    match c_dbxml_get_query (Db.db d) q (after_new_Docs s) with
    | Ok h s1 =>
        match c_dbxml_heap s1 !! Db.db d with
        | Some x =>
            if c_dbxml_t.error x then
              Ok (go_brk s, Some (errors_New (c_dbxml_t.errstring x)))
                 (logged [Enter (F_error (Db.db d)); Enter (F_errstring (Db.db d))]
                    (with_docs (go_brk s) h s1))
            else
              Ok (go_brk s, None)
                 (after_register db d (go_brk s) (Docs.set_docs h Docs.zero)
                    (logged [Enter (F_error (Db.db d))] (with_docs (go_brk s) h s1)))
        | None => Fault (BadHandle (Db.db d))
        end
    | Raise what s1 => Raise what s1
    | Fault f => Fault f
    end.
Proof.
  intros Hd Ho Hlive. unfold Db_Query, mbind at 1, M_bind at 1. rewrite new_Docs_run.
  unfold mbind at 1, M_bind at 1, load_Db at 1. simpl go_Db. rewrite Hd, Ho. simpl.
  unfold mbind at 1, M_bind at 1.
  pose proof (c_dbxml_get_query_grows (Db.db d) q (after_new_Docs s)) as Hg.
  unfold post in Hg.
  destruct (c_dbxml_get_query (Db.db d) q (after_new_Docs s)) as [h s1|what s1|f];
    try done.
  destruct Hg as [G1 G2 G3 G4 G5 G6 G7 G8]. simpl in *.
  unfold mbind at 1, M_bind at 1, store_Docs at 1.
  rewrite G2, lookup_insert_eq. rewrite <- G2. fold (with_docs (go_brk s) h s1).
  unfold mbind at 1, M_bind at 1.
  destruct (c_dbxml_heap s1 !! Db.db d) as [x|] eqn:Hx; cycle 1.
  { unfold c_dbxml_error, extern_C, mbind, M_bind, deref. simpl. by rewrite Hx. }
  rewrite (c_dbxml_error_run _ x) by done.
  destruct (c_dbxml_t.error x); simpl.
  - unfold mbind at 1, M_bind at 1.
    rewrite (c_dbxml_errstring_run _ x) by done. simpl.
    unfold logged, set_trace; simpl. by rewrite <- app_assoc.
  - unfold mbind at 1, M_bind at 1.
    rewrite (register_run db d (go_brk s) (Docs.set_docs h Docs.zero)); [done| |].
    + simpl. by rewrite G1.
    + simpl. by rewrite lookup_insert_eq.
Qed.

Lemma new_Db_run s : new_Db s = Ok (go_brk s) (after_new_Db s).
Proof. done. Qed.

Lemma Open_run f s :
  Open f s =
    match c_dbxml_open f (after_new_Db s) with
    | Ok h s1 =>
        match c_dbxml_heap s1 !! h with
        | Some x =>
            if c_dbxml_t.error x then
              Ok (go_brk s, Some (errors_New (c_dbxml_t.errstring x)))
                 (open_failed (go_brk s) h s1)
            else Ok (go_brk s, None) (open_done (go_brk s) h s1)
        | None => Fault (BadHandle h)
        end
    | Raise what s1 => Raise what s1
    | Fault f => Fault f
    end.
Proof.
  unfold Open, mbind at 1, M_bind at 1. rewrite new_Db_run.
  unfold mbind at 1, M_bind at 1.
  pose proof (c_dbxml_open_grows f (after_new_Db s)) as Hg. unfold post in Hg.
  destruct (c_dbxml_open f (after_new_Db s)) as [h s1|what s1|x]; try done.
  destruct Hg as [G1 G2 G3 G4 G5 G6 G7 G8]. simpl in *.
  assert (go_Db s1 !! go_brk s = Some Db.zero) as Ha
    by (rewrite G1; apply lookup_insert_eq).
  unfold mbind at 1, M_bind at 1, store_Db at 1. rewrite Ha.
  unfold mbind at 1, M_bind at 1, load_Db at 1. simpl go_Db.
  rewrite lookup_insert_eq. simpl Db.db.
  unfold mbind at 1, M_bind at 1.
  destruct (c_dbxml_heap s1 !! h) as [x|] eqn:Hx; cycle 1.
  { unfold c_dbxml_error, extern_C, mbind, M_bind, deref. simpl. by rewrite Hx. }
  rewrite (c_dbxml_error_run _ x) by done.
  destruct (c_dbxml_t.error x); simpl.
  - unfold mbind at 1, M_bind at 1.
    rewrite (c_dbxml_errstring_run _ x) by done.
    unfold mbind at 1, M_bind at 1.
    rewrite (c_dbxml_free_run _ x) by done. simpl.
    unfold open_failed, set_c_dbxml_heap, set_trace; simpl.
    by rewrite <- !app_assoc.
  - unfold mbind, M_bind, store_Db, SetFinalizer. simpl.
    rewrite !lookup_insert_eq. simpl. rewrite !lookup_insert_eq. simpl.
    unfold open_done, set_go_Db, set_finalizers. simpl.
    by rewrite !insert_insert_eq.
Qed.

#[global] Instance later_refl : Reflexive later.
Proof. intros s. split; eauto. Qed.

#[global] Instance later_trans : Transitive later.
Proof.
  intros s1 s2 s3 [H1 D1 B1] [H2 D2 B2]. split.
  - eauto.
  - intros H a i Ha Ho. eauto.
  - intros H p d Hp Ho. destruct (B1 H p d Hp Ho) as (d' & Hd' & Ho'). eauto.
Qed.

Lemma later_shape s s' : shape s s' → later s s'.
Proof.
  intros Hsh. pose proof Hsh as [S1 S2 S3 S4 S5 S6 S7]. split.
  - by apply heap_ok_shape.
  - intros _ a i. by rewrite S2.
  - intros _ p d. rewrite S1. eauto.
Qed.

Lemma keeps_later_of_shape {A} (m : M A) : keeps shape m → keeps later m.
Proof.
  intros Hk s. eapply post_mono; [apply Hk | |]; simpl; eauto using later_shape.
Qed.

Lemma keeps_later_Docs_close a : keeps later (Docs_close a).
Proof.
  intros s. unfold post, Docs_close, mbind, M_bind, load_Docs.
  destruct (go_Docs s !! a) as [i|] eqn:Ha; [|done].
  destruct (Docs.opened i) eqn:Ho; [|simpl; reflexivity].
  unfold c_dbxml_docs_free, extern_C, delete_c_dbxml_docs_t. simpl.
  destruct (c_docs_heap s !! Docs.docs i) as [x|] eqn:Hx; [|done]. simpl.
  unfold store_Docs. simpl. rewrite Ha. simpl. rewrite lookup_insert_eq. simpl.
  unfold follow. destruct (Docs.db i) as [p|]; [|done]. simpl.
  unfold store_Db. simpl.
  destruct (go_Db s !! p) as [o|] eqn:Hp; [|done]. simpl.
  rewrite lookup_insert_eq. simpl.
  split; simpl.
  - intros [F1 F2 F3 F4]. split; simpl; intros y Hy.
    + rewrite lookup_insert_ne; [eauto|]. intros ->. rewrite F1 in Hp; done.
    + rewrite insert_insert_eq, lookup_insert_ne; [eauto|].
      intros ->. rewrite F2 in Ha; done.
    + eauto.
    + rewrite lookup_delete_None. eauto.
  - intros _ b j Hb Hoj. rewrite insert_insert_eq, lookup_insert_ne; [done|].
    intros <-. congruence.
  - intros _ q d Hq Hod. destruct (decide (q = p)) as [->|Hne].
    + rewrite lookup_insert_eq. eexists. split; [done|]. simpl. congruence.
    + rewrite lookup_insert_ne by done. eauto.
Qed.

Lemma keeps_later_Close_loop fuel db : ∀ id, keeps later (Close_loop fuel db id).
Proof.
  induction fuel as [|fuel IH]; intros id; simpl.
  - apply keeps_bind; [apply _ .. | |].
    + apply keeps_later_of_shape. apply keeps_shape_load_Db.
    + intros d. destruct (id <? Db.next d); [apply keeps_panic | apply keeps_ret; apply _].
  - apply keeps_bind; [apply _ .. | |].
    + apply keeps_later_of_shape. apply keeps_shape_load_Db.
    + intros d. destruct (id <? Db.next d); [|apply keeps_ret; apply _].
      apply keeps_bind; [apply _ .. | | intros _; apply IH].
      destruct (Db.docss d !! id); [apply keeps_later_Docs_close |].
      apply keeps_ret; apply _.
Qed.

Lemma keeps_later_store_closed p : keeps later (store_Db p (Db.set_opened false)).
Proof.
  intros s. unfold post, store_Db. destruct (go_Db s !! p) as [d|] eqn:Hp; [|done].
  split; simpl.
  - intros [F1 F2 F3 F4]. split; simpl; intros y Hy; eauto.
    rewrite lookup_insert_ne; [eauto|]. intros ->. rewrite F1 in Hp; done.
  - done.
  - intros _ q e Hq Ho. destruct (decide (q = p)) as [->|Hne].
    + rewrite lookup_insert_eq. by eexists.
    + rewrite lookup_insert_ne by done. eauto.
Qed.

Lemma keeps_later_c_dbxml_free h : keeps later (c_dbxml_free h).
Proof.
  intros s. unfold post, c_dbxml_free, extern_C, delete_c_dbxml_t. simpl.
  destruct (c_dbxml_heap s !! h); [|done]. split; simpl; eauto.
  intros [F1 F2 F3 F4]. split; simpl; intros y Hy; eauto.
  rewrite lookup_delete_None. eauto.
Qed.

Lemma keeps_later_Db_Close db : keeps later (Db_Close db).
Proof.
  unfold Db_Close.
  apply keeps_bind; [apply _ .. | |].
  { apply keeps_later_of_shape. apply keeps_shape_load_Db. }
  intros d. destruct (Db.opened d); [|apply keeps_ret; apply _].
  apply keeps_bind; [apply _ .. | apply keeps_later_Close_loop | intros _].
  apply keeps_bind; [apply _ .. | |].
  { apply keeps_later_of_shape. apply keeps_shape_load_Db. }
  intros d'. apply keeps_bind; [apply _ .. | apply keeps_later_c_dbxml_free |].
  intros _. apply keeps_later_store_closed.
Qed.

Lemma keeps_later_Docs_Next a : keeps later (Docs_Next a).
Proof.
  intros s. unfold post.
  destruct (go_Docs s !! a) as [i|] eqn:Ha; cycle 1.
  { unfold Docs_Next, mbind, M_bind, load_Docs. by rewrite Ha. }
  destruct (Docs.opened i) eqn:Ho; cycle 1.
  { rewrite (Docs_Next_closed a i) by done. reflexivity. }
  unfold Docs_Next, mbind at 1, M_bind at 1, load_Docs at 1. rewrite Ha, Ho. simpl.
  unfold mbind at 1, M_bind at 1, store_Docs at 1. rewrite Ha.
  fold (started_state a i s).
  assert (later s (started_state a i s)) as L1.
  { split; simpl.
    - intros [F1 F2 F3 F4]. split; simpl; intros y Hy; eauto.
      rewrite lookup_insert_ne; [eauto|]. intros ->. rewrite F2 in Ha; done.
    - intros _ b j Hb Hoj. rewrite lookup_insert_ne; [done|]. intros <-. congruence.
    - eauto. }
  unfold mbind at 1, M_bind at 1, load_Docs at 1.
  assert (go_Docs (started_state a i s) !! a = Some (Docs.set_started true i)) as Ha1
    by apply lookup_insert_eq.
  rewrite Ha1. simpl Docs.docs.
  unfold mbind at 1, M_bind at 1.
  pose proof (keeps_shape_c_dbxml_docs_next (Docs.docs i) (started_state a i s)) as Hsh.
  unfold post in Hsh.
  destruct (c_dbxml_docs_next (Docs.docs i) (started_state a i s))
    as [r s2|what s2|f]; try done.
  - apply later_shape in Hsh.
    destruct (r =? 0)%Z; [|simpl; by etrans].
    unfold mbind at 1, M_bind at 1.
    pose proof (keeps_later_Docs_close a s2) as Hc. unfold post in Hc.
    destruct (Docs_close a s2) as [[] s3|what s3|f]; try done.
    + simpl. etrans; [exact L1|]. by etrans.
    + etrans; [exact L1|]. by etrans.
  - apply later_shape in Hsh. simpl. by etrans.
Qed.

Lemma heap_ok_grown_docs s s' h : grown_docs s s' h → heap_ok s → heap_ok s'.
Proof.
  intros [G1 G2 G3 G4 G5 G6 G7 G8] [F1 F2 F3 F4]. split; intros x Hx.
  - rewrite G1. apply F1. lia.
  - rewrite G2. apply F2. lia.
  - apply not_elem_of_dom. rewrite G7. apply not_elem_of_dom. apply F3. lia.
  - apply not_elem_of_dom. rewrite G8, elem_of_union, elem_of_singleton.
    intros [->| Hin]; [lia|]. apply elem_of_dom in Hin as [y Hy].
    rewrite F4 in Hy; [done|lia].
Qed.

Lemma heap_ok_grown_db s s' h : grown_db s s' h → heap_ok s → heap_ok s'.
Proof.
  intros [G1 G2 G3 G4 G5 G6 G7 G8] [F1 F2 F3 F4]. split; intros x Hx.
  - rewrite G1. apply F1. lia.
  - rewrite G2. apply F2. lia.
  - apply not_elem_of_dom. rewrite G7, elem_of_union, elem_of_singleton.
    intros [->| Hin]; [lia|]. apply elem_of_dom in Hin as [y Hy].
    rewrite F3 in Hy; [done|lia].
  - apply not_elem_of_dom. rewrite G8. apply not_elem_of_dom. apply F4. lia.
Qed.

Lemma Inv_grown_docs s s' h : grown_docs s s' h → Inv s → Inv s'.
Proof.
  intros Hg HI. pose proof Hg as [G1 G2 G3 G4 G5 G6 G7 G8].
  destruct HI as [I1 I2 I3 I4 I5 I6 I7 I8 I9]. split; cycle 8.
  { rewrite G3, G4. eauto. }
  - by eapply heap_ok_grown_docs.
  - rewrite G1. intros p d Hp Ho.
    apply elem_of_dom. rewrite G7. apply elem_of_dom. eauto.
  - rewrite G1. eauto.
  - rewrite G1. eauto.
  - rewrite G1. eauto.
  - rewrite G1, G2. eauto.
  - rewrite G1, G2. intros a i Ha Ho.
    destruct (I7 a i Ha Ho) as [Hc Hr]. split; [|done].
    apply elem_of_dom. rewrite G8. apply elem_of_union_r. by apply elem_of_dom.
  - rewrite G2. eauto.
Qed.

Lemma Inv_grown_db s s' h : grown_db s s' h → Inv s → Inv s'.
Proof.
  intros Hg HI. pose proof Hg as [G1 G2 G3 G4 G5 G6 G7 G8].
  destruct HI as [I1 I2 I3 I4 I5 I6 I7 I8 I9]. split; cycle 8.
  { rewrite G3, G4. eauto. }
  - by eapply heap_ok_grown_db.
  - rewrite G1. intros p d Hp Ho.
    apply elem_of_dom. rewrite G7. apply elem_of_union_r. apply elem_of_dom. eauto.
  - rewrite G1. eauto.
  - rewrite G1. eauto.
  - rewrite G1. eauto.
  - rewrite G1, G2. eauto.
  - rewrite G1, G2. intros a i Ha Ho.
    destruct (I7 a i Ha Ho) as [Hc Hr]. split; [|done].
    apply elem_of_dom. rewrite G8. by apply elem_of_dom.
  - rewrite G2. eauto.
Qed.

(** The state after a successful [All] or [Query]: the cursor [h] came from
    the native layer, which left [s2]; the new iterator is [go_brk s]. *)
Lemma Inv_attached s s1 s2 db d h :
  Inv s → no_wrap s → go_Db s !! db = Some d → Db.opened d = true →
  grown_docs (after_new_Docs s) s1 h → shape (with_docs (go_brk s) h s1) s2 →
  Inv (after_register db d (go_brk s) (Docs.set_docs h Docs.zero) s2).
Proof.
  intros HI Hnw Hd Ho Hg Hsh.
  pose proof (Inv_new_Docs s HI) as HI0.
  pose proof (Inv_grown_docs _ _ _ Hg HI0) as HI1.
  pose proof Hg as [G1 G2 G3 G4 G5 G6 G7 G8]. simpl in *.
  assert (Inv (with_docs (go_brk s) h s1)) as HI2.
  { unfold with_docs, set_go_Docs. apply Inv_store_closed; try done; try lia.
    - intros j. rewrite G2, lookup_insert_eq. by intros [= <-].
    - apply (inv_finalizers _ HI1). }
  pose proof (Inv_shape _ _ Hsh HI2) as HI3.
  pose proof Hsh as [S1 S2 S3 S4 S5 S6 S7]. simpl in *.
  apply Inv_after_register; try done.
  - by rewrite S1, G1.
  - rewrite S2. apply lookup_insert_eq.
  - simpl. apply elem_of_dom. rewrite S7, G8.
    apply elem_of_union_l, elem_of_singleton. done.
  - simpl. intros b j Hb Hoj Heq. rewrite S2 in Hb.
    destruct (decide (b = go_brk s)) as [->|Hne].
    { rewrite lookup_insert_eq in Hb. by injection Hb as <-. }
    rewrite lookup_insert_ne, G2, lookup_insert_ne in Hb by done.
    destruct (inv_open _ HI b j Hb Hoj) as [Hc _].
    apply (c_docs_below _ _ (inv_heap _ HI)) in Hc. lia.
  - by eapply Hnw.
Qed.

Lemma later_attached s s1 s2 db d h :
  go_Db s !! db = Some d → Db.opened d = true →
  grown_docs (after_new_Docs s) s1 h → shape (with_docs (go_brk s) h s1) s2 →
  later s (after_register db d (go_brk s) (Docs.set_docs h Docs.zero) s2).
Proof.
  intros Hd Ho Hg Hsh.
  pose proof Hg as [G1 G2 G3 G4 G5 G6 G7 G8]. simpl in *.
  pose proof Hsh as [S1 S2 S3 S4 S5 S6 S7]. simpl in *.
  split; simpl.
  - intros Hok. pose proof Hok as [F1 F2 F3 F4]. split; simpl; intros x Hx.
    + rewrite S3, G3 in Hx. rewrite S1, G1.
      rewrite lookup_insert_ne; [apply F1; lia|]. intros ->.
      rewrite F1 in Hd; [done|lia].
    + rewrite S3, G3 in Hx. rewrite S2, G2.
      rewrite !lookup_insert_ne by lia. apply F2. lia.
    + rewrite S5, G6 in Hx. apply not_elem_of_dom. rewrite S6, G7.
      apply not_elem_of_dom. apply F3. lia.
    + rewrite S5, G6 in Hx. apply not_elem_of_dom. rewrite S7, G8.
      rewrite elem_of_union, elem_of_singleton.
      intros [->| Hin]; [lia|]. apply elem_of_dom in Hin as [y Hy].
      rewrite F4 in Hy; [done|lia].
  - intros Hok b j Hb Hoj. pose proof (go_Docs_below _ _ _ Hok Hb).
    rewrite S2, G2. rewrite !lookup_insert_ne by lia. done.
  - intros Hok p e Hp Hoe. rewrite S1, G1.
    rewrite lookup_insert_ne; [eauto|]. intros ->. congruence.
Qed.

Lemma later_new_Docs s : later s (after_new_Docs s).
Proof.
  split; simpl.
  - intros [F1 F2 F3 F4]. split; simpl; intros x Hx; eauto.
    + apply F1. lia.
    + rewrite lookup_insert_ne by lia. apply F2. lia.
  - intros Hok b j Hb Hoj. pose proof (go_Docs_below _ _ _ Hok Hb).
    rewrite lookup_insert_ne by lia. done.
  - eauto.
Qed.

(** A failed [Query]: the iterator [go_brk s] keeps the cursor but is not
    open. *)
Lemma Inv_detached s s1 s2 h :
  Inv s → grown_docs (after_new_Docs s) s1 h →
  shape (with_docs (go_brk s) h s1) s2 → Inv s2.
Proof.
  intros HI Hg Hsh.
  pose proof (Inv_new_Docs s HI) as HI0.
  pose proof (Inv_grown_docs _ _ _ Hg HI0) as HI1.
  pose proof Hg as [G1 G2 G3 G4 G5 G6 G7 G8]. simpl in *.
  eapply Inv_shape; [exact Hsh|].
  unfold with_docs, set_go_Docs. apply Inv_store_closed; try done; try lia.
  - intros j. rewrite G2, lookup_insert_eq. by intros [= <-].
  - apply (inv_finalizers _ HI1).
Qed.

Lemma later_detached s s1 s2 h :
  grown_docs (after_new_Docs s) s1 h →
  shape (with_docs (go_brk s) h s1) s2 → later s s2.
Proof.
  intros Hg Hsh.
  pose proof Hg as [G1 G2 G3 G4 G5 G6 G7 G8]. simpl in *.
  pose proof Hsh as [S1 S2 S3 S4 S5 S6 S7]. simpl in *.
  split; simpl.
  - intros Hok. pose proof Hok as [F1 F2 F3 F4]. split; simpl; intros x Hx.
    + rewrite S3, G3 in Hx. rewrite S1, G1. apply F1; lia.
    + rewrite S3, G3 in Hx. rewrite S2, G2.
      rewrite !lookup_insert_ne by lia. apply F2. lia.
    + rewrite S5, G6 in Hx. apply not_elem_of_dom. rewrite S6, G7.
      apply not_elem_of_dom. apply F3. lia.
    + rewrite S5, G6 in Hx. apply not_elem_of_dom. rewrite S7, G8.
      rewrite elem_of_union, elem_of_singleton.
      intros [->| Hin]; [lia|]. apply elem_of_dom in Hin as [y Hy].
      rewrite F4 in Hy; [done|lia].
  - intros Hok b j Hb Hoj. pose proof (go_Docs_below _ _ _ Hok Hb).
    rewrite S2, G2. rewrite !lookup_insert_ne by lia. done.
  - intros Hok p e Hp Hoe. rewrite S1, G1. eauto.
Qed.

(** Writing a connection that is not open and has no children, over one
    that is not open or at an unused address, and releasing native handles
    no open connection owns. *)
Lemma Inv_store_Db_closed s p d heap brk fin tr :
  Inv s → Db.opened d = false → Db.docss d = ∅ → Db.next d < uint64_modulus →
  (∀ e, go_Db s !! p = Some e → Db.opened e = false) →
  go_brk s ≤ brk → p < brk → (∀ q, q ∈ fin → q < brk) →
  (∀ h, heap !! h = None ∨ heap !! h = c_dbxml_heap s !! h) →
  (∀ q e, go_Db s !! q = Some e → Db.opened e = true → is_Some (heap !! Db.db e)) →
  Inv (mkState _ (world s) heap (c_docs_heap s) (c_brk s)
         (<[p := d]> (go_Db s)) (go_Docs s) brk fin tr).
Proof.
  intros HI Hd Hm Hn Hold Hbrk Hp Hfin Hsub Hlive.
  assert (∀ q e, <[p := d]> (go_Db s) !! q = Some e → Db.opened e = true →
            q ≠ p ∧ go_Db s !! q = Some e) as Hback.
  { intros q e. destruct (decide (q = p)) as [->|Hne].
    - rewrite lookup_insert_eq. intros [= <-]. congruence.
    - by rewrite lookup_insert_ne by done. }
  split; simpl.
  - destruct (inv_heap _ HI) as [F1 F2 F3 F4]. split; simpl; intros x Hx; eauto.
    + rewrite lookup_insert_ne by lia. apply F1. lia.
    + apply F2. lia.
    + destruct (Hsub x) as [->| ->]; eauto.
  - intros q e Hq Hoe. destruct (Hback q e Hq Hoe) as [Hne Hq']. eauto.
  - intros q q' e e' Hq Hq' Hoe Hoe' Heq.
    destruct (Hback q e Hq Hoe) as [_ ?]. destruct (Hback q' e' Hq' Hoe') as [_ ?].
    eapply (inv_handle_inj _ HI q q' e e'); eassumption.
  - intros q e Hq Hoe. destruct (decide (q = p)) as [->|Hne].
    + rewrite lookup_insert_eq in Hq. by injection Hq as <-.
    + rewrite lookup_insert_ne in Hq by done. exact (inv_closed _ HI q e Hq Hoe).
  - intros q e Hq. destruct (decide (q = p)) as [->|Hne].
    + rewrite lookup_insert_eq in Hq. by injection Hq as <-.
    + rewrite lookup_insert_ne in Hq by done. exact (inv_next _ HI q e Hq).
  - intros q e k a Hq Ha. destruct (decide (q = p)) as [->|Hne].
    + rewrite lookup_insert_eq in Hq. injection Hq as <-.
      rewrite Hm in Ha. by rewrite lookup_empty in Ha.
    + rewrite lookup_insert_ne in Hq by done. exact (inv_child _ HI q e k a Hq Ha).
  - intros a i Ha Hoi.
    destruct (Inv_owner s a i HI Ha Hoi) as (q & e & Hq & He & Hk & Hoe & Hc).
    split; [done|]. exists q, e. repeat split; try done.
    rewrite lookup_insert_ne; [done|]. intros <-.
    specialize (Hold e He). congruence.
  - apply (inv_cursor_inj _ HI).
  - exact Hfin.
Qed.

Lemma Inv_new_Db s : Inv s → Inv (after_new_Db s).
Proof.
  intros HI. unfold after_new_Db. apply Inv_store_Db_closed; try done; try lia.
  - intros e He. rewrite (go_Db_fresh _ (inv_heap _ HI)) in He; [done|lia].
  - intros q Hq. pose proof (inv_finalizers _ HI q Hq). lia.
  - eauto.
  - intros q e Hq Ho. exact (inv_handle _ HI q e Hq Ho).
Qed.

(** No open connection owns a handle at or above the allocation mark. *)
Lemma Inv_handle_below s q e :
  Inv s → go_Db s !! q = Some e → Db.opened e = true → Db.db e < c_brk s.
Proof.
  intros HI Hq Ho. apply (c_dbxml_below _ _ (inv_heap _ HI)).
  exact (inv_handle _ HI q e Hq Ho).
Qed.

Lemma Inv_open_failed s s1 h :
  Inv s → grown_db (after_new_Db s) s1 h → Inv (open_failed (go_brk s) h s1).
Proof.
  intros HI Hg. pose proof (Inv_new_Db s HI) as HI0.
  pose proof (Inv_grown_db _ _ _ Hg HI0) as HI1.
  pose proof Hg as [G1 G2 G3 G4 G5 G6 G7 G8]. simpl in *.
  unfold open_failed. apply Inv_store_Db_closed; try done; try lia.
  - intros e. rewrite G1, lookup_insert_eq. by intros [= <-].
  - apply (inv_finalizers _ HI1).
  - intros x. destruct (decide (x = h)) as [->|Hne].
    + left. apply lookup_delete_eq.
    + right. by apply lookup_delete_ne.
  - intros q e Hq Ho. rewrite lookup_delete_ne; [exact (inv_handle _ HI1 q e Hq Ho)|].
    intros Heq. pose proof (Inv_handle_below _ q e HI1 Hq Ho) as Hlt.
    assert (Db.db e ≠ h); [|congruence].
    destruct (decide (q = go_brk s)) as [->|Hne].
    + rewrite G1, lookup_insert_eq in Hq. by injection Hq as <-.
    + rewrite G1, lookup_insert_ne in Hq by done.
      pose proof (Inv_handle_below _ q e HI Hq Ho). lia.
Qed.

Lemma Inv_open_done s s1 h :
  Inv s → grown_db (after_new_Db s) s1 h → Inv (open_done (go_brk s) h s1).
Proof.
  intros HI Hg. pose proof (Inv_new_Db s HI) as HI0.
  pose proof (Inv_grown_db _ _ _ Hg HI0) as HI1.
  pose proof Hg as [G1 G2 G3 G4 G5 G6 G7 G8]. simpl in *.
  set (a := go_brk s) in *.
  assert (go_Db s1 !! a = Some Db.zero) as Ha by (rewrite G1; apply lookup_insert_eq).
  assert (∀ q e, go_Db s1 !! q = Some e → Db.opened e = true →
            q ≠ a ∧ Db.db e ≠ h) as Hother.
  { intros q e Hq Ho. split; [intros ->; rewrite Ha in Hq; by injection Hq as <-|].
    destruct (decide (q = a)) as [->|Hne].
    + rewrite Ha in Hq. by injection Hq as <-.
    + rewrite G1, lookup_insert_ne in Hq by done.
      pose proof (Inv_handle_below _ q e HI Hq Ho). lia. }
  assert (∀ q e, <[a := Db.mk true h 0 ∅]> (go_Db s1) !! q = Some e →
            Db.opened e = true →
            (q = a ∧ e = Db.mk true h 0 ∅) ∨ (q ≠ a ∧ go_Db s1 !! q = Some e)) as Hback.
  { intros q e. destruct (decide (q = a)) as [->|Hne].
    - rewrite lookup_insert_eq. intros [= <-]. by left.
    - rewrite lookup_insert_ne by done. by right. }
  unfold open_done. split; simpl.
  - destruct (inv_heap _ HI1) as [F1 F2 F3 F4]. split; simpl; intros x Hx; eauto.
    rewrite lookup_insert_ne; [eauto|]. intros ->. rewrite F1 in Ha; done.
  - intros q e Hq Ho. destruct (Hback q e Hq Ho) as [[-> ->]|[Hne Hq']].
    + simpl. apply elem_of_dom. rewrite G7. apply elem_of_union_l, elem_of_singleton.
      done.
    + exact (inv_handle _ HI1 q e Hq' Ho).
  - intros q q' e e' Hq Hq' Ho Ho' Heq.
    destruct (Hback q e Hq Ho) as [[-> ->]|[Hne Hq1]];
      destruct (Hback q' e' Hq' Ho') as [[-> ->]|[Hne' Hq1']]; try done.
    + simpl in Heq. destruct (Hother q' e' Hq1' Ho') as [_ []]. done.
    + simpl in Heq. destruct (Hother q e Hq1 Ho) as [_ []]. done.
    + exact (inv_handle_inj _ HI1 q q' e e' Hq1 Hq1' Ho Ho' Heq).
  - intros q e Hq Ho. destruct (decide (q = a)) as [->|Hne].
    + rewrite lookup_insert_eq in Hq. by injection Hq as <-.
    + rewrite lookup_insert_ne in Hq by done. exact (inv_closed _ HI1 q e Hq Ho).
  - intros q e Hq. destruct (decide (q = a)) as [->|Hne].
    + rewrite lookup_insert_eq in Hq. injection Hq as <-. reflexivity.
    + rewrite lookup_insert_ne in Hq by done. exact (inv_next _ HI1 q e Hq).
  - intros q e k b Hq Hb. destruct (decide (q = a)) as [->|Hne].
    + rewrite lookup_insert_eq in Hq. injection Hq as <-. simpl in Hb.
      by rewrite lookup_empty in Hb.
    + rewrite lookup_insert_ne in Hq by done. exact (inv_child _ HI1 q e k b Hq Hb).
  - intros b i Hb Hoi.
    destruct (Inv_owner s1 b i HI1 Hb Hoi) as (q & e & Hq & He & Hk & Hoe & Hc).
    split; [done|]. exists q, e. repeat split; try done.
    rewrite lookup_insert_ne; [done|]. intros <-.
    rewrite Ha in He. by injection He as <-.
  - apply (inv_cursor_inj _ HI1).
  - intros q. rewrite elem_of_union, elem_of_singleton. intros [->|Hq].
    + unfold a. lia.
    + exact (inv_finalizers _ HI1 q Hq).
Qed.

Lemma heap_ok_new_Db s : heap_ok s → heap_ok (after_new_Db s).
Proof.
  intros [F1 F2 F3 F4]. split; simpl; intros x Hx; eauto.
  - rewrite lookup_insert_ne by lia. apply F1. lia.
  - apply F2. lia.
Qed.

Lemma later_opened s s1 h d tr fin heap :
  grown_db (after_new_Db s) s1 h →
  (∀ x, heap !! x = None ∨ heap !! x = c_dbxml_heap s1 !! x) →
  later s (mkState _ (world s1) heap (c_docs_heap s1) (c_brk s1)
             (<[go_brk s := d]> (go_Db s1)) (go_Docs s1) (go_brk s1) fin tr).
Proof.
  intros Hg Hheap. pose proof Hg as [G1 G2 G3 G4 G5 G6 G7 G8]. simpl in *.
  split; simpl.
  - intros Hok. pose proof Hok as [F1 F2 F3 F4].
    pose proof (heap_ok_grown_db _ _ _ Hg (heap_ok_new_Db s Hok)) as [_ _ F3' _].
    split; simpl; intros x Hx; eauto.
    + rewrite G1, !lookup_insert_ne by lia. apply F1. lia.
    + rewrite G2. apply F2. lia.
    + destruct (Hheap x) as [->| ->]; eauto.
    + apply not_elem_of_dom. rewrite G8. apply not_elem_of_dom. apply F4. lia.
  - intros _ b j. by rewrite G2.
  - intros Hok p e Hp Ho. pose proof (go_Db_below _ _ _ Hok Hp).
    rewrite G1, !lookup_insert_ne by lia. eauto.
Qed.

Lemma keeps_answering R `{!Reflexive R, !Transitive R} {A} (f : A → answer) (m : M A) :
  keeps R m → keeps R (answering f m).
Proof.
  intros Hm. unfold answering. apply keeps_bind; [apply _ .. | done |].
  intros a. by apply keeps_ret.
Qed.

Lemma answering_inv {A} (f : A → answer) (m : M A) s r s' :
  answering f m s = Ok r s' → ∃ a, m s = Ok a s' ∧ r = f a.
Proof.
  unfold answering, mbind, M_bind. destruct (m s) as [a s1| |]; try done.
  intros [= <- <-]. eauto.
Qed.

Lemma keeps_later_Db_All db : keeps later (Db_All db).
Proof.
  intros s. unfold post.
  destruct (go_Db s !! db) as [d|] eqn:Hd; cycle 1.
  { unfold Db_All, mbind, M_bind. rewrite new_Docs_run. unfold load_Db. simpl.
    by rewrite Hd. }
  destruct (Db.opened d) eqn:Ho.
  - rewrite (Db_All_open db d s) by done.
    pose proof (c_dbxml_get_all_grows (Db.db d) (after_new_Docs s)) as Hg.
    unfold post in Hg.
    destruct (c_dbxml_get_all (Db.db d) (after_new_Docs s)) as [h s1|what s1|f];
      try done.
    by eapply later_attached.
  - rewrite (Db_All_closed db d s) by done. apply later_new_Docs.
Qed.

Lemma shape_logged l s : shape s (logged l s).
Proof. by split. Qed.

Lemma keeps_later_Db_Query db q : keeps later (Db_Query db q).
Proof.
  intros s. unfold post.
  destruct (go_Db s !! db) as [d|] eqn:Hd; cycle 1.
  { unfold Db_Query, mbind, M_bind. rewrite new_Docs_run. unfold load_Db. simpl.
    by rewrite Hd. }
  destruct (Db.opened d) eqn:Ho; cycle 1.
  { rewrite (Db_Query_closed db d q s) by done. apply later_new_Docs. }
  destruct (c_dbxml_heap s !! Db.db d) as [x|] eqn:Hx; cycle 1.
  { unfold Db_Query, mbind, M_bind. rewrite new_Docs_run. unfold load_Db. simpl.
    rewrite Hd, Ho. simpl.
    unfold c_dbxml_get_query, extern_C, clear_error, mbind, M_bind, assign. simpl.
    by rewrite Hx. }
  rewrite (Db_Query_open db d q s) by eauto.
  pose proof (c_dbxml_get_query_grows (Db.db d) q (after_new_Docs s)) as Hg.
  unfold post in Hg.
  destruct (c_dbxml_get_query (Db.db d) q (after_new_Docs s)) as [h s1|what s1|f];
    try done.
  destruct (c_dbxml_heap s1 !! Db.db d) as [x1|]; [|done].
  destruct (c_dbxml_t.error x1).
  - eapply later_detached; [exact Hg | apply shape_logged].
  - by eapply later_attached.
Qed.

Lemma keeps_later_Open f : keeps later (Open f).
Proof.
  intros s. unfold post. rewrite Open_run.
  pose proof (c_dbxml_open_grows f (after_new_Db s)) as Hg. unfold post in Hg.
  destruct (c_dbxml_open f (after_new_Db s)) as [h s1|what s1|x]; try done.
  destruct (c_dbxml_heap s1 !! h) as [x|] eqn:Hx; [|done].
  destruct (c_dbxml_t.error x).
  - unfold open_failed. apply (later_opened s s1 h); [done|].
    intros y. destruct (decide (y = h)) as [->|Hne].
    + left. apply lookup_delete_eq.
    + right. by apply lookup_delete_ne.
  - unfold open_done. apply (later_opened s s1 h); [done|]. eauto.
Qed.

Lemma keeps_later_run c : keeps later (run c).
Proof.
  destruct c; simpl; apply keeps_answering; try apply _.
  - apply keeps_later_Open.
  - apply keeps_later_Db_Close.
  - apply keeps_later_of_shape, keeps_shape_Db_PutFile.
  - apply keeps_later_of_shape, keeps_shape_Db_PutXml.
  - apply keeps_later_of_shape, keeps_shape_Db_Merge.
  - apply keeps_later_of_shape, keeps_shape_Db_Remove.
  - apply keeps_later_of_shape, keeps_shape_Db_Get.
  - apply keeps_later_of_shape, keeps_shape_Db_Size.
  - apply keeps_later_Db_All.
  - apply keeps_later_Db_Query.
  - apply keeps_later_Docs_Next.
  - apply keeps_later_of_shape, keeps_shape_Docs_Name.
  - apply keeps_later_of_shape, keeps_shape_Docs_Content.
  - apply keeps_later_Docs_close.
Qed.

(** What is final stays so over any number of calls. *)
Lemma run_all_later cs : ∀ s s', run_all cs s = Some s' → later s s'.
Proof.
  induction cs as [|c cs IH]; intros s s'; simpl.
  - intros [= <-]. reflexivity.
  - pose proof (keeps_later_run c s) as Hc. unfold post in Hc.
    destruct (run c s) as [a s1| |]; try done.
    intros Hrest. etrans; [exact Hc | by apply IH].
Qed.

Lemma steady_same s s' : go_Db s' = go_Db s → steady s s'.
Proof. intros Heq p d'. rewrite Heq. intros Hp. right. exists d'. split; [done|lia]. Qed.

Lemma steady_insert s s' p d d' :
  go_Db s' = <[p := d']> (go_Db s) → go_Db s !! p = Some d →
  Db.next d' ≤ Db.next d + 1 → steady s s'.
Proof.
  intros Heq Hp Hle q e. rewrite Heq. destruct (decide (q = p)) as [->|Hne].
  - rewrite lookup_insert_eq. intros [= <-]. right. eauto.
  - rewrite lookup_insert_ne by done. intros Hq. right. exists e. split; [done|lia].
Qed.

Lemma uint64_incr_le n : uint64_incr n ≤ n + 1.
Proof. unfold uint64_incr. apply N.Div0.mod_le. Qed.

Lemma run_shape_Inv {A} (m : M A) s a s' :
  keeps shape m → Inv s → m s = Ok a s' → Inv s' ∧ steady s s'.
Proof.
  intros Hk HI Hm. pose proof (keeps_Ok shape m s a s' Hk Hm) as Hsh.
  split; [by eapply Inv_shape|]. apply steady_same. by destruct Hsh.
Qed.

Lemma Db_Close_Inv db s u s' :
  Inv s → Db_Close db s = Ok u s' → Inv s' ∧ steady s s'.
Proof.
  intros HI Hrun. destruct (go_Db s !! db) as [d|] eqn:Hd; cycle 1.
  { unfold Db_Close, mbind, M_bind, load_Db in Hrun. by rewrite Hd in Hrun. }
  destruct (Db.opened d) eqn:Ho.
  - destruct (Db_Close_open db d s HI Hd Ho) as [Hrun' HI'].
    rewrite Hrun' in Hrun. injection Hrun as <- <-. split; [done|].
    eapply (steady_insert _ _ db d); [done | done | simpl; lia].
  - rewrite (Db_Close_closed db d s Hd Ho) in Hrun. injection Hrun as <- <-.
    split; [done | by apply steady_same].
Qed.

Lemma Docs_close_steady a s u s' :
  Inv s → Docs_close a s = Ok u s' → Inv s' ∧ steady s s'.
Proof.
  intros HI Hrun. destruct (go_Docs s !! a) as [i|] eqn:Ha; cycle 1.
  { unfold Docs_close, mbind, M_bind, load_Docs in Hrun. by rewrite Ha in Hrun. }
  destruct (Docs.opened i) eqn:Ho.
  - destruct (Inv_owner s a i HI Ha Ho) as (p & o & Hp & Hd & Hk & Hop & Hc).
    rewrite (Docs_close_open a i p o s) in Hrun by done. injection Hrun as <- <-.
    split; [by apply Inv_after_close|].
    eapply (steady_insert _ _ p o); [done | done | simpl; lia].
  - rewrite (Docs_close_closed a i s Ha Ho) in Hrun. injection Hrun as <- <-.
    split; [done | by apply steady_same].
Qed.

Lemma Docs_Next_Inv a s b s' :
  Inv s → Docs_Next a s = Ok b s' → Inv s' ∧ steady s s'.
Proof.
  intros HI Hrun. destruct (go_Docs s !! a) as [i|] eqn:Ha; cycle 1.
  { unfold Docs_Next, mbind, M_bind, load_Docs in Hrun. by rewrite Ha in Hrun. }
  destruct (Docs.opened i) eqn:Ho; cycle 1.
  { rewrite (Docs_Next_closed a i s Ha Ho) in Hrun. injection Hrun as <- <-.
    split; [done | by apply steady_same]. }
  destruct (Inv_owner s a i HI Ha Ho) as (p & o & Hp & Hd & Hk & Hop & Hc).
  rewrite (Docs_Next_open a i p o s) in Hrun by done.
  pose proof (keeps_shape_c_dbxml_docs_next (Docs.docs i) (started_state a i s)) as Hsh.
  unfold post in Hsh.
  destruct (c_dbxml_docs_next (Docs.docs i) (started_state a i s))
    as [r s2|what s2|f]; try done.
  pose proof (Inv_shape _ _ Hsh (Inv_started a i s HI Ha)) as HI2.
  destruct Hsh as [S1 S2 S3 S4 S5 S6 S7]. simpl in *.
  destruct (r =? 0)%Z; injection Hrun as <- <-.
  - split.
    + apply Inv_after_close; try done.
      * rewrite S2. apply lookup_insert_eq.
      * by rewrite S1.
    + eapply (steady_insert _ _ p o); [simpl; by rewrite S1 | done | simpl; lia].
  - split; [done | by apply steady_same].
Qed.

Lemma Db_All_Inv db s r s' :
  Inv s → no_wrap s → Db_All db s = Ok r s' → Inv s' ∧ steady s s'.
Proof.
  intros HI Hnw Hrun. destruct (go_Db s !! db) as [d|] eqn:Hd; cycle 1.
  { unfold Db_All, mbind, M_bind in Hrun. rewrite new_Docs_run in Hrun.
    unfold load_Db in Hrun. simpl in Hrun. by rewrite Hd in Hrun. }
  destruct (Db.opened d) eqn:Ho; cycle 1.
  { rewrite (Db_All_closed db d s Hd Ho) in Hrun. injection Hrun as <- <-.
    split; [by apply Inv_new_Docs | by apply steady_same]. }
  rewrite (Db_All_open db d s Hd Ho) in Hrun.
  pose proof (c_dbxml_get_all_grows (Db.db d) (after_new_Docs s)) as Hg.
  unfold post in Hg.
  destruct (c_dbxml_get_all (Db.db d) (after_new_Docs s)) as [h s1|what s1|f];
    try done.
  injection Hrun as <- <-. split.
  - by eapply Inv_attached.
  - destruct Hg as [G1 G2 G3 G4 G5 G6 G7 G8]. simpl in *.
    eapply (steady_insert _ _ db d); [simpl; by rewrite G1 | done |].
    simpl. apply uint64_incr_le.
Qed.

Lemma Db_Query_Inv db q s r s' :
  Inv s → no_wrap s → Db_Query db q s = Ok r s' → Inv s' ∧ steady s s'.
Proof.
  intros HI Hnw Hrun. destruct (go_Db s !! db) as [d|] eqn:Hd; cycle 1.
  { unfold Db_Query, mbind, M_bind in Hrun. rewrite new_Docs_run in Hrun.
    unfold load_Db in Hrun. simpl in Hrun. by rewrite Hd in Hrun. }
  destruct (Db.opened d) eqn:Ho; cycle 1.
  { rewrite (Db_Query_closed db d q s Hd Ho) in Hrun. injection Hrun as <- <-.
    split; [by apply Inv_new_Docs | by apply steady_same]. }
  rewrite (Db_Query_open db d q s Hd Ho) in Hrun
    by exact (inv_handle _ HI db d Hd Ho).
  pose proof (c_dbxml_get_query_grows (Db.db d) q (after_new_Docs s)) as Hg.
  unfold post in Hg.
  destruct (c_dbxml_get_query (Db.db d) q (after_new_Docs s)) as [h s1|what s1|f];
    try done.
  destruct (c_dbxml_heap s1 !! Db.db d) as [x1|]; [|done].
  pose proof Hg as [G1 G2 G3 G4 G5 G6 G7 G8]. simpl in *.
  destruct (c_dbxml_t.error x1); injection Hrun as <- <-.
  - split.
    + eapply Inv_detached; [done | exact Hg | apply shape_logged].
    + apply steady_same. simpl. done.
  - split.
    + by eapply Inv_attached.
    + eapply (steady_insert _ _ db d); [simpl; by rewrite G1 | done |].
      simpl. apply uint64_incr_le.
Qed.

Lemma Open_Inv f s r s' :
  Inv s → Open f s = Ok r s' → Inv s' ∧ steady s s'.
Proof.
  intros HI Hrun. rewrite Open_run in Hrun.
  pose proof (c_dbxml_open_grows f (after_new_Db s)) as Hg. unfold post in Hg.
  destruct (c_dbxml_open f (after_new_Db s)) as [h s1|what s1|x]; try done.
  destruct (c_dbxml_heap s1 !! h) as [x|] eqn:Hx; [|done].
  pose proof Hg as [G1 G2 G3 G4 G5 G6 G7 G8]. simpl in *.
  assert (∀ d', Db.next d' = 0 →
            steady s (mkState _ (world s1) (c_dbxml_heap s1) (c_docs_heap s1)
                        (c_brk s1) (<[go_brk s := d']> (go_Db s1)) (go_Docs s1)
                        (go_brk s1) (finalizers s1) (trace s1))) as Hst.
  { intros d' Hz q e. simpl. rewrite G1, insert_insert_eq.
    destruct (decide (q = go_brk s)) as [->|Hne].
    - rewrite lookup_insert_eq. intros [= <-]. by left.
    - rewrite lookup_insert_ne by done. intros Hq. right. exists e.
      split; [done|lia]. }
  destruct (c_dbxml_t.error x); injection Hrun as <- <-.
  - split; [by eapply Inv_open_failed|]. exact (Hst (Db.mk false h 0 ∅) eq_refl).
  - split; [by eapply Inv_open_done|]. exact (Hst (Db.mk true h 0 ∅) eq_refl).
Qed.

(** Every call that returns keeps the invariant, as long as no counter
    wraps. *)
Lemma run_Inv c s r s' :
  Inv s → no_wrap s → run c s = Ok r s' → Inv s' ∧ steady s s'.
Proof.
  intros HI Hnw Hrun. destruct c; simpl in Hrun;
    apply answering_inv in Hrun as (x & Hrun & _).
  - by eapply Open_Inv.
  - by eapply Db_Close_Inv.
  - eapply run_shape_Inv; [apply keeps_shape_Db_PutFile | done | done].
  - eapply run_shape_Inv; [apply keeps_shape_Db_PutXml | done | done].
  - eapply run_shape_Inv; [apply keeps_shape_Db_Merge | done | done].
  - eapply run_shape_Inv; [apply keeps_shape_Db_Remove | done | done].
  - eapply run_shape_Inv; [apply keeps_shape_Db_Get | done | done].
  - eapply run_shape_Inv; [apply keeps_shape_Db_Size | done | done].
  - by eapply Db_All_Inv.
  - by eapply Db_Query_Inv.
  - by eapply Docs_Next_Inv.
  - eapply run_shape_Inv; [apply keeps_shape_Docs_Name | done | done].
  - eapply run_shape_Inv; [apply keeps_shape_Docs_Content | done | done].
  - by eapply Docs_close_steady.
Qed.

Lemma reach_Inv n s :
  reach n s → N.of_nat n < uint64_modulus → Inv s ∧ bounded n s.
Proof.
  induction 1 as [w|n s c a s' Hreach IH Hrun]; intros Hn.
  - split; [apply Inv_init|]. intros p d. simpl. by rewrite lookup_empty.
  - destruct IH as [HI Hb]; [lia|].
    assert (no_wrap s) as Hnw.
    { intros p d Hp. specialize (Hb p d Hp). lia. }
    destruct (run_Inv c s a s' HI Hnw Hrun) as [HI' Hst].
    split; [done|]. intros p d' Hp.
    destruct (Hst p d' Hp) as [->|(d & Hd & Hle)]; [lia|].
    specialize (Hb p d Hd). lia.
Qed.


End lemmas_4.

(** ** Closed connections *)

Section closed_connections.
Context `{E : DbXml}.

Lemma reach_run_all cs : ∀ n s s',
  reach n s → run_all cs s = Some s' → reach (n + length cs) s'.
Proof.
  induction cs as [|c cs IH]; intros n s s' Hr; simpl.
  - intros [= <-]. by rewrite Nat.add_0_r.
  - destruct (run c s) as [a s1| |] eqn:Hc; try done.
    intros Hrest. rewrite Nat.add_succ_r.
    apply (IH (S n) s1 s'); [|done]. by eapply reach_call.
Qed.

Lemma reach_heap_ok n s : reach n s → heap_ok s.
Proof.
  induction 1 as [w|n s c a s' Hr IH Hc]; [apply heap_ok_init|].
  exact (later_heap _ _ (keeps_Ok later _ _ _ _ (keeps_later_run c) Hc) IH).
Qed.

Lemma Db_Close_closes db s u s' :
  Db_Close db s = Ok u s' →
  ∃ d, go_Db s' !! db = Some d ∧ Db.opened d = false.
Proof.
  unfold Db_Close. intros Hrun.
  apply bind_inv in Hrun as (d & s0 & Hload & Hrun).
  apply load_Db_inv in Hload as [Hd ->].
  destruct (Db.opened d) eqn:Ho.
  - apply bind_inv in Hrun as (? & s1 & _ & Hrun).
    apply bind_inv in Hrun as (d1 & s2 & _ & Hrun).
    apply bind_inv in Hrun as (? & s3 & _ & Hrun).
    apply store_Db_inv in Hrun as (d3 & Hd3 & ->). simpl.
    rewrite lookup_insert_eq. by eexists.
  - apply ret_inv in Hrun as [_ ->]. eauto.
Qed.

Lemma closed_refuses db d c s :
  go_Db s !! db = Some d → Db.opened d = false → operation_on db c = true →
  ∃ r s', run c s = Ok r s' ∧ error_of r = Some errclosed ∧ untouched s s'.
Proof.
  intros Hd Ho Hc.
  destruct c; simpl in Hc; try done; apply bool_decide_eq_true in Hc as ->;
    simpl; unfold answering, mbind, M_bind.
  - unfold Db_PutFile, mbind, M_bind, load_Db. rewrite Hd, Ho. simpl.
    by eexists _, _.
  - unfold Db_PutXml, mbind, M_bind, load_Db. rewrite Hd, Ho. simpl.
    by eexists _, _.
  - unfold Db_Merge, mbind, M_bind, load_Db. rewrite Hd, Ho. simpl.
    by eexists _, _.
  - unfold Db_Remove, mbind, M_bind, load_Db. rewrite Hd, Ho. simpl.
    by eexists _, _.
  - unfold Db_Get, mbind, M_bind, load_Db. rewrite Hd, Ho. simpl.
    by eexists _, _.
  - unfold Db_Size, mbind, M_bind, load_Db. rewrite Hd, Ho. simpl.
    by eexists _, _.
  - rewrite (Db_All_closed db d s Hd Ho). simpl. by eexists _, _.
  - rewrite (Db_Query_closed db d _ s Hd Ho). simpl. by eexists _, _.
Qed.

(** C2. Once [Close] has been called on a connection, then after any
    further calls every operation of that connection other than [Close]
    returns [errclosed], and does so without entering the native layer. *)
Theorem closed_connection_refuses (n : nat) (s s1 s2 : State) (db : N)
    (cs : list call) (c : call) :
  reach n s → Db_Close db s = Ok tt s1 → run_all cs s1 = Some s2 →
  operation_on db c = true →
  ∃ r s3, run c s2 = Ok r s3 ∧ error_of r = Some errclosed ∧ untouched s2 s3.
Proof.
  intros Hr Hclose Hcs Hc.
  pose proof (reach_heap_ok n s Hr) as Hok.
  destruct (Db_Close_closes db s tt s1 Hclose) as (d & Hd & Ho).
  pose proof (keeps_Ok later _ _ _ _ (keeps_later_Db_Close db) Hclose) as L1.
  pose proof (run_all_later cs s1 s2 Hcs) as L2.
  destruct (later_Db _ _ L2 (later_heap _ _ L1 Hok) db d Hd Ho) as (d' & Hd' & Ho').
  by eapply closed_refuses.
Qed.

End closed_connections.

(** ** Closing a connection, and unstarted iterators *)

Section forced_closure.
Context `{E : DbXml}.

Lemma Docs_close_closes a s u s' :
  Docs_close a s = Ok u s' →
  ∃ i, go_Docs s' !! a = Some i ∧ Docs.opened i = false.
Proof.
  unfold Docs_close, mbind, M_bind, load_Docs.
  destruct (go_Docs s !! a) as [i|] eqn:Ha; [|done].
  destruct (Docs.opened i) eqn:Ho; [|intros [= _ <-]; eauto].
  unfold c_dbxml_docs_free, extern_C, delete_c_dbxml_docs_t. simpl.
  destruct (c_docs_heap s !! Docs.docs i) as [x|] eqn:Hx; [|done]. simpl.
  unfold store_Docs. simpl. rewrite Ha. simpl. rewrite lookup_insert_eq. simpl.
  unfold follow. destruct (Docs.db i) as [p|]; [|done]. simpl.
  unfold store_Db. simpl.
  destruct (go_Db s !! p) as [o|] eqn:Hp; [|done]. simpl.
  rewrite lookup_insert_eq. simpl. intros [= _ <-]. simpl.
  rewrite lookup_insert_eq. by eexists.
Qed.

Lemma Docs_Close_twice a s u s' :
  Docs_Close a s = Ok u s' → Docs_Close a s' = Ok tt s'.
Proof.
  intros Hrun. destruct (Docs_close_closes a s u s' Hrun) as (i & Hi & Ho).
  by apply (Docs_close_closed a i).
Qed.

Lemma child_cursors_elem s m k a i : ∀ n id,
  m !! k = Some a → go_Docs s !! a = Some i →
  id ≤ k → k < id + N.of_nat n →
  Docs.docs i ∈ child_cursors s m id n.
Proof.
  induction n as [|n IH]; intros id Hk Ha Hle Hlt; [lia|]. simpl.
  destruct (decide (k = id)) as [->|Hne].
  - rewrite Hk, Ha. apply elem_of_app. left. apply list_elem_of_singleton. done.
  - apply elem_of_app. right. apply IH; try done; lia.
Qed.

Lemma foldl_delete_elem {A} (l : list N) : ∀ (m : gmap N A) h,
  h ∈ l → foldl (λ m h, delete h m) m l !! h = None.
Proof.
  induction l as [|x l IH]; intros m h Hin; [by apply elem_of_nil in Hin|].
  simpl. destruct (decide (h ∈ l)) as [Hl|Hl]; [by apply IH|].
  apply elem_of_cons in Hin as [->|]; [|done].
  clear IH. revert m. induction l as [|y l IH]; intros m; simpl.
  - apply lookup_delete_eq.
  - apply not_elem_of_cons in Hl as [Hne Hl].
    rewrite delete_delete. by apply IH.
Qed.

Lemma foldl_delete_other {A} (l : list N) : ∀ (m : gmap N A) h,
  h ∉ l → foldl (λ m h, delete h m) m l !! h = m !! h.
Proof.
  induction l as [|x l IH]; intros m h Hin; [done|].
  apply not_elem_of_cons in Hin as [Hne Hl]. simpl.
  rewrite IH by done. by apply lookup_delete_ne.
Qed.

(** C1. [Close] on an open connection closes every iterator in [docss],
    whatever its state, then releases the native handle and marks the
    connection closed; a second [Close], on a connection or on an iterator,
    changes nothing and returns. *)
Theorem Close_forces_children (n : nat) (s : State) (db : N) (d : Db.t) :
  reach n s → N.of_nat n < uint64_modulus →
  go_Db s !! db = Some d → Db.opened d = true →
  ∃ s',
    Db_Close db s = Ok tt s' ∧
    (∀ k a, Db.docss d !! k = Some a →
       ∃ i, go_Docs s !! a = Some i ∧
            go_Docs s' !! a = Some (closed_Docs i) ∧
            Docs.docs i ∈ cursors_of s d ∧
            c_docs_heap s' !! Docs.docs i = None) ∧
    trace s' = (trace s ++ map (λ h, Enter (F_docs_free h)) (cursors_of s d)
                        ++ [Enter (F_free (Db.db d))])%list ∧
    c_dbxml_heap s' !! Db.db d = None ∧
    go_Db s' !! db = Some (Db.mk false (Db.db d) (Db.next d) ∅) ∧
    Db_Close db s' = Ok tt s' ∧
    (∀ a t u t', Docs_Close a t = Ok u t' → Docs_Close a t' = Ok tt t').
Proof.
  intros Hr Hn Hd Ho. destruct (reach_Inv n s Hr Hn) as [HI _].
  destruct (Db_Close_open db d s HI Hd Ho) as [Hrun HI'].
  exists (after_Db_Close db d s). split; [done|].
  assert (go_Db (after_Db_Close db d s) !! db =
          Some (Db.mk false (Db.db d) (Db.next d) ∅)) as Hd'
    by (simpl; apply lookup_insert_eq).
  repeat split.
  - intros k a Hk.
    destruct (inv_child _ HI db d k a Hd Hk) as (Hlt & i & Hi & Hoi & Hpi & Hki).
    assert (Docs.docs i ∈ cursors_of s d) as Hin.
    { apply (child_cursors_elem s _ k a i); try done; lia. }
    exists i. repeat split; try done.
    + simpl. rewrite lookup_fmap, Hi. simpl. f_equal. unfold close_of.
      rewrite Hoi, Hpi. simpl. by rewrite bool_decide_eq_true_2.
    + simpl. by apply foldl_delete_elem.
  - simpl. apply lookup_delete_eq.
  - done.
  - by apply (Db_Close_closed db _ _ Hd').
  - intros a t u t'. apply Docs_Close_twice.
Qed.

Lemma unstarted_same a s s' : go_Docs s' = go_Docs s → unstarted a s → unstarted a s'.
Proof. intros Heq (i & Hi & Hs). exists i. by rewrite Heq. Qed.

Lemma unstarted_insert a b j s s' :
  go_Docs s' = <[b := j]> (go_Docs s) →
  (b = a → ∀ i, go_Docs s !! a = Some i → Docs.started j = Docs.started i) →
  unstarted a s → unstarted a s'.
Proof.
  intros Heq Hj (i & Hi & Hs). unfold unstarted. rewrite Heq.
  destruct (decide (b = a)) as [->|Hne].
  - exists j. rewrite lookup_insert_eq. split; [done|]. by rewrite (Hj eq_refl i Hi).
  - exists i. by rewrite lookup_insert_ne.
Qed.

(** Only [Next] on the iterator itself sets [started]. *)
Lemma unstarted_run a c r s s' :
  Inv s → run c s = Ok r s' → c ≠ Call_Next a → unstarted a s → unstarted a s'.
Proof.
  intros HI Hrun Hc Hu.
  assert (∀ {A} (m : M A) x, keeps shape m → m s = Ok x s' → unstarted a s') as Hshape.
  { intros A m x Hk Hm. apply (unstarted_same a s); [|done].
    by destruct (keeps_Ok shape m s x s' Hk Hm). }
  assert (go_brk s ≠ a) as Hfresh.
  { intros <-. destruct Hu as (i & Hi & _).
    rewrite (go_Docs_fresh _ (inv_heap _ HI)) in Hi; [done | lia]. }
  destruct c; simpl in Hrun; apply answering_inv in Hrun as (x & Hrun & ->).
  - (* Open *)
    rewrite Open_run in Hrun.
    pose proof (c_dbxml_open_grows filename (after_new_Db s)) as Hg. unfold post in Hg.
    destruct (c_dbxml_open filename (after_new_Db s)) as [h s1|what s1|y]; try done.
    destruct (c_dbxml_heap s1 !! h) as [y|] eqn:Hy; [|done].
    destruct Hg as [G1 G2 G3 G4 G5 G6 G7 G8]. simpl in *.
    destruct (c_dbxml_t.error y); injection Hrun as <- <-;
      by apply (unstarted_same a s).
  - (* Close *)
    destruct (go_Db s !! db) as [d|] eqn:Hd; cycle 1.
    { unfold Db_Close, mbind, M_bind, load_Db in Hrun. by rewrite Hd in Hrun. }
    destruct (Db.opened d) eqn:Ho.
    + destruct (Db_Close_open db d s HI Hd Ho) as [Hrun' _].
      rewrite Hrun' in Hrun. injection Hrun as <- <-.
      destruct Hu as (i & Hi & Hs). exists (close_of db i). simpl.
      rewrite lookup_fmap, Hi. split; [done|]. unfold close_of.
      by destruct (Docs.opened i && bool_decide (Docs.db i = Some db)).
    + rewrite (Db_Close_closed db d s Hd Ho) in Hrun. by injection Hrun as <- <-.
  - eapply Hshape; [apply keeps_shape_Db_PutFile | done].
  - eapply Hshape; [apply keeps_shape_Db_PutXml | done].
  - eapply Hshape; [apply keeps_shape_Db_Merge | done].
  - eapply Hshape; [apply keeps_shape_Db_Remove | done].
  - eapply Hshape; [apply keeps_shape_Db_Get | done].
  - eapply Hshape; [apply keeps_shape_Db_Size | done].
  - (* All *)
    destruct (go_Db s !! db) as [d|] eqn:Hd; cycle 1.
    { unfold Db_All, mbind, M_bind in Hrun. rewrite new_Docs_run in Hrun.
      unfold load_Db in Hrun. simpl in Hrun. by rewrite Hd in Hrun. }
    destruct (Db.opened d) eqn:Ho; cycle 1.
    { rewrite (Db_All_closed db d s Hd Ho) in Hrun. injection Hrun as <- <-.
      by apply (unstarted_insert a (go_brk s) Docs.zero s). }
    rewrite (Db_All_open db d s Hd Ho) in Hrun.
    pose proof (c_dbxml_get_all_grows (Db.db d) (after_new_Docs s)) as Hg.
    unfold post in Hg.
    destruct (c_dbxml_get_all (Db.db d) (after_new_Docs s)) as [h s1|what s1|f];
      try done.
    injection Hrun as <- <-.
    destruct Hg as [G1 G2 G3 G4 G5 G6 G7 G8]. simpl in *.
    eapply (unstarted_insert a (go_brk s) _ s); [|done|done].
    simpl. by rewrite G2, !insert_insert_eq.
  - (* Query *)
    destruct (go_Db s !! db) as [d|] eqn:Hd; cycle 1.
    { unfold Db_Query, mbind, M_bind in Hrun. rewrite new_Docs_run in Hrun.
      unfold load_Db in Hrun. simpl in Hrun. by rewrite Hd in Hrun. }
    destruct (Db.opened d) eqn:Ho; cycle 1.
    { rewrite (Db_Query_closed db d _ s Hd Ho) in Hrun. injection Hrun as <- <-.
      by apply (unstarted_insert a (go_brk s) Docs.zero s). }
    rewrite (Db_Query_open db d _ s Hd Ho) in Hrun
      by exact (inv_handle _ HI db d Hd Ho).
    pose proof (c_dbxml_get_query_grows (Db.db d) query_ (after_new_Docs s)) as Hg.
    unfold post in Hg.
    destruct (c_dbxml_get_query (Db.db d) query_ (after_new_Docs s))
      as [h s1|what s1|f]; try done.
    destruct (c_dbxml_heap s1 !! Db.db d) as [x1|]; [|done].
    destruct Hg as [G1 G2 G3 G4 G5 G6 G7 G8]. simpl in *.
    destruct (c_dbxml_t.error x1); injection Hrun as <- <-;
      (eapply (unstarted_insert a (go_brk s) _ s); [|done|done]);
      simpl; by rewrite G2, !insert_insert_eq.
  - (* Next *)
    assert (docs ≠ a) as Hne by congruence.
    destruct (go_Docs s !! docs) as [i|] eqn:Ha; cycle 1.
    { unfold Docs_Next, mbind, M_bind, load_Docs in Hrun. by rewrite Ha in Hrun. }
    destruct (Docs.opened i) eqn:Ho; cycle 1.
    { rewrite (Docs_Next_closed docs i s Ha Ho) in Hrun. by injection Hrun as <- <-. }
    destruct (Inv_owner s docs i HI Ha Ho) as (p & o & Hp & Hd & Hk & Hop & Hcur).
    rewrite (Docs_Next_open docs i p o s) in Hrun by done.
    pose proof (keeps_shape_c_dbxml_docs_next (Docs.docs i) (started_state docs i s))
      as Hsh. unfold post in Hsh.
    destruct (c_dbxml_docs_next (Docs.docs i) (started_state docs i s))
      as [r s2|what s2|f]; try done.
    destruct Hsh as [S1 S2 S3 S4 S5 S6 S7]. simpl in *.
    destruct (r =? 0)%Z; injection Hrun as <- <-.
    + eapply (unstarted_insert a docs _ s); [|done|done].
      simpl. by rewrite S2, insert_insert_eq.
    + by eapply (unstarted_insert a docs _ s).
  - eapply Hshape; [apply keeps_shape_Docs_Name | done].
  - eapply Hshape; [apply keeps_shape_Docs_Content | done].
  - (* Docs.Close *)
    destruct (go_Docs s !! docs) as [i|] eqn:Ha; cycle 1.
    { unfold Docs_Close, Docs_close, mbind, M_bind, load_Docs in Hrun.
      by rewrite Ha in Hrun. }
    destruct (Docs.opened i) eqn:Ho; cycle 1.
    { unfold Docs_Close in Hrun.
      rewrite (Docs_close_closed docs i s Ha Ho) in Hrun. by injection Hrun as <- <-. }
    destruct (Inv_owner s docs i HI Ha Ho) as (p & o & Hp & Hd & Hk & Hop & Hcur).
    unfold Docs_Close in Hrun.
    rewrite (Docs_close_open docs i p o s) in Hrun by done.
    injection Hrun as <- <-.
    eapply (unstarted_insert a docs _ s); [done| |done].
    intros -> j Hj. rewrite Ha in Hj. by injection Hj as <-.
Qed.

(** A new iterator is not started. *)
Lemma made_unstarted c s a e s' :
  Inv s → makes_iterator c = true → run c s = Ok (A_pointer_error a e) s' →
  unstarted a s'.
Proof.
  intros HI Hc Hrun.
  destruct c; try done; simpl in Hrun;
    apply answering_inv in Hrun as ([b e'] & Hrun & [= <- <-]); simpl.
  - (* All *)
    destruct (go_Db s !! db) as [d|] eqn:Hd; cycle 1.
    { unfold Db_All, mbind, M_bind in Hrun. rewrite new_Docs_run in Hrun.
      unfold load_Db in Hrun. simpl in Hrun. by rewrite Hd in Hrun. }
    destruct (Db.opened d) eqn:Ho; cycle 1.
    { rewrite (Db_All_closed db d s Hd Ho) in Hrun. injection Hrun as <- <- <-.
      exists Docs.zero. split; [apply lookup_insert_eq | done]. }
    rewrite (Db_All_open db d s Hd Ho) in Hrun.
    destruct (c_dbxml_get_all (Db.db d) (after_new_Docs s)) as [h s1|what s1|f];
      try done.
    injection Hrun as <- <- <-.
    eexists. split; [apply lookup_insert_eq | done].
  - (* Query *)
    destruct (go_Db s !! db) as [d|] eqn:Hd; cycle 1.
    { unfold Db_Query, mbind, M_bind in Hrun. rewrite new_Docs_run in Hrun.
      unfold load_Db in Hrun. simpl in Hrun. by rewrite Hd in Hrun. }
    destruct (Db.opened d) eqn:Ho; cycle 1.
    { rewrite (Db_Query_closed db d _ s Hd Ho) in Hrun. injection Hrun as <- <- <-.
      exists Docs.zero. split; [apply lookup_insert_eq | done]. }
    rewrite (Db_Query_open db d _ s Hd Ho) in Hrun
      by exact (inv_handle _ HI db d Hd Ho).
    destruct (c_dbxml_get_query (Db.db d) query_ (after_new_Docs s))
      as [h s1|what s1|f]; try done.
    destruct (c_dbxml_heap s1 !! Db.db d) as [x1|]; [|done].
    destruct (c_dbxml_t.error x1); injection Hrun as <- <- <-;
      (eexists; split; [apply lookup_insert_eq | done]).
Qed.

Lemma unstarted_run_all a cs : ∀ n s s',
  reach n s → N.of_nat (n + length cs) < uint64_modulus →
  run_all cs s = Some s' → Call_Next a ∉ cs → unstarted a s → unstarted a s'.
Proof.
  induction cs as [|c cs IH]; intros n s s' Hr Hlt Hrun Hin Hu; simpl in Hrun.
  - by injection Hrun as <-.
  - apply not_elem_of_cons in Hin as [Hne Hin].
    destruct (run c s) as [r s1| |] eqn:Hc; try done.
    simpl in Hlt.
    destruct (reach_Inv n s Hr) as [HI _]; [lia|].
    apply (IH (S n) s1 s'); try done.
    + by eapply reach_call.
    + simpl. lia.
    + by apply (unstarted_run a c r s s1).
Qed.

(** C5. [Name] and [Content] return the empty string when [started] is not
    set or the iterator is not open; [started] is not set as long as [Next]
    has not been called on the iterator since [All] or [Query] made it;
    after [Close] on its connection, an iterator that was open has [Next]
    return false and [Name] and [Content] return the empty string. *)
Theorem Name_Content_empty (s : State) (a : N) (i : Docs.t) :
  go_Docs s !! a = Some i →
  (Docs.started i = false ∨ Docs.opened i = false →
   Docs_Name a s = Ok EmptyString s ∧ Docs_Content a s = Ok EmptyString s) ∧
  (∀ n s0 c e s1 cs,
     reach n s0 → N.of_nat (n + S (length cs)) < uint64_modulus →
     makes_iterator c = true → run c s0 = Ok (A_pointer_error a e) s1 →
     run_all cs s1 = Some s → Call_Next a ∉ cs →
     Docs.started i = false) ∧
  (∀ n db d s',
     reach n s → N.of_nat n < uint64_modulus →
     go_Db s !! db = Some d →
     Docs.opened i = true → Docs.db i = Some db →
     Db_Close db s = Ok tt s' →
     Docs_Next a s' = Ok false s' ∧
     Docs_Name a s' = Ok EmptyString s' ∧ Docs_Content a s' = Ok EmptyString s').
Proof.
  intros Ha.
  assert (∀ t j, go_Docs t !! a = Some j →
            Docs.started j = false ∨ Docs.opened j = false →
            Docs_Name a t = Ok EmptyString t ∧ Docs_Content a t = Ok EmptyString t)
    as Hempty.
  { intros t j Hj Hor. unfold Docs_Name, Docs_Content, mbind, M_bind, load_Docs.
    rewrite Hj. destruct Hor as [-> | ->]; [rewrite andb_false_r|]; done. }
  split; [by apply Hempty|]. split.
  { intros n s0 c e s1 cs Hr Hlt Hc Hrun Hall Hin.
    destruct (reach_Inv n s0 Hr) as [HI _]; [lia|].
    destruct (unstarted_run_all a cs (S n) s1 s) as (j & Hj & Hs); try done.
    - by eapply reach_call.
    - by rewrite Nat.add_succ_r in Hlt.
    - by eapply made_unstarted.
    - congruence. }
  intros n db d s' Hr Hlt Hd Hoi Hpi Hclose.
  destruct (reach_Inv n s Hr Hlt) as [HI _].
  destruct (Inv_owner s a i HI Ha Hoi) as (p & o & Hp & Hdo & Hk & Hop & Hc).
  assert (p = db) as -> by congruence. assert (o = d) as -> by congruence.
  destruct (Db_Close_open db d s HI Hd Hop) as [Hrun _].
  rewrite Hrun in Hclose. injection Hclose as <-.
  assert (go_Docs (after_Db_Close db d s) !! a = Some (closed_Docs i)) as Ha'.
  { simpl. rewrite lookup_fmap, Ha. simpl. f_equal. unfold close_of.
    rewrite Hoi, Hpi. simpl. by rewrite bool_decide_eq_true_2. }
  split; [by apply (Docs_Next_closed a (closed_Docs i))|].
  apply (Hempty _ (closed_Docs i)); [done | by right].
Qed.

End forced_closure.

(** ** Advancing an iterator *)

Section advancing.
Context `{E : DbXml}.

(** [c_dbxml_docs_next] in terms of the engine. *)
Lemma c_dbxml_docs_next_run h x s :
  c_docs_heap s !! h = Some x →
  c_dbxml_docs_next h s =
    if c_dbxml_docs_t.more x then
      match results_next (c_dbxml_docs_t.it x) (c_dbxml_docs_t.doc x) (world s) with
      | (Val (b, it', doc'), w') =>
          Ok (if b then 1 else 0)%Z
             (mkState _ w' (c_dbxml_heap s) (<[h := advanced b it' doc' x]> (c_docs_heap s))
                (c_brk s) (go_Db s) (go_Docs s) (go_brk s) (finalizers s)
                (trace s ++ [Enter (F_docs_next h); Lib L_next None]))
      | (Throw what, w') => Fault (Uncaught what)
      end
    else Ok 0%Z (set_trace (trace s ++ [Enter (F_docs_next h)]) s).
Proof.
  intros Hx.
  unfold c_dbxml_docs_next, extern_C, mbind, M_bind, deref_docs, assign_docs, lib.
  simpl. rewrite Hx. destruct (c_dbxml_docs_t.more x) eqn:Hm; simpl.
  - destruct (results_next _ _ _) as [[[[b it'] doc']|what] w']; simpl; [|done].
    rewrite Hx. simpl.
    repeat first [rewrite lookup_insert_eq | rewrite insert_insert_eq
                 | rewrite <- app_assoc | progress simpl].
    by destruct b.
  - rewrite Hx. simpl. by rewrite Hm.
Qed.


End advancing.

(** ** Queries that fail to construct *)

Section query_failures.
Context `{E : DbXml}.



End query_failures.

(** ** The iterator of a failed query *)

Section inert_iterators.
Context `{E : DbXml}.

Lemma child_cursors_inv s m h : ∀ n id,
  h ∈ child_cursors s m id n →
  ∃ k a i, m !! k = Some a ∧ go_Docs s !! a = Some i ∧ Docs.docs i = h.
Proof.
  induction n as [|n IH]; intros id; simpl; [by rewrite elem_of_nil|].
  rewrite elem_of_app. intros [Hin|Hin]; [|by eapply IH].
  destruct (m !! id) as [a|] eqn:Hk; [|by apply elem_of_nil in Hin].
  destruct (go_Docs s !! a) as [i|] eqn:Ha; [|by apply elem_of_nil in Hin].
  apply list_elem_of_singleton in Hin as ->. by exists id, a, i.
Qed.

(** C10. The iterator that [Query] returns with an error on an open
    connection is in no [docss], is not open, has no finalizer, and stays so;
    [Close] on it changes nothing; [Close] on the connection leaves it and
    its native cursor alone. *)
Theorem failed_Query_iterator_is_inert (n : nat) (s s' : State) (db a : N)
    (d : Db.t) (q : string) (e : goerror) :
  reach n s → N.of_nat n < uint64_modulus →
  go_Db s !! db = Some d → Db.opened d = true →
  Db_Query db q s = Ok (a, Some e) s' →
  ∃ i,
    go_Docs s' !! a = Some i ∧ Docs.opened i = false ∧ Docs.db i = None ∧
    (∀ p o k, go_Db s' !! p = Some o → Db.docss o !! k ≠ Some a) ∧
    (a ∉ finalizers s') ∧
    is_Some (c_docs_heap s' !! Docs.docs i) ∧
    Docs_Close a s' = Ok tt s' ∧
    (∃ d' s'',
       go_Db s' !! db = Some d' ∧
       Db_Close db s' = Ok tt s'' ∧
       go_Docs s'' !! a = Some i ∧
       is_Some (c_docs_heap s'' !! Docs.docs i) ∧
       trace s'' = (trace s' ++ map (λ h, Enter (F_docs_free h)) (cursors_of s' d')
                           ++ [Enter (F_free (Db.db d'))])%list ∧
       (Docs.docs i ∉ cursors_of s' d')) ∧
    (∀ cs t,
       run_all cs s' = Some t →
       go_Docs t !! a = Some i ∧ Docs_Close a t = Ok tt t ∧
       (N.of_nat (n + S (length cs)) < uint64_modulus →
        ∀ p o k, go_Db t !! p = Some o → Db.docss o !! k ≠ Some a)).
Proof.
  intros Hr Hlt Hd Ho Hrun. destruct (reach_Inv n s Hr Hlt) as [HI _].
  assert (reach (S n) s') as Hr'.
  { apply (reach_call n s (Call_Query db q) (A_pointer_error a (Some e)) s' Hr).
    simpl. unfold answering, mbind, M_bind. by rewrite Hrun. }
  pose proof (inv_handle _ HI db d Hd Ho) as Hlive.
  rewrite (Db_Query_open db d q s Hd Ho Hlive) in Hrun.
  pose proof (c_dbxml_get_query_grows (Db.db d) q (after_new_Docs s)) as Hg.
  unfold post in Hg.
  destruct (c_dbxml_get_query (Db.db d) q (after_new_Docs s)) as [h s1|what s1|f];
    try done.
  destruct (c_dbxml_heap s1 !! Db.db d) as [x1|] eqn:Hx1; [|done].
  destruct (c_dbxml_t.error x1); [|done].
  injection Hrun as <- _ <-.
  pose proof Hg as [G1 G2 G3 G4 G5 G6 G7 G8]. simpl in *.
  set (s' := logged _ (with_docs (go_brk s) h s1)) in *.
  assert (Inv s') as HI1.
  { eapply Inv_detached; [done | exact Hg | apply shape_logged]. }
  set (i := Docs.set_docs h Docs.zero).
  assert (go_Docs s' !! go_brk s = Some i) as Hi
    by (unfold s'; simpl; apply lookup_insert_eq).
  assert (∀ t, Inv t → go_Docs t !! go_brk s = Some i →
            ∀ p o k, go_Db t !! p = Some o → Db.docss o !! k ≠ Some (go_brk s))
    as Hfree.
  { intros t HIt Hit p o k Hp Hk.
    destruct (inv_child _ HIt p o k _ Hp Hk) as (_ & j & Hj & Hoj & _).
    rewrite Hit in Hj. by injection Hj as <-. }
  assert (is_Some (c_docs_heap s' !! h)) as Hh.
  { unfold s'. simpl. apply elem_of_dom. rewrite G8.
    apply elem_of_union_l, elem_of_singleton. done. }
  assert (go_Db s' !! db = Some d) as Hd' by (unfold s'; simpl; by rewrite G1).
  exists i. split; [done|]. split; [done|]. split; [done|].
  split; [exact (Hfree s' HI1 Hi)|]. split.
  { unfold s'. simpl. rewrite G4. intros Hin.
    pose proof (inv_finalizers _ HI _ Hin). lia. }
  split; [done|]. split; [by apply (Docs_close_closed _ i)|]. split.
  - destruct (Db_Close_open db d s' HI1 Hd' Ho) as [Hclose _].
    assert (h ∉ cursors_of s' d) as Hnot.
    { intros Hin. apply child_cursors_inv in Hin as (k & b & j & Hk & Hj & Hjh).
      destruct (inv_child _ HI db d k b Hd Hk) as (_ & j' & Hj' & Hoj' & _).
      destruct (inv_open _ HI b j' Hj' Hoj') as [Hc _].
      apply (c_docs_below _ _ (inv_heap _ HI)) in Hc.
      assert (b ≠ go_brk s) as Hne.
      { intros ->. rewrite (go_Docs_fresh _ (inv_heap _ HI)) in Hj'; [done|lia]. }
      unfold s' in Hj. simpl in Hj.
      rewrite lookup_insert_ne, G2, lookup_insert_ne in Hj by done.
      assert (j = j') as -> by congruence. lia. }
    exists d, (after_Db_Close db d s'). split; [done|]. split; [done|].
    split; [|split; [|split; [done|done]]].
    + simpl. rewrite lookup_fmap. unfold s'. simpl.
      rewrite lookup_insert_eq. done.
    + simpl. rewrite foldl_delete_other by done. done.
  - intros cs t Hcs.
    pose proof (run_all_later cs s' t Hcs) as L.
    pose proof (later_Docs _ _ L (inv_heap _ HI1) _ i Hi eq_refl) as Hit.
    split; [done|]. split; [by apply (Docs_close_closed _ i)|].
    intros Hlt'. apply (Hfree t); [|done].
    apply (reach_Inv (S n + length cs) t); [|by rewrite Nat.add_succ_r in Hlt'].
    by apply (reach_run_all cs (S n) s').
Qed.

End inert_iterators.

(** ** The registry of iterators *)

Section registry.
Context `{E : DbXml}.







End registry.

(** ** Replacing a document *)

Section replacing.
Context `{E : DbXml}.



End replacing.

(** ** Opening with fallback *)

Section opening.
Context `{E : DbXml}.

Ltac mode_solve :=
  intros ? ? ? Hin;
  repeat (apply elem_of_cons in Hin as [Hin|Hin];
          [first [discriminate Hin | by injection Hin as -> -> ->]|]);
  by apply elem_of_nil in Hin.

Lemma open_attempt_run h x f i s :
  c_dbxml_heap s !! h = Some x →
  (i = 1%nat ∨ readOnly (c_dbxml_t.config x) = false) →
  ∃ s1 x1 l,
    open_attempt h f i s = Ok tt s1 ∧
    c_dbxml_heap s1 = <[h := x1]> (c_dbxml_heap s) ∧
    trace s1 = (trace s ++ l)%list ∧
    opens_in_mode (bool_decide (i = 1%nat)) l ∧
    attempts l = 1%nat ∧
    c_docs_heap s1 = c_docs_heap s ∧ c_brk s1 = c_brk s ∧
    go_Db s1 = go_Db s ∧ go_Docs s1 = go_Docs s ∧ go_brk s1 = go_brk s ∧
    finalizers s1 = finalizers s ∧
    (i ≠ 1%nat → c_dbxml_t.config x1 = c_dbxml_t.config x).
Proof.
  intros Hx Hmode.
  unfold open_attempt, try_catch, mbind, M_bind, assign, deref, lib, log.
  repeat first [rewrite Hx | rewrite lookup_insert_eq | progress simpl].
  destruct (createUpdateContext _ _) as [[ctx|what] w1];
    repeat first [rewrite lookup_insert_eq | rewrite insert_insert_eq
                 | progress simpl].
  2: { eexists _, _, [_]. repeat split; try done. mode_solve. }
  destruct (decide (i = 1%nat)) as [->|Hi];
    repeat first [rewrite lookup_insert_eq | rewrite insert_insert_eq
                 | progress simpl].
  - destruct (existsContainer _ _ _) as [[[]|what] w2];
      repeat first [rewrite lookup_insert_eq | rewrite insert_insert_eq
                   | rewrite <- app_assoc | progress simpl].
    + destruct (openContainer _ _ _ _) as [[c|what] w3];
        repeat first [rewrite lookup_insert_eq | rewrite insert_insert_eq
                     | rewrite <- app_assoc | progress simpl].
      * destruct (addAlias _ _ _) as [[[]|what] w4];
          repeat first [rewrite lookup_insert_eq | rewrite insert_insert_eq
                       | rewrite <- app_assoc | progress simpl];
          (eexists _, _, _; repeat split; try done; mode_solve).
      * eexists _, _, _; repeat split; try done; mode_solve.
    + destruct (createContainer _ _ _) as [[c|what] w3];
        repeat first [rewrite lookup_insert_eq | rewrite insert_insert_eq
                     | rewrite <- app_assoc | progress simpl].
      * destruct (addAlias _ _ _) as [[[]|what] w4];
          repeat first [rewrite lookup_insert_eq | rewrite insert_insert_eq
                       | rewrite <- app_assoc | progress simpl];
          (eexists _, _, _; repeat split; try done; mode_solve).
      * eexists _, _, _; repeat split; try done; mode_solve.
    + eexists _, _, _; repeat split; try done; mode_solve.
  - destruct Hmode as [->|Hro]; [done|].
    rewrite (bool_decide_eq_false_2 _ Hi).
    destruct (existsContainer _ _ _) as [[[]|what] w2];
      repeat first [rewrite lookup_insert_eq | rewrite insert_insert_eq
                   | rewrite <- app_assoc | progress simpl].
    + destruct (openContainer _ _ _ _) as [[c|what] w3];
        repeat first [rewrite lookup_insert_eq | rewrite insert_insert_eq
                     | rewrite <- app_assoc | progress simpl].
      * destruct (addAlias _ _ _) as [[[]|what] w4];
          repeat first [rewrite lookup_insert_eq | rewrite insert_insert_eq
                       | rewrite <- app_assoc | progress simpl];
          (eexists _, _, _; repeat split; try done; mode_solve).
      * eexists _, _, _; repeat split; try done; mode_solve.
    + destruct (createContainer _ _ _) as [[c|what] w3];
        repeat first [rewrite lookup_insert_eq | rewrite insert_insert_eq
                     | rewrite <- app_assoc | progress simpl].
      * destruct (addAlias _ _ _) as [[[]|what] w4];
          repeat first [rewrite lookup_insert_eq | rewrite insert_insert_eq
                       | rewrite <- app_assoc | progress simpl];
          (eexists _, _, _; repeat split; try done; mode_solve).
      * eexists _, _, _; repeat split; try done; mode_solve.
    + eexists _, _, _; repeat split; try done; mode_solve.
Qed.

Lemma c_dbxml_open_run f s :
  ∃ s1 x1 l1,
    open_attempt (c_brk s) f 0 (open_entry f s) = Ok tt s1 ∧
    c_dbxml_heap s1 !! c_brk s = Some x1 ∧
    trace s1 = (trace s ++ Enter (F_open f) :: l1)%list ∧
    attempts l1 = 1%nat ∧ opens_in_mode false l1 ∧
    finalizers s1 = finalizers s ∧
    if c_dbxml_t.error x1 then
      ∃ s2 x2 l2,
        open_attempt (c_brk s) f 1 s1 = Ok tt s2 ∧
        c_dbxml_heap s2 !! c_brk s = Some x2 ∧
        trace s2 = (trace s1 ++ l2)%list ∧
        attempts l2 = 1%nat ∧ opens_in_mode true l2 ∧
        finalizers s2 = finalizers s ∧
        c_dbxml_open f (after_new_Db s) = Ok (c_brk s) s2
    else c_dbxml_open f (after_new_Db s) = Ok (c_brk s) s1.
Proof.
  destruct (open_attempt_run (c_brk s) c_dbxml_t.new f 0 (open_entry f s))
    as (s1 & x1 & l1 & R1 & H1 & T1 & M1 & A1 & _ & _ & _ & _ & _ & F1 & _).
  { apply lookup_insert_eq. }
  { by right. }
  assert (c_dbxml_heap s1 !! c_brk s = Some x1) as L1
    by (rewrite H1; apply lookup_insert_eq).
  exists s1, x1, l1. repeat split; try done.
  { rewrite T1. simpl. by rewrite <- app_assoc. }
  change (c_dbxml_open f (after_new_Db s))
    with (match (open_loop 2 (c_brk s) f 0 ;; mret (c_brk s)) (open_entry f s) with
          | Raise what _ => Fault (Uncaught what)
          | r => r
          end).
  simpl open_loop. unfold mbind, M_bind.
  rewrite R1. unfold deref. rewrite L1.
  destruct (c_dbxml_t.error x1) eqn:E1; [|done].
  destruct (open_attempt_run (c_brk s) x1 f 1 s1 L1)
    as (s2 & x2 & l2 & R2 & H2 & T2 & M2 & A2 & _ & _ & _ & _ & _ & F2 & _);
    [by left|].
  assert (c_dbxml_heap s2 !! c_brk s = Some x2) as L2
    by (rewrite H2; apply lookup_insert_eq).
  exists s2, x2, l2. repeat split; try done; [by rewrite F2|].
  rewrite R2, L2. by destruct (c_dbxml_t.error x2).
Qed.


End opening.

(** ** The error state of the handle *)

Section error_state.
Context `{E : DbXml}.

Ltac run_native_start Hx :=
  unfold error_protocol, run_native, c_dbxml_put_file, c_dbxml_put_xml,
    c_dbxml_remove, c_dbxml_get, c_dbxml_get_all, c_dbxml_get_query,
    clear_error, report, extern_C, try_catch, mbind, M_bind, mret, M_ret,
    assign, deref, lib, new_c_dbxml_docs_t, assign_docs;
  repeat first [rewrite Hx | rewrite lookup_insert_eq | progress simpl].

Ltac run_native_step :=
  repeat first [rewrite lookup_insert_eq | rewrite insert_insert_eq
               | rewrite <- app_assoc | progress simpl].

Ltac run_native_done :=
  eexists _, _;
  split; [simpl; rewrite ?lookup_insert_eq; reflexivity|];
  split; [simpl; rewrite <- ?app_assoc; reflexivity|];
  simpl; repeat split; try done;
  try (eexists; split; [simpl; rewrite ?lookup_insert_eq; reflexivity|done]).

Lemma run_put_xml h x name data replace s :
  c_dbxml_heap s !! h = Some x →
  ∃ r s', run_native (Op_put_xml name data replace) h s = Ok r s' ∧
          error_protocol (Op_put_xml name data replace) h r s s'.
Proof.
  intros Hx. run_native_start Hx.
  destruct (nonzero replace); run_native_step.
  - destruct (deleteDocument _ _ _ _) as [[[]|wd] w1]; run_native_step;
      destruct (putDocument_string _ _ _ _ _) as [[[]|wp] w2]; run_native_step;
      (eexists _, _; split; [reflexivity|]; run_native_done).
  - destruct (putDocument_string _ _ _ _ _) as [[[]|wp] w2]; run_native_step;
      (eexists _, _; split; [reflexivity|]; run_native_done).
Qed.

Lemma run_put_file h x filename replace s :
  c_dbxml_heap s !! h = Some x →
  ∃ r s', run_native (Op_put_file filename replace) h s = Ok r s' ∧
          error_protocol (Op_put_file filename replace) h r s s'.
Proof.
  intros Hx. run_native_start Hx.
  destruct (nonzero replace); run_native_step.
  - destruct (deleteDocument _ _ _ _) as [[[]|wd] w1]; run_native_step;
      (destruct (createLocalFileInputStream _ _ _) as [[stream|wc] w2];
       run_native_step;
       [destruct (putDocument_stream _ _ _ _ _) as [[[]|wp] w3]; run_native_step|]);
      (eexists _, _; split; [reflexivity|]; run_native_done).
  - destruct (createLocalFileInputStream _ _ _) as [[stream|wc] w2];
      run_native_step;
      [destruct (putDocument_stream _ _ _ _ _) as [[[]|wp] w3]; run_native_step|];
      (eexists _, _; split; [reflexivity|]; run_native_done).
Qed.

Lemma run_remove h x filename s :
  c_dbxml_heap s !! h = Some x →
  ∃ r s', run_native (Op_remove filename) h s = Ok r s' ∧
          error_protocol (Op_remove filename) h r s s'.
Proof.
  intros Hx. run_native_start Hx.
  destruct (deleteDocument _ _ _ _) as [[[]|wd] w1]; run_native_step;
    (eexists _, _; split; [reflexivity|]; run_native_done).
Qed.

Lemma run_get h x name s :
  c_dbxml_heap s !! h = Some x →
  ∃ r s', run_native (Op_get name) h s = Ok r s' ∧
          error_protocol (Op_get name) h r s s'.
Proof.
  intros Hx. run_native_start Hx.
  destruct (getDocument _ _ _) as [[doc|wd] w1]; run_native_step;
    [destruct (getContent _ _) as [[text|wc] w2]; run_native_step|];
    (eexists _, _; split; [reflexivity|]; run_native_done).
Qed.

Lemma run_get_query h x q s :
  c_dbxml_heap s !! h = Some x →
  ∃ r s', run_native (Op_get_query q) h s = Ok r s' ∧
          error_protocol (Op_get_query q) h r s s'.
Proof.
  intros Hx. run_native_start Hx.
  destruct (createQueryContext _ _) as [[ctx|what] w1]; run_native_step;
    [destruct (setDefaultCollection _ _ _) as [[ctx'|what] w2]; run_native_step;
     [destruct (query _ _ _ _) as [[it|what] w3]; run_native_step|]|];
    (eexists _, _; split; [reflexivity|]; run_native_done).
Qed.

Lemma run_get_all h x s :
  c_dbxml_heap s !! h = Some x →
  match run_native Op_get_all h s with
  | Ok r s' => error_protocol Op_get_all h r s s'
  | Raise _ _ => False
  | Fault f => ∃ what, f = Uncaught what
  end.
Proof.
  intros Hx. run_native_start Hx.
  destruct (getAllDocuments _ _) as [[it|what] w1]; run_native_step;
    [run_native_done | by eexists].
Qed.

Lemma run_size h x s :
  c_dbxml_heap s !! h = Some x →
  match run_native Op_size h s with
  | Ok r s' => c_dbxml_heap s' = c_dbxml_heap s
  | Raise _ _ => False
  | Fault f => ∃ what, f = Uncaught what
  end.
Proof.
  intros Hx. unfold run_native, c_dbxml_size. run_native_start Hx.
  destruct (getNumDocuments _ _) as [[n|what] w1]; run_native_step;
    [done | by eexists].
Qed.

Lemma last_thrown_app l1 l2 : l2 ≠ [] → last_thrown (l1 ++ l2) = last_thrown l2.
Proof.
  intros Hl. unfold last_thrown. rewrite last_app.
  destruct (last l2) eqn:Hlast; [done|]. by apply last_None in Hlast.
Qed.

Lemma last_thrown_cons e l : l ≠ [] → last_thrown (e :: l) = last_thrown l.
Proof. apply (last_thrown_app [e]). Qed.

Ltac merge_round IH Hx He Hs Hlt :=
  lazymatch goal with
  | |- context [merge_loop ?n ?h ?rep ?it ?doc ?s2] =>
      let H := fresh "H" in
      pose proof (IH it doc s2 _ Hx He Hs Hlt) as H;
      destruct (merge_loop n h rep it doc s2) as [z s'|what s'|f]; [|done|done];
      destruct H as (x' & l & L & T & N & F1 & F2 & Z);
      simpl in T; rewrite <- ?app_assoc in T; simpl in T;
      lazymatch type of T with
      | _ = (_ ++ ?l')%list =>
          exists x', l';
          split; [exact L|]; split; [exact T|]; split; [done|];
          rewrite !last_thrown_cons by done; done
      end
  end.

Lemma merge_loop_run fuel h replace it doc s x :
  c_dbxml_heap s !! h = Some x →
  c_dbxml_t.error x = false → c_dbxml_t.errstring x = "" →
  (remaining it < fuel)%nat →
  match merge_loop fuel h replace it doc s with
  | Ok z s' =>
      ∃ x' l,
        c_dbxml_heap s' !! h = Some x' ∧
        trace s' = (trace s ++ l)%list ∧ l ≠ [] ∧
        c_dbxml_t.error x' = flag_of (last_thrown l) ∧
        c_dbxml_t.errstring x' = default "" (last_thrown l) ∧
        z = (if c_dbxml_t.error x' then 0 else 1)%Z
  | Raise _ _ => True
  | Fault _ => False
  end.
Proof.
  revert it doc s x. induction fuel as [|fuel IH]; intros it doc s x Hx He Hs Hlt;
    [lia|].
  simpl merge_loop.
  unfold report, try_catch, mbind, M_bind, mret, M_ret, assign, deref, lib.
  destruct (results_next it doc (world s)) as [[[[[] it'] doc']|what] w1] eqn:Hn;
    run_native_step; [| |done].
  2: { exists x, [Lib L_next None]. rewrite He, Hs. by repeat split. }
  apply results_next_remaining in Hn.
  assert (remaining it' < fuel)%nat as Hlt' by lia.
  destruct (nonzero replace); run_native_step; rewrite ?Hx; run_native_step.
  - destruct (getName _ _) as [[n|wn] w2]; run_native_step;
      [destruct (deleteDocument _ _ _ _) as [[[]|wd] w3]; run_native_step|];
      rewrite ?Hx; run_native_step;
      (destruct (putDocument_doc _ _ _ _) as [[[]|wp] w4]; run_native_step;
       rewrite ?Hx; run_native_step;
       [merge_round IH Hx He Hs Hlt'
       |eexists _, _; split; [simpl; rewrite ?lookup_insert_eq; reflexivity|];
        split; [reflexivity|]; by repeat split]).
  - destruct (putDocument_doc _ _ _ _) as [[[]|wp] w4]; run_native_step;
      rewrite ?Hx; run_native_step;
      [merge_round IH Hx He Hs Hlt'
      |eexists _, _; split; [simpl; rewrite ?lookup_insert_eq; reflexivity|];
       split; [reflexivity|]; by repeat split].
Qed.

Lemma run_merge h x file replace s :
  c_dbxml_heap s !! h = Some x →
  match run_native (Op_merge file replace) h s with
  | Ok r s' => error_protocol (Op_merge file replace) h r s s'
  | Raise _ _ => False
  | Fault f => ∃ what, f = Uncaught what
  end.
Proof.
  intros Hx. unfold run_native, c_dbxml_merge.
  set (loop := merge_loop). run_native_start Hx.
  destruct (openContainer _ _ _ _) as [[input|what] w1]; run_native_step;
    [|by eexists].
  destruct (getAllDocuments _ _) as [[it|what] w2]; run_native_step;
    [|by eexists].
  subst loop.
  lazymatch goal with
  | |- context [merge_loop ?n ?h ?rep ?it ?doc ?s2] =>
      pose proof (merge_loop_run n h rep it doc s2 _ (lookup_insert_eq _ _ _)
                    eq_refl eq_refl (Nat.lt_succ_diag_r _)) as H;
      destruct (merge_loop n h rep it doc s2) as [z s'|what s'|f];
      [|by eexists|done]
  end.
  destruct H as (x' & l & L & T & N & F1 & F2 & Z).
  simpl in T. rewrite <- ?app_assoc in T. simpl in T.
  lazymatch type of T with
  | _ = (_ ++ _ :: ?l')%list => exists x', l'
  end.
  split; [exact L|]. split; [exact T|].
  rewrite !last_thrown_cons by done. done.
Qed.

(** C7, as amended.  Every operation of the native layer on a live
    connection handle, other than [c_dbxml_size], that returns has left in
    the handle an error state that depends on this operation alone (it was
    cleared at the start): the flag is set if and only if the operation
    failed, that is its last engine call threw, the string is the text of
    that exception and empty otherwise, and the answer signals the same.
    [c_dbxml_size] leaves the handle as it was.  No operation stops for
    another reason than an exception no [try] encloses, which only
    [c_dbxml_merge], [c_dbxml_size] and [c_dbxml_get_all] can meet. *)
Theorem error_state_protocol (op : native_op) (h : N) (x : c_dbxml_t.t)
    (s : State) :
  c_dbxml_heap s !! h = Some x →
  match run_native op h s with
  | Ok r s' =>
      match op with
      | Op_size => c_dbxml_heap s' = c_dbxml_heap s
      | _ => error_protocol op h r s s'
      end
  | Raise _ _ => False
  | Fault f => catches_all op = false ∧ ∃ what, f = Uncaught what
  end.
Proof.
  intros Hx. destruct op as [f r|n d r|f r|f|n| | |q].
  - by destruct (run_put_file h x f r s Hx) as (a & s' & -> & H).
  - by destruct (run_put_xml h x n d r s Hx) as (a & s' & -> & H).
  - pose proof (run_merge h x f r s Hx) as H.
    by destruct (run_native _ _ _).
  - by destruct (run_remove h x f s Hx) as (a & s' & -> & H).
  - by destruct (run_get h x n s Hx) as (a & s' & -> & H).
  - pose proof (run_size h x s Hx) as H. by destruct (run_native _ _ _).
  - pose proof (run_get_all h x s Hx) as H. by destruct (run_native _ _ _).
  - by destruct (run_get_query h x q s Hx) as (a & s' & -> & H).
Qed.

End error_state.

(** * Further properties *)

(** ** Safety of the calls *)

Section safety.
Context `{E : DbXml}.

Lemma returns_safe {A} (r : res A) : returns r → safe r.
Proof. by destruct r. Qed.

(** A native operation on a live handle leaves it live. *)
Lemma run_native_live op h x s :
  c_dbxml_heap s !! h = Some x →
  match run_native op h s with
  | Ok r s' => is_Some (c_dbxml_heap s' !! h) ∧ go_Db s' = go_Db s
  | Raise _ _ => False
  | Fault f => catches_all op = false ∧ ∃ what, f = Uncaught what
  end.
Proof.
  intros Hx.
  assert (∀ r s', error_protocol op h r s s' → is_Some (c_dbxml_heap s' !! h)) as Hp.
  { intros r s' (x' & l & L & _). by eexists. }
  assert (∀ {A} (m : M A) (f : A → native_answer),
            keeps shape m →
            match (a ← m; mret (f a)) s with
            | Ok r s' => go_Db s' = go_Db s
            | _ => True
            end) as Hs.
  { intros A m f Hk. specialize (Hk s). unfold post in Hk. unfold mbind, M_bind.
    destruct (m s) as [a s'| |]; try done. simpl. by destruct Hk. }
  destruct op as [f r|n d r|f r|f|n| | |q].
  - pose proof (Hs _ _ R_int (keeps_shape_c_dbxml_put_file h f r)) as H1.
    destruct (run_put_file h x f r s Hx) as (a & s' & Hr & H). simpl in *.
    rewrite Hr in *. eauto.
  - pose proof (Hs _ _ R_int (keeps_shape_c_dbxml_put_xml h n d r)) as H1.
    destruct (run_put_xml h x n d r s Hx) as (a & s' & Hr & H). simpl in *.
    rewrite Hr in *. eauto.
  - pose proof (Hs _ _ R_int (keeps_shape_c_dbxml_merge h f r)) as H1.
    pose proof (run_merge h x f r s Hx) as H. simpl in *.
    destruct ((c_dbxml_merge h f r ≫= _) s) as [a s'| |]; eauto.
  - pose proof (Hs _ _ R_int (keeps_shape_c_dbxml_remove h f)) as H1.
    destruct (run_remove h x f s Hx) as (a & s' & Hr & H). simpl in *.
    rewrite Hr in *. eauto.
  - pose proof (Hs _ _ R_text (keeps_shape_c_dbxml_get h n)) as H1.
    destruct (run_get h x n s Hx) as (a & s' & Hr & H). simpl in *.
    rewrite Hr in *. eauto.
  - pose proof (Hs _ _ R_count (keeps_shape_c_dbxml_size h)) as H1.
    pose proof (run_size h x s Hx) as H. simpl in *.
    destruct ((c_dbxml_size h ≫= _) s) as [a s'| |]; try done.
    rewrite H. split; [by eexists | done].
  - pose proof (c_dbxml_get_all_grows h s) as H1.
    pose proof (run_get_all h x s Hx) as H. simpl in *.
    unfold post, mbind, M_bind in *.
    destruct (c_dbxml_get_all h s) as [a s'| |]; simpl in *; try done.
    split; [eauto | by destruct H1].
  - pose proof (c_dbxml_get_query_grows h q s) as H1.
    destruct (run_get_query h x q s Hx) as (a & s' & Hr & H). simpl in *.
    rewrite Hr. unfold post, mbind, M_bind in *.
    destruct (c_dbxml_get_query h q s) as [b s''| |]; simpl in *; try done.
    injection Hr as <- <-. split; [eauto | by destruct H1].
Qed.

Lemma safe_answering {A} (f : A → answer) (m : M A) s :
  safe (m s) → safe (answering f m s).
Proof. unfold answering, mbind, M_bind. by destruct (m s). Qed.

Lemma returns_answering {A} (f : A → answer) (m : M A) s :
  returns (m s) → returns (answering f m s).
Proof. unfold answering, mbind, M_bind. by destruct (m s). Qed.

Lemma last_error_returns db d s :
  go_Db s !! db = Some d → is_Some (c_dbxml_heap s !! Db.db d) →
  returns (last_error db s).
Proof.
  intros Hd [x Hx]. unfold last_error, mbind, M_bind, load_Db. rewrite Hd.
  by rewrite (c_dbxml_errstring_run _ x).
Qed.

(** A write that reports through the returned [int]. *)
Lemma reporting_safe op db d x s (m : M Z) :
  go_Db s !! db = Some d → c_dbxml_heap s !! Db.db d = Some x →
  run_native op (Db.db d) s = (r ← m; mret (R_int r)) s →
  safe ((r ← m; if (r =? 0)%Z then last_error db else mret None) s) ∧
  (catches_all op = true →
   returns ((r ← m; if (r =? 0)%Z then last_error db else mret None) s)).
Proof.
  intros Hd Hx Heq. pose proof (run_native_live op _ x s Hx) as H.
  rewrite Heq in H. unfold mbind, M_bind in *.
  destruct (m s) as [z s'|what s'|f]; simpl in *; try done.
  - destruct H as [Hlive Hgo].
    assert (returns ((if (z =? 0)%Z then last_error db else mret None) s')) as Hr.
    { destruct (z =? 0)%Z; [|done].
      apply (last_error_returns db d); [by rewrite Hgo | done]. }
    split; [by apply returns_safe | done].
  - destruct H as [Hc H]. split; [done | congruence].
Qed.

Lemma c_dbxml_docs_name_safe h x s :
  c_docs_heap s !! h = Some x → safe (c_dbxml_docs_name h s).
Proof.
  intros Hx. unfold c_dbxml_docs_name, extern_C, mbind, M_bind, deref_docs,
    assign_docs, lib. simpl. rewrite Hx.
  destruct (c_dbxml_docs_t.more x && _); simpl; [|by rewrite Hx].
  destruct (getName _ _) as [[n|what] w]; simpl; [|by eexists].
  rewrite Hx. simpl. by rewrite lookup_insert_eq.
Qed.

Lemma c_dbxml_docs_content_safe h x s :
  c_docs_heap s !! h = Some x → safe (c_dbxml_docs_content h s).
Proof.
  intros Hx. unfold c_dbxml_docs_content, extern_C, mbind, M_bind, deref_docs,
    assign_docs, lib. simpl. rewrite Hx.
  destruct (c_dbxml_docs_t.more x && _); simpl; [|by rewrite Hx].
  destruct (getContent _ _) as [[n|what] w]; simpl; [|by eexists].
  rewrite Hx. simpl. by rewrite lookup_insert_eq.
Qed.

Lemma Open_returns f s : returns (Open f s).
Proof.
  rewrite Open_run.
  destruct (c_dbxml_open_run f s) as (s1 & x1 & l1 & _ & L1 & _ & _ & _ & _ & H).
  destruct (c_dbxml_t.error x1).
  - destruct H as (s2 & x2 & l2 & _ & L2 & _ & _ & _ & _ & ->).
    rewrite L2. by destruct (c_dbxml_t.error x2).
  - rewrite H, L1. by destruct (c_dbxml_t.error x1).
Qed.

(** X1. From a state reached by fewer than 2^64 calls, a call on pointers
    the package returned either returns or stops on an engine exception
    that no [try] encloses.  It never follows a nil or stale pointer, never
    uses or frees a native handle or cursor that was freed, and the loop of
    [Close] ends.  [Open], [Close], [PutFile], [PutXml], [Remove], [Get],
    [Query] and [Docs.Close] always return. *)
Theorem run_safe (n : nat) (s : State) (c : call) :
  reach n s → N.of_nat n < uint64_modulus → allocated c s →
  safe (run c s) ∧ (guarded c = true → returns (run c s)).
Proof.
  intros Hr Hn Hc. destruct (reach_Inv n s Hr Hn) as [HI _].
  assert (∀ {A} (f : A → answer) (m : M A),
            returns (m s) →
            safe (answering f m s) ∧ (true = true → returns (answering f m s)))
    as Hret.
  { intros A f m Hm. split; [by apply returns_safe, returns_answering|].
    intros _. by apply returns_answering. }
  assert (∀ {A} (f : A → answer) (m : M A),
            safe (m s) →
            safe (answering f m s) ∧ (false = true → returns (answering f m s)))
    as Hsafe.
  { intros A f m Hm. split; [by apply safe_answering | done]. }
  assert (∀ {A} (f : A → answer) (m : M A) b,
            safe (m s) ∧ (b = true → returns (m s)) →
            safe (answering f m s) ∧ (b = true → returns (answering f m s)))
    as Hboth.
  { intros A f m b [H1 H2].
    split; [by apply safe_answering | intros Hb; by apply returns_answering, H2]. }
  destruct c; simpl in Hc |- *.
  - apply Hret, Open_returns.
  - (* Close *)
    destruct Hc as [d Hd]. apply Hret. destruct (Db.opened d) eqn:Ho.
    + destruct (Db_Close_open db d s HI Hd Ho) as [-> _]. done.
    + by rewrite (Db_Close_closed db d s Hd Ho).
  - (* PutFile *)
    destruct Hc as [d Hd]. apply Hboth.
    unfold Db_PutFile. unfold mbind at 1 3, M_bind at 1 3, load_Db. rewrite Hd.
    destruct (Db.opened d) eqn:Ho; [|done]. simpl.
    destruct (inv_handle _ HI db d Hd Ho) as [x Hx].
    by apply (reporting_safe (Op_put_file filename (repl replace)) db d x).
  - (* PutXml *)
    destruct Hc as [d Hd]. apply Hboth.
    unfold Db_PutXml. unfold mbind at 1 3, M_bind at 1 3, load_Db. rewrite Hd.
    destruct (Db.opened d) eqn:Ho; [|done]. simpl.
    destruct (inv_handle _ HI db d Hd Ho) as [x Hx].
    by apply (reporting_safe (Op_put_xml name data (repl replace)) db d x).
  - (* Merge *)
    destruct Hc as [d Hd]. apply Hsafe.
    unfold Db_Merge. unfold mbind at 1, M_bind at 1, load_Db. rewrite Hd.
    destruct (Db.opened d) eqn:Ho; [|done]. simpl.
    destruct (inv_handle _ HI db d Hd Ho) as [x Hx].
    by apply (reporting_safe (Op_merge filename (repl replace)) db d x).
  - (* Remove *)
    destruct Hc as [d Hd]. apply Hboth.
    unfold Db_Remove. unfold mbind at 1 3, M_bind at 1 3, load_Db. rewrite Hd.
    destruct (Db.opened d) eqn:Ho; [|done]. simpl.
    destruct (inv_handle _ HI db d Hd Ho) as [x Hx].
    by apply (reporting_safe (Op_remove name) db d x).
  - (* Get *)
    destruct Hc as [d Hd]. apply Hret.
    unfold Db_Get. unfold mbind at 1, M_bind at 1, load_Db. rewrite Hd.
    destruct (Db.opened d) eqn:Ho; [|done]. simpl.
    destruct (inv_handle _ HI db d Hd Ho) as [x Hx].
    pose proof (run_native_live (Op_get name) _ x s Hx) as H.
    simpl in H. unfold mbind, M_bind in *.
    destruct (c_dbxml_get (Db.db d) name s) as [t s'|what s'|f]; simpl in *;
      try done; [|by destruct H].
    destruct H as [[x' Hx'] _]. rewrite (c_dbxml_error_run _ x') by done.
    by destruct (negb _).
  - (* Size *)
    destruct Hc as [d Hd]. apply Hsafe.
    unfold Db_Size. unfold mbind at 1, M_bind at 1, load_Db. rewrite Hd.
    destruct (Db.opened d) eqn:Ho; [|done]. simpl.
    destruct (inv_handle _ HI db d Hd Ho) as [x Hx].
    pose proof (run_native_live Op_size _ x s Hx) as H.
    simpl in H. unfold mbind, M_bind in *.
    destruct (c_dbxml_size (Db.db d) s) as [t s'|what s'|f]; simpl in *;
      try done. by destruct H.
  - (* All *)
    destruct Hc as [d Hd]. apply Hsafe.
    destruct (Db.opened d) eqn:Ho; [|by rewrite (Db_All_closed db d s Hd Ho)].
    rewrite (Db_All_open db d s Hd Ho).
    destruct (inv_handle _ HI db d Hd Ho) as [x Hx].
    pose proof (run_native_live Op_get_all _ x (after_new_Docs s) Hx) as H.
    simpl in H. unfold mbind, M_bind in *.
    destruct (c_dbxml_get_all (Db.db d) (after_new_Docs s)) as [t s'|what s'|f];
      simpl in *; try done. by destruct H.
  - (* Query *)
    destruct Hc as [d Hd]. apply Hret.
    destruct (Db.opened d) eqn:Ho; [|by rewrite (Db_Query_closed db d _ s Hd Ho)].
    pose proof (inv_handle _ HI db d Hd Ho) as Hlive.
    rewrite (Db_Query_open db d _ s Hd Ho Hlive). destruct Hlive as [x Hx].
    pose proof (run_native_live (Op_get_query query_) _ x (after_new_Docs s) Hx)
      as H.
    simpl in H. unfold mbind, M_bind in *.
    destruct (c_dbxml_get_query (Db.db d) query_ (after_new_Docs s))
      as [t s'|what s'|f]; simpl in *; try done; [|by destruct H].
    destruct H as [[x' Hx'] _]. rewrite Hx'. by destruct (c_dbxml_t.error x').
  - (* Next *)
    destruct Hc as [i Ha]. apply Hsafe.
    destruct (Docs.opened i) eqn:Ho; [|by rewrite (Docs_Next_closed docs i s Ha Ho)].
    destruct (Inv_owner s docs i HI Ha Ho) as (p & o & Hp & Hd & Hk & Hop & [x Hx]).
    rewrite (Docs_Next_open docs i p o s) by eauto.
    assert (c_docs_heap (started_state docs i s) !! Docs.docs i = Some x) as Hx'
      by done.
    rewrite (c_dbxml_docs_next_run _ x _ Hx').
    destruct (c_dbxml_docs_t.more x); [|done].
    destruct (results_next _ _ _) as [[[[[] it'] doc']|what] w']; simpl; eauto.
  - (* Name *)
    destruct Hc as [i Ha]. apply Hsafe.
    unfold Docs_Name, mbind, M_bind, load_Docs. rewrite Ha.
    destruct (Docs.opened i) eqn:Ho; [|done].
    destruct (Docs.started i); [|done]. simpl.
    destruct (Inv_owner s docs i HI Ha Ho) as (p & o & Hp & Hd & Hk & Hop & [x Hx]).
    by apply (c_dbxml_docs_name_safe _ x).
  - (* Content *)
    destruct Hc as [i Ha]. apply Hsafe.
    unfold Docs_Content, mbind, M_bind, load_Docs. rewrite Ha.
    destruct (Docs.opened i) eqn:Ho; [|done].
    destruct (Docs.started i); [|done]. simpl.
    destruct (Inv_owner s docs i HI Ha Ho) as (p & o & Hp & Hd & Hk & Hop & [x Hx]).
    by apply (c_dbxml_docs_content_safe _ x).
  - (* Docs.Close *)
    destruct Hc as [i Ha]. apply Hret. unfold Docs_Close.
    destruct (Docs.opened i) eqn:Ho; [|by rewrite (Docs_close_closed docs i s Ha Ho)].
    destruct (Inv_owner s docs i HI Ha Ho) as (p & o & Hp & Hd & Hk & Hop & Hx).
    by rewrite (Docs_close_open docs i p o s).
Qed.

End safety.

(** ** Connection handles and open connections *)

Section handles.
Context `{E : DbXml}.

Lemma owned_same s s' h : go_Db s' = go_Db s → owned s h → owned s' h.
Proof. intros Heq (p & d & Hd & Ho & Hh). exists p, d. by rewrite Heq. Qed.

(** Rewriting a connection record without touching [opened] and [db]. *)
Lemma owned_insert s s' p d d' h :
  go_Db s !! p = Some d → go_Db s' = <[p := d']> (go_Db s) →
  Db.opened d' = Db.opened d → Db.db d' = Db.db d →
  owned s h → owned s' h.
Proof.
  intros Hd Heq Ho Hh (q & e & He & Hoe & Hhe). unfold owned. rewrite Heq.
  destruct (decide (q = p)) as [->|Hne].
  - exists p, d'. rewrite lookup_insert_eq. split; [done|].
    assert (e = d) as -> by congruence. by rewrite Ho, Hh.
  - exists q, e. by rewrite lookup_insert_ne.
Qed.

Lemma no_leak_dom s s' :
  dom (c_dbxml_heap s') = dom (c_dbxml_heap s) →
  (∀ h, owned s h → owned s' h) → no_leak s → no_leak s'.
Proof.
  intros Hdom Hown Hl h Hh. apply Hown, Hl.
  apply elem_of_dom. rewrite <- Hdom. by apply elem_of_dom.
Qed.

Lemma no_leak_run c r s s' :
  Inv s → no_leak s → run c s = Ok r s' → no_leak s'.
Proof.
  intros HI Hl Hrun.
  assert (∀ {A} (m : M A) x, keeps shape m → m s = Ok x s' → no_leak s') as Hshape.
  { intros A m x Hk Hm. destruct (keeps_Ok shape m s x s' Hk Hm).
    apply (no_leak_dom s); [done| |done]. intros h. by apply owned_same. }
  destruct c; simpl in Hrun; apply answering_inv in Hrun as (x & Hrun & ->).
  - (* Open *)
    rewrite Open_run in Hrun.
    pose proof (c_dbxml_open_grows filename (after_new_Db s)) as Hg. unfold post in Hg.
    destruct (c_dbxml_open filename (after_new_Db s)) as [h s1|what s1|y]; try done.
    destruct (c_dbxml_heap s1 !! h) as [y|] eqn:Hy; [|done].
    destruct Hg as [G1 G2 G3 G4 G5 G6 G7 G8]. simpl in *.
    assert (go_Db s !! go_brk s = None) as Hnone
      by (apply (go_Db_fresh _ (inv_heap _ HI)); lia).
    assert (∀ d' h', owned s h' →
              ∃ p e, <[go_brk s := d']> (go_Db s1) !! p = Some e ∧
                     Db.opened e = true ∧ Db.db e = h') as Hold.
    { intros d' h' (p & e & He & Hoe & Hhe). exists p, e.
      rewrite G1, insert_insert_eq, lookup_insert_ne; [done|]. congruence. }
    destruct (c_dbxml_t.error y); injection Hrun as <- <-; intros h' Hh';
      simpl in Hh'.
    + apply Hold, Hl. destruct (decide (h' = h)) as [->|Hne].
      * rewrite lookup_delete_eq in Hh'. by destruct Hh'.
      * rewrite lookup_delete_ne in Hh' by done.
        apply elem_of_dom in Hh'. rewrite G7 in Hh'. apply elem_of_dom.
        apply elem_of_union in Hh' as [Hh'|Hh']; [|done].
        apply elem_of_singleton in Hh'. done.
    + destruct (decide (h' = h)) as [->|Hne].
      * exists (go_brk s), (Db.mk true h 0 ∅). simpl.
        by rewrite lookup_insert_eq.
      * apply Hold, Hl. apply elem_of_dom in Hh'. rewrite G7 in Hh'.
        apply elem_of_dom. apply elem_of_union in Hh' as [Hh'|Hh']; [|done].
        apply elem_of_singleton in Hh'. done.
  - (* Close *)
    destruct (go_Db s !! db) as [d|] eqn:Hd; cycle 1.
    { unfold Db_Close, mbind, M_bind, load_Db in Hrun. by rewrite Hd in Hrun. }
    destruct (Db.opened d) eqn:Ho.
    + destruct (Db_Close_open db d s HI Hd Ho) as [Hrun' _].
      rewrite Hrun' in Hrun. injection Hrun as <- <-.
      intros h Hh. simpl in Hh.
      destruct (decide (h = Db.db d)) as [->|Hne].
      { rewrite lookup_delete_eq in Hh. by destruct Hh. }
      rewrite lookup_delete_ne in Hh by done.
      destruct (Hl h Hh) as (q & e & He & Hoe & Hhe).
      exists q, e. simpl. rewrite lookup_insert_ne; [done|].
      intros <-. congruence.
    + rewrite (Db_Close_closed db d s Hd Ho) in Hrun. by injection Hrun as <- <-.
  - eapply Hshape; [apply keeps_shape_Db_PutFile | done].
  - eapply Hshape; [apply keeps_shape_Db_PutXml | done].
  - eapply Hshape; [apply keeps_shape_Db_Merge | done].
  - eapply Hshape; [apply keeps_shape_Db_Remove | done].
  - eapply Hshape; [apply keeps_shape_Db_Get | done].
  - eapply Hshape; [apply keeps_shape_Db_Size | done].
  - (* All *)
    destruct (go_Db s !! db) as [d|] eqn:Hd; cycle 1.
    { unfold Db_All, mbind, M_bind in Hrun. rewrite new_Docs_run in Hrun.
      unfold load_Db in Hrun. simpl in Hrun. by rewrite Hd in Hrun. }
    destruct (Db.opened d) eqn:Ho; cycle 1.
    { rewrite (Db_All_closed db d s Hd Ho) in Hrun. injection Hrun as <- <-.
      apply (no_leak_dom s); [done| |done]. intros h. by apply owned_same. }
    rewrite (Db_All_open db d s Hd Ho) in Hrun.
    pose proof (c_dbxml_get_all_grows (Db.db d) (after_new_Docs s)) as Hg.
    unfold post in Hg.
    destruct (c_dbxml_get_all (Db.db d) (after_new_Docs s)) as [h s1|what s1|f];
      try done.
    injection Hrun as <- <-.
    destruct Hg as [G1 G2 G3 G4 G5 G6 G7 G8]. simpl in *.
    apply (no_leak_dom s); [done| |done]. intros h'.
    apply (owned_insert s _ db d (filed (go_brk s) d)); try done.
    simpl. by rewrite G1.
  - (* Query *)
    destruct (go_Db s !! db) as [d|] eqn:Hd; cycle 1.
    { unfold Db_Query, mbind, M_bind in Hrun. rewrite new_Docs_run in Hrun.
      unfold load_Db in Hrun. simpl in Hrun. by rewrite Hd in Hrun. }
    destruct (Db.opened d) eqn:Ho; cycle 1.
    { rewrite (Db_Query_closed db d _ s Hd Ho) in Hrun. injection Hrun as <- <-.
      apply (no_leak_dom s); [done| |done]. intros h. by apply owned_same. }
    rewrite (Db_Query_open db d _ s Hd Ho) in Hrun
      by exact (inv_handle _ HI db d Hd Ho).
    pose proof (c_dbxml_get_query_grows (Db.db d) query_ (after_new_Docs s)) as Hg.
    unfold post in Hg.
    destruct (c_dbxml_get_query (Db.db d) query_ (after_new_Docs s))
      as [h s1|what s1|f]; try done.
    destruct (c_dbxml_heap s1 !! Db.db d) as [x1|]; [|done].
    destruct Hg as [G1 G2 G3 G4 G5 G6 G7 G8]. simpl in *.
    destruct (c_dbxml_t.error x1); injection Hrun as <- <-;
      (apply (no_leak_dom s); [done| |done]); intros h'.
    + apply owned_same. simpl. by rewrite G1.
    + apply (owned_insert s _ db d (filed (go_brk s) d)); try done.
      simpl. by rewrite G1.
  - (* Next *)
    destruct (go_Docs s !! docs) as [i|] eqn:Ha; cycle 1.
    { unfold Docs_Next, mbind, M_bind, load_Docs in Hrun. by rewrite Ha in Hrun. }
    destruct (Docs.opened i) eqn:Ho; cycle 1.
    { rewrite (Docs_Next_closed docs i s Ha Ho) in Hrun. by injection Hrun as <- <-. }
    destruct (Inv_owner s docs i HI Ha Ho) as (p & o & Hp & Hd & Hk & Hop & Hc).
    rewrite (Docs_Next_open docs i p o s) in Hrun by done.
    pose proof (keeps_shape_c_dbxml_docs_next (Docs.docs i) (started_state docs i s))
      as Hsh. unfold post in Hsh.
    destruct (c_dbxml_docs_next (Docs.docs i) (started_state docs i s))
      as [r s2|what s2|f]; try done.
    destruct Hsh as [S1 S2 S3 S4 S5 S6 S7]. simpl in *.
    destruct (r =? 0)%Z; injection Hrun as <- <-;
      (apply (no_leak_dom s); [done| |done]); intros h'.
    + apply (owned_insert s _ p o (unfiled i o)); try done. simpl. by rewrite S1.
    + by apply owned_same.
  - eapply Hshape; [apply keeps_shape_Docs_Name | done].
  - eapply Hshape; [apply keeps_shape_Docs_Content | done].
  - (* Docs.Close *)
    destruct (go_Docs s !! docs) as [i|] eqn:Ha; cycle 1.
    { unfold Docs_Close, Docs_close, mbind, M_bind, load_Docs in Hrun.
      by rewrite Ha in Hrun. }
    destruct (Docs.opened i) eqn:Ho; cycle 1.
    { unfold Docs_Close in Hrun.
      rewrite (Docs_close_closed docs i s Ha Ho) in Hrun. by injection Hrun as <- <-. }
    destruct (Inv_owner s docs i HI Ha Ho) as (p & o & Hp & Hd & Hk & Hop & Hc).
    unfold Docs_Close in Hrun.
    rewrite (Docs_close_open docs i p o s) in Hrun by done.
    injection Hrun as <- <-.
    apply (no_leak_dom s); [done| |done]. intros h'.
    by apply (owned_insert s _ p o (unfiled i o)).
Qed.

(** X2. In every state reached by fewer than 2^64 calls the allocated
    connection handles are exactly the handles of the open connections, one
    handle per connection: a failed [Open] and [Close] release the handle,
    and nothing else allocates or releases one. *)
Theorem handles_of_open_connections (n : nat) (s : State) :
  reach n s → N.of_nat n < uint64_modulus →
  (∀ h, is_Some (c_dbxml_heap s !! h) ↔ owned s h) ∧
  (∀ p q d e,
     go_Db s !! p = Some d → go_Db s !! q = Some e →
     Db.opened d = true → Db.opened e = true → Db.db d = Db.db e → p = q).
Proof.
  intros Hr Hn. destruct (reach_Inv n s Hr Hn) as [HI _].
  split; [|exact (inv_handle_inj _ HI)].
  intros h. split; [|intros (p & d & Hd & Ho & <-); by eapply inv_handle].
  revert h. fold (no_leak s). clear HI.
  induction Hr as [w|n s c a s' Hr IH Hc].
  - intros h [x Hx]. simpl in Hx. by rewrite lookup_empty in Hx.
  - assert (N.of_nat n < uint64_modulus) as Hn' by lia.
    destruct (reach_Inv n s Hr Hn') as [HI _].
    by apply (no_leak_run c a s s' HI (IH Hn')).
Qed.

End handles.

(** ** Cursors that no open iterator holds *)

Section strays.
Context `{E : DbXml}.

Lemma stray_dom s s' h :
  dom (c_docs_heap s') = dom (c_docs_heap s) → go_Docs s' = go_Docs s →
  stray s h → stray s' h.
Proof.
  intros Hdom Hgo [Hh Hu]. split.
  - apply elem_of_dom. rewrite Hdom. by apply elem_of_dom.
  - intros a i. rewrite Hgo. apply Hu.
Qed.

(** One iterator record is rewritten, into one that is not open or that
    holds another cursor. *)
Lemma unowned_insert s s' a j h :
  go_Docs s' = <[a := j]> (go_Docs s) →
  (Docs.opened j = true → Docs.docs j ≠ h) →
  unowned_cursor s h → unowned_cursor s' h.
Proof.
  intros Heq Hj Hu b i Hb Ho. rewrite Heq in Hb.
  destruct (decide (b = a)) as [->|Hne].
  - rewrite lookup_insert_eq in Hb. injection Hb as <-. by apply Hj.
  - rewrite lookup_insert_ne in Hb by done. by apply (Hu b i).
Qed.

Lemma live_grown s s' h0 h :
  dom (c_docs_heap s') = {[h0]} ∪ dom (c_docs_heap s) →
  is_Some (c_docs_heap s !! h) → is_Some (c_docs_heap s' !! h).
Proof.
  intros Hdom Hh. apply elem_of_dom. rewrite Hdom.
  apply elem_of_union_r. by apply elem_of_dom.
Qed.

(** A cursor no open iterator holds is not released by any call. *)
Lemma stray_run c r s s' h :
  Inv s → stray s h → run c s = Ok r s' → stray s' h.
Proof.
  intros HI [Hh Hu] Hrun.
  assert (∀ {A} (m : M A) x, keeps shape m → m s = Ok x s' → stray s' h) as Hshape.
  { intros A m x Hk Hm. destruct (keeps_Ok shape m s x s' Hk Hm).
    by apply (stray_dom s). }
  assert (h < c_brk s) as Hlt by (by apply c_docs_below; [apply inv_heap|]).
  destruct c; simpl in Hrun; apply answering_inv in Hrun as (x & Hrun & ->).
  - (* Open *)
    rewrite Open_run in Hrun.
    pose proof (c_dbxml_open_grows filename (after_new_Db s)) as Hg. unfold post in Hg.
    destruct (c_dbxml_open filename (after_new_Db s)) as [h1 s1|what s1|y]; try done.
    destruct (c_dbxml_heap s1 !! h1) as [y|] eqn:Hy; [|done].
    destruct Hg as [G1 G2 G3 G4 G5 G6 G7 G8]. simpl in *.
    destruct (c_dbxml_t.error y); injection Hrun as <- <-;
      by apply (stray_dom s).
  - (* Close *)
    destruct (go_Db s !! db) as [d|] eqn:Hd; cycle 1.
    { unfold Db_Close, mbind, M_bind, load_Db in Hrun. by rewrite Hd in Hrun. }
    destruct (Db.opened d) eqn:Ho.
    + destruct (Db_Close_open db d s HI Hd Ho) as [Hrun' _].
      rewrite Hrun' in Hrun. injection Hrun as <- <-. split; simpl.
      * rewrite foldl_delete_other; [done|].
        intros Hin. apply child_cursors_inv in Hin as (k & b & j & Hk & Hj & Hjh).
        destruct (inv_child _ HI db d k b Hd Hk) as (_ & j' & Hj' & Hoj' & _).
        assert (j' = j) as -> by congruence. by apply (Hu b j).
      * intros a i Ha Hoi. simpl in Ha. rewrite lookup_fmap in Ha.
        destruct (go_Docs s !! a) as [j|] eqn:Hj; [|done].
        injection Ha as <-. unfold close_of in *.
        destruct (Docs.opened j && bool_decide (Docs.db j = Some db)); [done|].
        by apply (Hu a j).
    + rewrite (Db_Close_closed db d s Hd Ho) in Hrun. by injection Hrun as <- <-.
  - eapply Hshape; [apply keeps_shape_Db_PutFile | done].
  - eapply Hshape; [apply keeps_shape_Db_PutXml | done].
  - eapply Hshape; [apply keeps_shape_Db_Merge | done].
  - eapply Hshape; [apply keeps_shape_Db_Remove | done].
  - eapply Hshape; [apply keeps_shape_Db_Get | done].
  - eapply Hshape; [apply keeps_shape_Db_Size | done].
  - (* All *)
    destruct (go_Db s !! db) as [d|] eqn:Hd; cycle 1.
    { unfold Db_All, mbind, M_bind in Hrun. rewrite new_Docs_run in Hrun.
      unfold load_Db in Hrun. simpl in Hrun. by rewrite Hd in Hrun. }
    destruct (Db.opened d) eqn:Ho; cycle 1.
    { rewrite (Db_All_closed db d s Hd Ho) in Hrun. injection Hrun as <- <-.
      split; [done|]. by apply (unowned_insert s _ (go_brk s) Docs.zero). }
    rewrite (Db_All_open db d s Hd Ho) in Hrun.
    pose proof (c_dbxml_get_all_grows (Db.db d) (after_new_Docs s)) as Hg.
    unfold post in Hg.
    destruct (c_dbxml_get_all (Db.db d) (after_new_Docs s)) as [h1 s1|what s1|f];
      try done.
    injection Hrun as <- <-.
    destruct Hg as [G1 G2 G3 G4 G5 G6 G7 G8]. simpl in *. split; simpl.
    + by apply (live_grown s _ h1).
    + eapply (unowned_insert s _ (go_brk s) _ h);
        [simpl; by rewrite G2, !insert_insert_eq | intros _; simpl; lia | done].
  - (* Query *)
    destruct (go_Db s !! db) as [d|] eqn:Hd; cycle 1.
    { unfold Db_Query, mbind, M_bind in Hrun. rewrite new_Docs_run in Hrun.
      unfold load_Db in Hrun. simpl in Hrun. by rewrite Hd in Hrun. }
    destruct (Db.opened d) eqn:Ho; cycle 1.
    { rewrite (Db_Query_closed db d _ s Hd Ho) in Hrun. injection Hrun as <- <-.
      split; [done|]. by apply (unowned_insert s _ (go_brk s) Docs.zero). }
    rewrite (Db_Query_open db d _ s Hd Ho) in Hrun
      by exact (inv_handle _ HI db d Hd Ho).
    pose proof (c_dbxml_get_query_grows (Db.db d) query_ (after_new_Docs s)) as Hg.
    unfold post in Hg.
    destruct (c_dbxml_get_query (Db.db d) query_ (after_new_Docs s))
      as [h1 s1|what s1|f]; try done.
    destruct (c_dbxml_heap s1 !! Db.db d) as [x1|]; [|done].
    destruct Hg as [G1 G2 G3 G4 G5 G6 G7 G8]. simpl in *.
    destruct (c_dbxml_t.error x1); injection Hrun as <- <-; split; simpl;
      try (by apply (live_grown s _ h1));
      (eapply (unowned_insert s _ (go_brk s) _ h);
       [simpl; by rewrite G2, !insert_insert_eq | simpl; try done; intros _; lia
       | done]).
  - (* Next *)
    destruct (go_Docs s !! docs) as [i|] eqn:Ha; cycle 1.
    { unfold Docs_Next, mbind, M_bind, load_Docs in Hrun. by rewrite Ha in Hrun. }
    destruct (Docs.opened i) eqn:Ho; cycle 1.
    { rewrite (Docs_Next_closed docs i s Ha Ho) in Hrun. by injection Hrun as <- <-. }
    destruct (Inv_owner s docs i HI Ha Ho) as (p & o & Hp & Hd & Hk & Hop & Hc).
    rewrite (Docs_Next_open docs i p o s) in Hrun by done.
    pose proof (keeps_shape_c_dbxml_docs_next (Docs.docs i) (started_state docs i s))
      as Hsh. unfold post in Hsh.
    destruct (c_dbxml_docs_next (Docs.docs i) (started_state docs i s))
      as [r s2|what s2|f]; try done.
    destruct Hsh as [S1 S2 S3 S4 S5 S6 S7]. simpl in *.
    assert (Docs.docs i ≠ h) as Hne by (by apply (Hu docs i)).
    assert (is_Some (c_docs_heap s2 !! h)) as Hh2.
    { apply elem_of_dom. rewrite S7. by apply elem_of_dom. }
    destruct (r =? 0)%Z; injection Hrun as <- <-; split; simpl.
    + by rewrite lookup_delete_ne.
    + eapply (unowned_insert s _ docs _ h);
        [simpl; by rewrite S2, insert_insert_eq | done | done].
    + done.
    + by eapply (unowned_insert s _ docs _ h).
  - eapply Hshape; [apply keeps_shape_Docs_Name | done].
  - eapply Hshape; [apply keeps_shape_Docs_Content | done].
  - (* Docs.Close *)
    destruct (go_Docs s !! docs) as [i|] eqn:Ha; cycle 1.
    { unfold Docs_Close, Docs_close, mbind, M_bind, load_Docs in Hrun.
      by rewrite Ha in Hrun. }
    destruct (Docs.opened i) eqn:Ho; cycle 1.
    { unfold Docs_Close in Hrun.
      rewrite (Docs_close_closed docs i s Ha Ho) in Hrun. by injection Hrun as <- <-. }
    destruct (Inv_owner s docs i HI Ha Ho) as (p & o & Hp & Hd & Hk & Hop & Hc).
    unfold Docs_Close in Hrun.
    rewrite (Docs_close_open docs i p o s) in Hrun by done.
    injection Hrun as <- <-.
    assert (Docs.docs i ≠ h) as Hne by (by apply (Hu docs i)).
    split; simpl.
    + by rewrite lookup_delete_ne.
    + by eapply (unowned_insert s _ docs _ h).
Qed.

Lemma stray_run_all h cs : ∀ n s s',
  reach n s → N.of_nat (n + length cs) < uint64_modulus →
  run_all cs s = Some s' → stray s h → stray s' h.
Proof.
  induction cs as [|c cs IH]; intros n s s' Hr Hlt Hrun Hs; simpl in Hrun.
  - by injection Hrun as <-.
  - destruct (run c s) as [r s1| |] eqn:Hc; try done.
    simpl in Hlt.
    destruct (reach_Inv n s Hr) as [HI _]; [lia|].
    apply (IH (S n) s1 s'); try done.
    + by eapply reach_call.
    + simpl. lia.
    + by apply (stray_run c r s s1).
Qed.

(** X3. The native cursor that [c_dbxml_get_query] allocated for a query
    whose construction failed is never released: whatever is called
    afterwards, [Close] of the iterator and of the connection included, the
    iterator is unchanged and its cursor is still allocated. *)
Theorem failed_Query_cursor_is_never_freed (n : nat) (s s' t : State)
    (db a : N) (d : Db.t) (q : string) (e : goerror) (cs : list call) :
  reach n s → N.of_nat (n + S (length cs)) < uint64_modulus →
  go_Db s !! db = Some d → Db.opened d = true →
  Db_Query db q s = Ok (a, Some e) s' → run_all cs s' = Some t →
  ∃ i, go_Docs s' !! a = Some i ∧ go_Docs t !! a = Some i ∧
       Docs.opened i = false ∧
       is_Some (c_docs_heap s' !! Docs.docs i) ∧
       is_Some (c_docs_heap t !! Docs.docs i).
Proof.
  intros Hr Hlt Hd Ho Hrun Hcs.
  destruct (reach_Inv n s Hr) as [HI _]; [lia|].
  assert (reach (S n) s') as Hr'.
  { apply (reach_call n s (Call_Query db q) (A_pointer_error a (Some e)) s' Hr).
    simpl. unfold answering, mbind, M_bind. by rewrite Hrun. }
  pose proof (inv_handle _ HI db d Hd Ho) as Hlive.
  rewrite (Db_Query_open db d q s Hd Ho Hlive) in Hrun.
  pose proof (c_dbxml_get_query_grows (Db.db d) q (after_new_Docs s)) as Hg.
  unfold post in Hg.
  destruct (c_dbxml_get_query (Db.db d) q (after_new_Docs s)) as [h s1|what s1|f];
    try done.
  destruct (c_dbxml_heap s1 !! Db.db d) as [x1|] eqn:Hx1; [|done].
  destruct (c_dbxml_t.error x1); [|done].
  injection Hrun as <- _ <-.
  destruct Hg as [G1 G2 G3 G4 G5 G6 G7 G8]. simpl in *.
  set (s' := logged _ (with_docs (go_brk s) h s1)) in *.
  set (i := Docs.set_docs h Docs.zero).
  assert (go_Docs s' !! go_brk s = Some i) as Hi
    by (unfold s'; simpl; apply lookup_insert_eq).
  assert (stray s' h) as Hs.
  { split.
    - unfold s'. simpl. apply elem_of_dom. rewrite G8.
      apply elem_of_union_l, elem_of_singleton. done.
    - intros b j Hb Hoj. unfold s' in Hb. simpl in Hb.
      destruct (decide (b = go_brk s)) as [->|Hne].
      { rewrite lookup_insert_eq in Hb. by injection Hb as <-. }
      rewrite lookup_insert_ne, G2, lookup_insert_ne in Hb by done.
      destruct (inv_open _ HI b j Hb Hoj) as [Hc _].
      apply (c_docs_below _ _ (inv_heap _ HI)) in Hc. lia. }
  exists i. split; [done|]. split.
  { pose proof (run_all_later cs s' t Hcs) as L.
    apply (later_Docs _ _ L (reach_heap_ok _ _ Hr') _ i Hi eq_refl). }
  split; [done|]. split; [apply Hs|].
  apply (stray_run_all h cs (S n) s' t); try done.
  by rewrite Nat.add_succ_r in Hlt.
Qed.

End strays.

(** ** Get, Put without replace, Remove *)

Section reads_and_writes.
Context `{E : DbXml}.




End reads_and_writes.

(** ** Merge *)

Section merging.
Context `{E : DbXml}.













End merging.

(** ** The cached name and content *)

Section caching.
Context `{E : DbXml}.

Lemma length_eqb_nonempty (t : string) :
  t ≠ "" → (String.length t =? 0)%nat = false.
Proof. by destruct t. Qed.

Lemma length_eqb_empty (t : string) :
  (String.length t =? 0)%nat = true → t = "".
Proof. by destruct t. Qed.

Lemma c_dbxml_docs_name_cached h s text s1 :
  c_dbxml_docs_name h s = Ok text s1 → text ≠ "" →
  go_Docs s1 = go_Docs s ∧
  c_dbxml_docs_name h s1 =
    Ok text (set_trace (trace s1 ++ [Enter (F_docs_name h)]) s1).
Proof.
  unfold c_dbxml_docs_name, extern_C, mbind, M_bind, mret, M_ret, deref_docs,
    assign_docs, lib. simpl.
  destruct (c_docs_heap s !! h) as [x|] eqn:Hx; [|done].
  destruct (c_dbxml_docs_t.more x) eqn:Hm; simpl.
  - destruct (String.length (c_dbxml_docs_t.name x) =? 0)%nat eqn:Hl; simpl.
    + destruct (getName _ _) as [[n|what] w]; simpl; [|done].
      rewrite Hx. simpl. rewrite lookup_insert_eq. simpl.
      intros [= <- <-] Hne. split; [done|]. simpl.
      rewrite lookup_insert_eq. simpl. rewrite Hm.
      rewrite (length_eqb_nonempty _ Hne). simpl. by rewrite lookup_insert_eq.
    + rewrite Hx. intros [= <- <-] Hne. split; [done|]. simpl.
      by rewrite Hx, Hm, Hl; simpl; rewrite Hx.
  - rewrite Hx. intros [= <- <-] Hne. split; [done|]. simpl.
    by rewrite Hx, Hm; simpl; rewrite Hx.
Qed.

Lemma c_dbxml_docs_content_cached h s text s1 :
  c_dbxml_docs_content h s = Ok text s1 → text ≠ "" →
  go_Docs s1 = go_Docs s ∧
  c_dbxml_docs_content h s1 =
    Ok text (set_trace (trace s1 ++ [Enter (F_docs_content h)]) s1).
Proof.
  unfold c_dbxml_docs_content, extern_C, mbind, M_bind, mret, M_ret, deref_docs,
    assign_docs, lib. simpl.
  destruct (c_docs_heap s !! h) as [x|] eqn:Hx; [|done].
  destruct (c_dbxml_docs_t.more x) eqn:Hm; simpl.
  - destruct (String.length (c_dbxml_docs_t.content x) =? 0)%nat eqn:Hl; simpl.
    + destruct (getContent _ _) as [[n|what] w]; simpl; [|done].
      rewrite Hx. simpl. rewrite lookup_insert_eq. simpl.
      intros [= <- <-] Hne. split; [done|]. simpl.
      rewrite lookup_insert_eq. simpl. rewrite Hm.
      rewrite (length_eqb_nonempty _ Hne). simpl. by rewrite lookup_insert_eq.
    + rewrite Hx. intros [= <- <-] Hne. split; [done|]. simpl.
      by rewrite Hx, Hm, Hl; simpl; rewrite Hx.
  - rewrite Hx. intros [= <- <-] Hne. split; [done|]. simpl.
    by rewrite Hx, Hm; simpl; rewrite Hx.
Qed.

(** X8. The name and the content of the current document are read from
    the engine at most once: when [Name] (or [Content]) has returned a text
    that is not empty, the next [Name] (or [Content]) returns the same text
    without any call of the engine, and changes nothing but the log of
    entered functions. *)
Theorem Name_Content_cached (s : State) (a : N) (i : Docs.t) :
  go_Docs s !! a = Some i →
  (∀ text s1,
     Docs_Name a s = Ok text s1 → text ≠ "" →
     Docs_Name a s1 =
       Ok text (set_trace (trace s1 ++ [Enter (F_docs_name (Docs.docs i))]) s1)) ∧
  (∀ text s1,
     Docs_Content a s = Ok text s1 → text ≠ "" →
     Docs_Content a s1 =
       Ok text
          (set_trace (trace s1 ++ [Enter (F_docs_content (Docs.docs i))]) s1)).
Proof.
  intros Ha. split; intros text s1.
  - unfold Docs_Name, mbind, M_bind, load_Docs. rewrite Ha.
    destruct (Docs.opened i && Docs.started i) eqn:Hos; simpl;
      [|by intros [= <- <-]].
    intros Hrun Hne.
    destruct (c_dbxml_docs_name_cached _ _ _ _ Hrun Hne) as [Hgo Hc].
    rewrite Hgo, Ha, Hos. exact Hc.
  - unfold Docs_Content, mbind, M_bind, load_Docs. rewrite Ha.
    destruct (Docs.opened i && Docs.started i) eqn:Hos; simpl;
      [|by intros [= <- <-]].
    intros Hrun Hne.
    destruct (c_dbxml_docs_content_cached _ _ _ _ Hrun Hne) as [Hgo Hc].
    rewrite Hgo, Ha, Hos. exact Hc.
Qed.

(** X9. A successful [Next] empties the cached name and content: the
    [Name] and the [Content] that follow are asked of the engine for the
    document that this [Next] fetched, and return what the engine says. *)
Theorem Name_Content_follow_Next (n : nat) (s s' : State) (a : N) (i : Docs.t) :
  reach n s → N.of_nat n < uint64_modulus →
  go_Docs s !! a = Some i → Docs_Next a s = Ok true s' →
  ∃ x it' doc',
    c_docs_heap s !! Docs.docs i = Some x ∧
    results_next (c_dbxml_docs_t.it x) (c_dbxml_docs_t.doc x) (world s) =
      (Val (true, it', doc'), world s') ∧
    match Docs_Name a s' with
    | Ok text s'' =>
        getName doc' (world s') = (Val text, world s'') ∧
        trace s'' = (trace s' ++ [Enter (F_docs_name (Docs.docs i));
                                  Lib L_getName None])%list
    | Raise _ _ => False
    | Fault f =>
        ∃ what, (getName doc' (world s')).1 = Throw what ∧ f = Uncaught what
    end ∧
    match Docs_Content a s' with
    | Ok text s'' =>
        getContent doc' (world s') = (Val text, world s'') ∧
        trace s'' = (trace s' ++ [Enter (F_docs_content (Docs.docs i));
                                  Lib L_getContent None])%list
    | Raise _ _ => False
    | Fault f =>
        ∃ what, (getContent doc' (world s')).1 = Throw what ∧ f = Uncaught what
    end.
Proof.
  intros Hr Hn Ha Hrun. destruct (reach_Inv n s Hr Hn) as [HI _].
  destruct (Docs.opened i) eqn:Ho; cycle 1.
  { by rewrite (Docs_Next_closed a i s Ha Ho) in Hrun. }
  destruct (Inv_owner s a i HI Ha Ho) as (p & o & Hp & Hd & Hk & Hop & [x Hx]).
  rewrite (Docs_Next_open a i p o s) in Hrun by eauto.
  assert (c_docs_heap (started_state a i s) !! Docs.docs i = Some x) as Hx' by done.
  rewrite (c_dbxml_docs_next_run _ x _ Hx') in Hrun.
  destruct (c_dbxml_docs_t.more x); [|done].
  destruct (results_next _ _ _) as [[[[[] it'] doc']|what] w'] eqn:Hnext;
    simpl in Hrun; try done.
  injection Hrun as <-. exists x, it', doc'. split; [done|]. split; [done|].
  unfold Docs_Name, Docs_Content, c_dbxml_docs_name, c_dbxml_docs_content,
    extern_C, mbind, M_bind, mret, M_ret, load_Docs, deref_docs, assign_docs, lib.
  simpl. rewrite !lookup_insert_eq. simpl. rewrite Ho. simpl.
  rewrite !lookup_insert_eq. simpl. split.
  - destruct (getName doc' w') as [[t|what] w]; simpl; [|by eexists].
    rewrite !lookup_insert_eq. simpl. rewrite !lookup_insert_eq. simpl.
    split; [done|]. by rewrite <- app_assoc.
  - destruct (getContent doc' w') as [[t|what] w]; simpl; [|by eexists].
    rewrite !lookup_insert_eq. simpl. rewrite !lookup_insert_eq. simpl.
    split; [done|]. by rewrite <- app_assoc.
Qed.

End caching.

(** ** The cursors released by Close *)

Section closing.
Context `{E : DbXml}.

Lemma child_cursors_range s m h : ∀ n id,
  h ∈ child_cursors s m id n →
  ∃ k a i, id ≤ k ∧ m !! k = Some a ∧ go_Docs s !! a = Some i ∧ Docs.docs i = h.
Proof.
  induction n as [|n IH]; intros id; simpl; [by rewrite elem_of_nil|].
  rewrite elem_of_app. intros [Hin|Hin].
  - destruct (m !! id) as [a|] eqn:Hk; [|by apply elem_of_nil in Hin].
    destruct (go_Docs s !! a) as [i|] eqn:Ha; [|by apply elem_of_nil in Hin].
    apply list_elem_of_singleton in Hin as ->. exists id, a, i. split; [lia|done].
  - destruct (IH _ Hin) as (k & a & i & Hle & H). exists k, a, i.
    split; [lia|done].
Qed.

Lemma child_cursors_NoDup s p d :
  Inv s → go_Db s !! p = Some d →
  ∀ n id, NoDup (child_cursors s (Db.docss d) id n).
Proof.
  intros HI Hd. induction n as [|n IH]; intros id; simpl; [constructor|].
  apply NoDup_app. split; [|split; [|apply IH]].
  - destruct (Db.docss d !! id) as [a|]; [|constructor].
    destruct (go_Docs s !! a) as [i|]; [|constructor]. apply NoDup_singleton.
  - intros h Hin Hrest.
    destruct (Db.docss d !! id) as [a|] eqn:Hk; [|by apply elem_of_nil in Hin].
    destruct (go_Docs s !! a) as [i|] eqn:Ha; [|by apply elem_of_nil in Hin].
    apply list_elem_of_singleton in Hin as ->.
    apply child_cursors_range in Hrest as (k & b & j & Hle & Hkb & Hb & Hjh).
    destruct (inv_child _ HI p d id a Hd Hk) as (_ & i' & Hi' & Hoi & _ & Hid).
    destruct (inv_child _ HI p d k b Hd Hkb) as (_ & j' & Hj' & Hoj & _ & Hjd).
    assert (i' = i) as -> by congruence. assert (j' = j) as -> by congruence.
    assert (b = a) as -> by (by apply (inv_cursor_inj _ HI b a j i)).
    assert (j = i) as -> by congruence. lia.
Qed.

(** X10. [Close] on an open connection releases each native cursor of a
    registered iterator exactly once, and no other cursor: the cursors it
    passes to [c_dbxml_docs_free] are pairwise different and are exactly
    those of the iterators in [docss]; the handle is released after them. *)
Theorem Close_frees_each_cursor_once (n : nat) (s : State) (db : N) (d : Db.t) :
  reach n s → N.of_nat n < uint64_modulus →
  go_Db s !! db = Some d → Db.opened d = true →
  ∃ s' l,
    Db_Close db s = Ok tt s' ∧
    trace s' = (trace s ++ map (λ h, Enter (F_docs_free h)) l
                        ++ [Enter (F_free (Db.db d))])%list ∧
    NoDup l ∧
    (∀ h, h ∈ l ↔
          ∃ k a i, Db.docss d !! k = Some a ∧ go_Docs s !! a = Some i ∧
                   Docs.docs i = h) ∧
    (∀ h, c_docs_heap s' !! h =
          if bool_decide (h ∈ l) then None else c_docs_heap s !! h).
Proof.
  intros Hr Hn Hd Ho. destruct (reach_Inv n s Hr Hn) as [HI _].
  destruct (Db_Close_open db d s HI Hd Ho) as [Hrun _].
  exists (after_Db_Close db d s), (cursors_of s d).
  split; [done|]. split; [done|].
  split; [by apply (child_cursors_NoDup s db d)|]. split.
  - intros h. split; [apply child_cursors_inv|].
    intros (k & a & i & Hk & Ha & <-).
    destruct (inv_child _ HI db d k a Hd Hk) as (Hlt & _).
    apply (child_cursors_elem s _ k a i); try done; lia.
  - intros h. simpl. case_bool_decide as Hin.
    + by apply foldl_delete_elem.
    + by apply foldl_delete_other.
Qed.

End closing.

(** ** Making and closing an iterator *)

Section round_trips.
Context `{E : DbXml}.

(** X11. An iterator that is made and closed leaves nothing behind.  When
    [All] or [Query] on a connection returned an iterator without error and
    [Close] is called on that iterator, the [docss] of the connection and
    the sets of allocated handles and cursors are what they were before the
    iterator was made; of the connection only the id counter has moved, by
    one. *)
Theorem made_then_closed (n : nat) (s s1 : State) (c : call) (db a : N)
    (d : Db.t) :
  reach n s → N.of_nat n + 1 < uint64_modulus →
  c = Call_All db ∨ (∃ q, c = Call_Query db q) →
  go_Db s !! db = Some d →
  run c s = Ok (A_pointer_error a None) s1 →
  ∃ s2,
    Docs_Close a s1 = Ok tt s2 ∧
    go_Db s2 = <[db := Db.set_next (uint64_incr (Db.next d)) d]> (go_Db s) ∧
    dom (c_docs_heap s2) = dom (c_docs_heap s) ∧
    dom (c_dbxml_heap s2) = dom (c_dbxml_heap s) ∧
    ∃ i, go_Docs s2 !! a = Some i ∧ Docs.opened i = false.
Proof.
  intros Hr Hn Hc Hd Hrun.
  destruct (reach_Inv n s Hr) as [HI _]; [lia|].
  assert (Db.docss d !! Db.next d = None) as Hfree.
  { destruct (Db.docss d !! Db.next d) as [b|] eqn:Hb; [|done].
    destruct (inv_child _ HI db d _ b Hd Hb) as [Hlt _]. lia. }
  assert (c_docs_heap s !! c_brk s = None) as Hnew
    by (apply (c_docs_fresh _ (inv_heap _ HI)); lia).
  assert (∀ h s0 s',
            grown_docs (after_new_Docs s) s0 h →
            go_Db s' = go_Db s0 → go_Docs s' = <[go_brk s := Docs.set_docs h Docs.zero]> (go_Docs s0) →
            c_docs_heap s' = c_docs_heap s0 → c_dbxml_heap s' = c_dbxml_heap s0 →
            Db.opened d = true →
            let t := after_register db d (go_brk s) (Docs.set_docs h Docs.zero) s' in
            ∃ s2,
              Docs_Close (go_brk s) t = Ok tt s2 ∧
              go_Db s2 = <[db := Db.set_next (uint64_incr (Db.next d)) d]> (go_Db s) ∧
              dom (c_docs_heap s2) = dom (c_docs_heap s) ∧
              dom (c_dbxml_heap s2) = dom (c_dbxml_heap s) ∧
              ∃ i, go_Docs s2 !! go_brk s = Some i ∧ Docs.opened i = false) as Hmain.
  { intros h s0 s' [G1 G2 G3 G4 G5 G6 G7 G8] E1 E2 E3 E4 Ho t. simpl in *.
    set (i := registered db d (Docs.set_docs h Docs.zero)).
    assert (go_Docs t !! go_brk s = Some i) as Hi by (simpl; apply lookup_insert_eq).
    assert (go_Db t !! db = Some (filed (go_brk s) d)) as Hd'
      by (simpl; apply lookup_insert_eq).
    assert (is_Some (c_docs_heap t !! h)) as Hlive.
    { simpl. rewrite E3. apply elem_of_dom. rewrite G8.
      apply elem_of_union_l, elem_of_singleton. done. }
    exists (after_close (go_brk s) i db (filed (go_brk s) d) t).
    split; [unfold Docs_Close; by apply Docs_close_open|]. simpl.
    split; [|split; [|split]].
    - rewrite insert_insert_eq, E1, G1. f_equal. unfold unfiled, filed. simpl.
      unfold Db.set_next. f_equal. rewrite delete_insert_eq.
      by apply delete_id.
    - rewrite E3, dom_delete_L, G8, G5.
      apply set_eq. intros y. rewrite elem_of_difference, elem_of_union,
        !elem_of_singleton, !elem_of_dom. split.
      + intros [[->|Hy] Hne]; done.
      + intros Hy. split; [by right|]. intros ->. rewrite Hnew in Hy.
        by destruct Hy.
    - by rewrite E4, G7.
    - rewrite lookup_insert_eq. by eexists. }
  destruct Hc as [->|[q ->]]; simpl in Hrun;
    apply answering_inv in Hrun as ([b e] & Hrun & [= <- <-]).
  - destruct (Db.opened d) eqn:Ho; cycle 1.
    { by rewrite (Db_All_closed db d s Hd Ho) in Hrun. }
    rewrite (Db_All_open db d s Hd Ho) in Hrun.
    pose proof (c_dbxml_get_all_grows (Db.db d) (after_new_Docs s)) as Hg.
    unfold post in Hg.
    destruct (c_dbxml_get_all (Db.db d) (after_new_Docs s)) as [h s0|what s0|f];
      try done.
    injection Hrun as <- <-. by apply (Hmain h s0).
  - destruct (Db.opened d) eqn:Ho; cycle 1.
    { by rewrite (Db_Query_closed db d _ s Hd Ho) in Hrun. }
    rewrite (Db_Query_open db d _ s Hd Ho) in Hrun
      by exact (inv_handle _ HI db d Hd Ho).
    pose proof (c_dbxml_get_query_grows (Db.db d) q (after_new_Docs s)) as Hg.
    unfold post in Hg.
    destruct (c_dbxml_get_query (Db.db d) q (after_new_Docs s))
      as [h s0|what s0|f]; try done.
    destruct (c_dbxml_heap s0 !! Db.db d) as [x1|]; [|done].
    destruct (c_dbxml_t.error x1); [done|].
    injection Hrun as <- <-. by apply (Hmain h s0).
Qed.

End round_trips.

(** ** The error of Open *)

Section open_errors.
Context `{E : DbXml}.





End open_errors.

(** ** Size and All *)

Section no_error_path.
Context `{E : DbXml}.

(** X13. [Size] and [All] have no error path of their own.  On an open
    connection [Size] returns the engine's count, cut to 64 bits, with a nil
    error, and [All] returns an open, registered iterator with a nil error;
    an exception of [getNumDocuments] or [getAllDocuments] is not turned
    into an error: the run stops on it. *)
Theorem Size_All_never_report (s : State) (db : N) (d : Db.t) (x : c_dbxml_t.t) :
  go_Db s !! db = Some d → Db.opened d = true →
  c_dbxml_heap s !! Db.db d = Some x →
  match getNumDocuments (c_dbxml_t.container x) (world s) with
  | (Val n, w) =>
      Db_Size db s =
        Ok (n mod uint64_modulus, None)
           (set_trace (trace s ++ [Enter (F_size (Db.db d));
                                   Lib L_getNumDocuments None])
              (set_world w s))
  | (Throw what, _) => Db_Size db s = Fault (Uncaught what)
  end ∧
  match getAllDocuments (c_dbxml_t.container x) (world s) with
  | (Val it, w) =>
      ∃ s' i y,
        Db_All db s = Ok (go_brk s, None) s' ∧ world s' = w ∧
        go_Docs s' !! go_brk s = Some i ∧
        i = Docs.mk (Some db) (Db.next d) false true (c_brk s) ∧
        c_docs_heap s' !! c_brk s = Some y ∧
        c_dbxml_docs_t.it y = it ∧ c_dbxml_docs_t.more y = true ∧
        go_Db s' !! db = Some (filed (go_brk s) d)
  | (Throw what, _) => Db_All db s = Fault (Uncaught what)
  end.
Proof.
  intros Hd Ho Hx. split.
  - unfold Db_Size, c_dbxml_size, extern_C, mbind, M_bind, mret, M_ret, load_Db,
      deref, lib. rewrite Hd, Ho. simpl. rewrite Hx. simpl.
    destruct (getNumDocuments _ _) as [[n|what] w]; simpl; [|done].
    by rewrite <- app_assoc.
  - rewrite (Db_All_open db d s Hd Ho).
    unfold c_dbxml_get_all, clear_error, extern_C, mbind, M_bind, mret, M_ret,
      assign, deref, lib, new_c_dbxml_docs_t, assign_docs.
    repeat first [rewrite Hx | rewrite lookup_insert_eq | progress simpl].
    destruct (getAllDocuments _ _) as [[it|what] w]; simpl; [|done].
    rewrite !lookup_insert_eq. simpl. rewrite !lookup_insert_eq. simpl.
    eexists _, _, _. split; [reflexivity|]. simpl.
    rewrite !lookup_insert_eq. repeat split; done.
Qed.

End no_error_path.

(** ** The reference of an iterator to its connection *)

Section references.
Context `{E : DbXml}.

Lemma refers_same s s' :
  go_Docs s' = go_Docs s → refers_while_open s → refers_while_open s'.
Proof. intros Heq H a i. rewrite Heq. apply H. Qed.

Lemma refers_insert s s' a j :
  go_Docs s' = <[a := j]> (go_Docs s) →
  (Docs.opened j = true ↔ is_Some (Docs.db j)) →
  refers_while_open s → refers_while_open s'.
Proof.
  intros Heq Hj H b i. rewrite Heq.
  destruct (decide (b = a)) as [->|Hne].
  - rewrite lookup_insert_eq. by intros [= <-].
  - rewrite lookup_insert_ne by done. apply H.
Qed.

Lemma closed_Docs_refers i :
  Docs.opened (closed_Docs i) = true ↔ is_Some (Docs.db (closed_Docs i)).
Proof. simpl. split; [done | by intros [? ?]]. Qed.

Lemma refers_run c r s s' :
  Inv s → refers_while_open s → run c s = Ok r s' → refers_while_open s'.
Proof.
  intros HI Hu Hrun.
  assert (∀ {A} (m : M A) x, keeps shape m → m s = Ok x s' → refers_while_open s')
    as Hshape.
  { intros A m x Hk Hm. apply (refers_same s); [|done].
    by destruct (keeps_Ok shape m s x s' Hk Hm). }
  assert (Docs.opened Docs.zero = true ↔ is_Some (Docs.db Docs.zero)) as Hzero.
  { simpl. split; [done | by intros [? ?]]. }
  destruct c; simpl in Hrun; apply answering_inv in Hrun as (x & Hrun & ->).
  - (* Open *)
    rewrite Open_run in Hrun.
    pose proof (c_dbxml_open_grows filename (after_new_Db s)) as Hg. unfold post in Hg.
    destruct (c_dbxml_open filename (after_new_Db s)) as [h s1|what s1|y]; try done.
    destruct (c_dbxml_heap s1 !! h) as [y|] eqn:Hy; [|done].
    destruct Hg as [G1 G2 G3 G4 G5 G6 G7 G8]. simpl in *.
    destruct (c_dbxml_t.error y); injection Hrun as <- <-;
      by apply (refers_same s).
  - (* Close *)
    destruct (go_Db s !! db) as [d|] eqn:Hd; cycle 1.
    { unfold Db_Close, mbind, M_bind, load_Db in Hrun. by rewrite Hd in Hrun. }
    destruct (Db.opened d) eqn:Ho.
    + destruct (Db_Close_open db d s HI Hd Ho) as [Hrun' _].
      rewrite Hrun' in Hrun. injection Hrun as <- <-.
      intros a i Ha. simpl in Ha. rewrite lookup_fmap in Ha.
      destruct (go_Docs s !! a) as [j|] eqn:Hj; [|done].
      injection Ha as <-. unfold close_of.
      destruct (Docs.opened j && bool_decide (Docs.db j = Some db));
        [apply closed_Docs_refers | by apply (Hu a)].
    + rewrite (Db_Close_closed db d s Hd Ho) in Hrun. by injection Hrun as <- <-.
  - eapply Hshape; [apply keeps_shape_Db_PutFile | done].
  - eapply Hshape; [apply keeps_shape_Db_PutXml | done].
  - eapply Hshape; [apply keeps_shape_Db_Merge | done].
  - eapply Hshape; [apply keeps_shape_Db_Remove | done].
  - eapply Hshape; [apply keeps_shape_Db_Get | done].
  - eapply Hshape; [apply keeps_shape_Db_Size | done].
  - (* All *)
    destruct (go_Db s !! db) as [d|] eqn:Hd; cycle 1.
    { unfold Db_All, mbind, M_bind in Hrun. rewrite new_Docs_run in Hrun.
      unfold load_Db in Hrun. simpl in Hrun. by rewrite Hd in Hrun. }
    destruct (Db.opened d) eqn:Ho; cycle 1.
    { rewrite (Db_All_closed db d s Hd Ho) in Hrun. injection Hrun as <- <-.
      by apply (refers_insert s _ (go_brk s) Docs.zero). }
    rewrite (Db_All_open db d s Hd Ho) in Hrun.
    pose proof (c_dbxml_get_all_grows (Db.db d) (after_new_Docs s)) as Hg.
    unfold post in Hg.
    destruct (c_dbxml_get_all (Db.db d) (after_new_Docs s)) as [h s1|what s1|f];
      try done.
    injection Hrun as <- <-.
    destruct Hg as [G1 G2 G3 G4 G5 G6 G7 G8]. simpl in *.
    eapply (refers_insert s _ (go_brk s));
      [simpl; by rewrite G2, !insert_insert_eq | simpl | done].
    split; [by eexists | done].
  - (* Query *)
    destruct (go_Db s !! db) as [d|] eqn:Hd; cycle 1.
    { unfold Db_Query, mbind, M_bind in Hrun. rewrite new_Docs_run in Hrun.
      unfold load_Db in Hrun. simpl in Hrun. by rewrite Hd in Hrun. }
    destruct (Db.opened d) eqn:Ho; cycle 1.
    { rewrite (Db_Query_closed db d _ s Hd Ho) in Hrun. injection Hrun as <- <-.
      by apply (refers_insert s _ (go_brk s) Docs.zero). }
    rewrite (Db_Query_open db d _ s Hd Ho) in Hrun
      by exact (inv_handle _ HI db d Hd Ho).
    pose proof (c_dbxml_get_query_grows (Db.db d) query_ (after_new_Docs s)) as Hg.
    unfold post in Hg.
    destruct (c_dbxml_get_query (Db.db d) query_ (after_new_Docs s))
      as [h s1|what s1|f]; try done.
    destruct (c_dbxml_heap s1 !! Db.db d) as [x1|]; [|done].
    destruct Hg as [G1 G2 G3 G4 G5 G6 G7 G8]. simpl in *.
    destruct (c_dbxml_t.error x1); injection Hrun as <- <-;
      (eapply (refers_insert s _ (go_brk s));
       [simpl; by rewrite G2, !insert_insert_eq | simpl | done]).
    + split; [done | by intros [? ?]].
    + split; [by eexists | done].
  - (* Next *)
    destruct (go_Docs s !! docs) as [i|] eqn:Ha; cycle 1.
    { unfold Docs_Next, mbind, M_bind, load_Docs in Hrun. by rewrite Ha in Hrun. }
    destruct (Docs.opened i) eqn:Ho; cycle 1.
    { rewrite (Docs_Next_closed docs i s Ha Ho) in Hrun. by injection Hrun as <- <-. }
    destruct (Inv_owner s docs i HI Ha Ho) as (p & o & Hp & Hd & Hk & Hop & Hc).
    rewrite (Docs_Next_open docs i p o s) in Hrun by done.
    pose proof (keeps_shape_c_dbxml_docs_next (Docs.docs i) (started_state docs i s))
      as Hsh. unfold post in Hsh.
    destruct (c_dbxml_docs_next (Docs.docs i) (started_state docs i s))
      as [r s2|what s2|f]; try done.
    destruct Hsh as [S1 S2 S3 S4 S5 S6 S7]. simpl in *.
    destruct (r =? 0)%Z; injection Hrun as <- <-.
    + eapply (refers_insert s _ docs);
        [simpl; by rewrite S2, insert_insert_eq | apply closed_Docs_refers | done].
    + eapply (refers_insert s _ docs); [done | simpl | done].
      rewrite Ho, Hp. split; [by eexists | done].
  - eapply Hshape; [apply keeps_shape_Docs_Name | done].
  - eapply Hshape; [apply keeps_shape_Docs_Content | done].
  - (* Docs.Close *)
    destruct (go_Docs s !! docs) as [i|] eqn:Ha; cycle 1.
    { unfold Docs_Close, Docs_close, mbind, M_bind, load_Docs in Hrun.
      by rewrite Ha in Hrun. }
    destruct (Docs.opened i) eqn:Ho; cycle 1.
    { unfold Docs_Close in Hrun.
      rewrite (Docs_close_closed docs i s Ha Ho) in Hrun. by injection Hrun as <- <-. }
    destruct (Inv_owner s docs i HI Ha Ho) as (p & o & Hp & Hd & Hk & Hop & Hc).
    unfold Docs_Close in Hrun.
    rewrite (Docs_close_open docs i p o s) in Hrun by done.
    injection Hrun as <- <-.
    eapply (refers_insert s _ docs); [done | apply closed_Docs_refers | done].
Qed.

(** X14. In every state reached by fewer than 2^64 calls an iterator
    refers to a connection exactly while it is open, and then to the
    connection in whose [docss] it is: closing an iterator, by any path, drops
    its reference, so that a closed iterator keeps no connection alive. *)
Theorem iterator_refers_while_open (n : nat) (s : State) (a : N) (i : Docs.t) :
  reach n s → N.of_nat n < uint64_modulus → go_Docs s !! a = Some i →
  (Docs.opened i = true ↔ is_Some (Docs.db i)) ∧
  (∀ p, Docs.db i = Some p →
        ∃ d, go_Db s !! p = Some d ∧ Db.opened d = true ∧
             Db.docss d !! Docs.id i = Some a).
Proof.
  intros Hr Hn Ha. destruct (reach_Inv n s Hr Hn) as [HI _].
  assert (refers_while_open s) as Hu.
  { clear HI Ha. induction Hr as [w|n s c r s' Hr IH Hc].
    - intros b j Hb. simpl in Hb. by rewrite lookup_empty in Hb.
    - assert (N.of_nat n < uint64_modulus) as Hn' by lia.
      destruct (reach_Inv n s Hr Hn') as [HI _].
      by apply (refers_run c r s s' HI (IH Hn')). }
  split; [by apply (Hu a)|].
  intros p Hp.
  assert (Docs.opened i = true) as Ho by (apply (Hu a i Ha); by eexists).
  destruct (Inv_owner s a i HI Ha Ho) as (q & o & Hq & Hd & Hk & Hop & _).
  exists o. assert (q = p) as -> by congruence. done.
Qed.

End references.

(** ** One connection or iterator and the others *)

Section isolation.
Context `{E : DbXml}.

(** X15. [Close] on one connection leaves every other connection alone:
    their records, native handles and the iterators that do not belong to
    the closed connection, with their cursors, are as before. *)
Theorem Close_leaves_other_connections (n : nat) (s s' : State) (db : N) :
  reach n s → N.of_nat n < uint64_modulus →
  Db_Close db s = Ok tt s' →
  (∀ q, q ≠ db → go_Db s' !! q = go_Db s !! q) ∧
  (∀ q e, q ≠ db → go_Db s !! q = Some e → Db.opened e = true →
          c_dbxml_heap s' !! Db.db e = c_dbxml_heap s !! Db.db e) ∧
  (∀ a i, go_Docs s !! a = Some i → Docs.db i ≠ Some db →
          go_Docs s' !! a = Some i ∧
          (Docs.opened i = true →
           c_docs_heap s' !! Docs.docs i = c_docs_heap s !! Docs.docs i)).
Proof.
  intros Hr Hn Hrun. destruct (reach_Inv n s Hr Hn) as [HI _].
  destruct (go_Db s !! db) as [d|] eqn:Hd; cycle 1.
  { unfold Db_Close, mbind, M_bind, load_Db in Hrun. by rewrite Hd in Hrun. }
  destruct (Db.opened d) eqn:Ho; cycle 1.
  { rewrite (Db_Close_closed db d s Hd Ho) in Hrun. injection Hrun as <-.
    repeat split; done. }
  destruct (Db_Close_open db d s HI Hd Ho) as [Hrun' _].
  rewrite Hrun' in Hrun. injection Hrun as <-. split; [|split].
  - intros q Hq. simpl. by rewrite lookup_insert_ne.
  - intros q e Hq He Hoe. simpl. rewrite lookup_delete_ne; [done|].
    intros Heq. apply Hq. by apply (inv_handle_inj _ HI q db e d).
  - intros a i Ha Hne. split.
    + simpl. rewrite lookup_fmap, Ha. simpl. f_equal. unfold close_of.
      rewrite bool_decide_eq_false_2 by done. by rewrite andb_false_r.
    + intros Hoi. simpl. apply foldl_delete_other.
      intros Hin. apply child_cursors_inv in Hin as (k & b & j & Hk & Hj & Hjh).
      destruct (inv_child _ HI db d k b Hd Hk) as (_ & j' & Hj' & Hoj & Hpj & _).
      assert (j' = j) as -> by congruence.
      assert (b = a) as -> by (by apply (inv_cursor_inj _ HI b a j i)).
      congruence.
Qed.

(** X16. [Next] on one iterator leaves every other iterator alone: no
    other iterator record and no other native cursor changes, whether this
    [Next] advances or closes its iterator. *)
Theorem Next_leaves_other_iterators (n : nat) (s s' : State) (a : N)
    (i : Docs.t) (b : bool) :
  reach n s → N.of_nat n < uint64_modulus →
  go_Docs s !! a = Some i → Docs_Next a s = Ok b s' →
  (∀ a', a' ≠ a → go_Docs s' !! a' = go_Docs s !! a') ∧
  (∀ h, h ≠ Docs.docs i → c_docs_heap s' !! h = c_docs_heap s !! h) ∧
  c_dbxml_heap s' = c_dbxml_heap s.
Proof.
  intros Hr Hn Ha Hrun. destruct (reach_Inv n s Hr Hn) as [HI _].
  destruct (Docs.opened i) eqn:Ho; cycle 1.
  { rewrite (Docs_Next_closed a i s Ha Ho) in Hrun. by injection Hrun as <- <-. }
  destruct (Inv_owner s a i HI Ha Ho) as (p & o & Hp & Hd & Hk & Hop & [x Hx]).
  rewrite (Docs_Next_open a i p o s) in Hrun by eauto.
  assert (c_docs_heap (started_state a i s) !! Docs.docs i = Some x) as Hx' by done.
  rewrite (c_dbxml_docs_next_run _ x _ Hx') in Hrun.
  destruct (c_dbxml_docs_t.more x).
  - destruct (results_next _ _ _) as [[[[[] it'] doc']|what] w']; simpl in Hrun;
      try done; injection Hrun as <- <-; simpl; (split; [|split; [|done]]).
    + intros a' Hne. by rewrite lookup_insert_ne.
    + intros h Hne. by rewrite lookup_insert_ne.
    + intros a' Hne. by rewrite !lookup_insert_ne.
    + intros h Hne. by rewrite lookup_delete_ne, lookup_insert_ne.
  - simpl in Hrun. injection Hrun as <- <-. simpl. split; [|split; [|done]].
    + intros a' Hne. by rewrite !lookup_insert_ne.
    + intros h Hne. by rewrite lookup_delete_ne.
Qed.

End isolation.

(** * The properties on the toy engine *)

Lemma demo_after_reach cs :
  is_Some (run_all cs (@init Toy.engine Toy.w0)) →
  reach (length cs) (demo_after cs).
Proof.
  intros [s Hs]. unfold demo_after. rewrite Hs. simpl.
  apply (reach_run_all (E:=Toy.engine) cs 0 (@init Toy.engine Toy.w0));
    [apply reach_init | done].
Qed.

Lemma closed_connection_refuses_witness :
  ∃ r s3, run (Call_Size 1) demo_reopened = Ok r s3 ∧
          error_of r = Some errclosed ∧ untouched demo_reopened s3.
Proof.
  apply (closed_connection_refuses (E:=Toy.engine) 1 demo_opened demo_closed
           demo_reopened 1 [Call_Open "y.dbxml"] (Call_Size 1)).
  - apply (demo_after_reach [Call_Open "x.dbxml"]). vm_compute; eauto.
  - vm_compute; reflexivity.
  - vm_compute; reflexivity.
  - reflexivity.
Defined.

Lemma Close_forces_children_witness :
  ∃ s', Db_Close 1 demo_listing = Ok tt s' ∧
        go_Docs s' !! 2 = Some (closed_Docs demo_Docs) ∧
        c_docs_heap s' !! 2 = None ∧ c_dbxml_heap s' !! 1 = None.
Proof.
  destruct (Close_forces_children (E:=Toy.engine) 3 demo_listing 1
              demo_Db_listing) as (s' & Hclose & Hkids & _ & Hfree & _).
  - apply (demo_after_reach
             [Call_Open "x.dbxml"; Call_PutXml 1 "a" "<a/>" false; Call_All 1]).
    vm_compute; eauto.
  - done.
  - vm_compute; reflexivity.
  - reflexivity.
  - destruct (Hkids 0 2) as (i & Hi & Hi' & _ & Hc); [vm_compute; reflexivity|].
    assert (go_Docs demo_listing !! 2 = Some demo_Docs) as Hd
      by (vm_compute; reflexivity).
    assert (i = demo_Docs) as -> by congruence.
    exists s'. split; [exact Hclose|]. split; [exact Hi'|].
    split; [exact Hc | exact Hfree].
Defined.

Lemma Name_Content_empty_witness :
  Docs_Name 2 demo_listing = Ok EmptyString demo_listing ∧
  Docs_Content 2 demo_listing = Ok EmptyString demo_listing.
Proof.
  destruct (Name_Content_empty (E:=Toy.engine) demo_listing 2 demo_Docs) as [H _].
  - vm_compute; reflexivity.
  - apply H. by left.
Defined.



Lemma failed_Query_iterator_is_inert_witness :
  ∃ i, go_Docs demo_bad_query !! 2 = Some i ∧ Docs.opened i = false ∧
       (2 ∉ finalizers demo_bad_query) ∧
       Docs_Close 2 demo_bad_query = Ok tt demo_bad_query.
Proof.
  destruct (failed_Query_iterator_is_inert (E:=Toy.engine) 1 demo_opened
              demo_bad_query 1 2 demo_Db "//a[" (errors_New "syntax error"))
    as (i & Hi & Ho & _ & _ & Hf & _ & Hc & _).
  - apply (demo_after_reach [Call_Open "x.dbxml"]). vm_compute; eauto.
  - done.
  - vm_compute; reflexivity.
  - reflexivity.
  - vm_compute; reflexivity.
  - exists i. split; [exact Hi|]. split; [exact Ho|]. split; [exact Hf | exact Hc].
Defined.



Lemma error_state_protocol_witness :
  c_dbxml_heap demo_opened !! 1 = Some demo_handle ∧
  match run_native (Op_get "nope") 1 demo_opened with
  | Ok r s' => error_protocol (Op_get "nope") 1 r demo_opened s'
  | Raise _ _ => False
  | Fault f => catches_all (Op_get "nope") = false ∧ ∃ what, f = Uncaught what
  end.
Proof.
  assert (c_dbxml_heap demo_opened !! 1 = Some demo_handle) as H
    by (vm_compute; reflexivity).
  split; [exact H|].
  exact (error_state_protocol (Op_get "nope") 1 demo_handle demo_opened H).
Defined.

(** C7, as stated, fails for [c_dbxml_size].  After a [Get] that failed,
    [c_dbxml_size] on the same handle returns the count, its one engine call
    does not throw, and the error flag is still set with the text of the
    earlier failure: the flag was not cleared, and it is set although the
    operation did not fail. *)
Lemma size_keeps_stale_error :
  ∃ x r s' x',
    c_dbxml_heap demo_failed_get !! 1 = Some x ∧
    run_native Op_size 1 demo_failed_get = Ok r s' ∧
    r = R_count 0 ∧
    trace s' = (trace demo_failed_get ++
                [Enter (F_size 1); Lib L_getNumDocuments None])%list ∧
    c_dbxml_heap s' !! 1 = Some x' ∧
    c_dbxml_t.error x' = true ∧
    c_dbxml_t.errstring x' = "document not found" ∧
    ¬ error_protocol Op_size 1 r demo_failed_get s'.
Proof.
  eexists _, _, _, _.
  split; [vm_compute; reflexivity|].
  split; [vm_compute; reflexivity|].
  split; [reflexivity|]. split; [reflexivity|].
  split; [vm_compute; reflexivity|].
  split; [reflexivity|]. split; [reflexivity|].
  intros (x' & l & L & T & F1 & F2 & _).
  vm_compute in L. injection L as <-.
  vm_compute in T. injection T as <-.
  discriminate F1.
Qed.

Lemma run_safe_witness :
  allocated (Call_Next 2) demo_listing ∧
  safe (run (Call_Next 2) demo_listing).
Proof.
  assert (allocated (Call_Next 2) demo_listing) as Ha by (vm_compute; eauto).
  split; [exact Ha|].
  destruct (run_safe (E:=Toy.engine) 3 demo_listing (Call_Next 2)) as [H _].
  - apply (demo_after_reach
             [Call_Open "x.dbxml"; Call_PutXml 1 "a" "<a/>" false; Call_All 1]).
    vm_compute; eauto.
  - reflexivity.
  - exact Ha.
  - exact H.
Defined.

Lemma handles_of_open_connections_witness :
  reach 1 demo_opened ∧ owned demo_opened 1.
Proof.
  assert (reach 1 demo_opened) as Hr.
  { apply (demo_after_reach [Call_Open "x.dbxml"]). vm_compute; eauto. }
  split; [exact Hr|].
  destruct (handles_of_open_connections (E:=Toy.engine) 1 demo_opened Hr)
    as [H _]; [reflexivity|].
  apply H. vm_compute; eauto.
Defined.

Lemma failed_Query_cursor_is_never_freed_witness :
  ∃ i, go_Docs demo_bad_query_closed !! 2 = Some i ∧
       Docs.opened i = false ∧
       is_Some (c_docs_heap demo_bad_query_closed !! Docs.docs i).
Proof.
  destruct (failed_Query_cursor_is_never_freed (E:=Toy.engine) 1 demo_opened
              demo_bad_query demo_bad_query_closed 1 2 demo_Db "//a["
              (errors_New "syntax error") [Call_DocsClose 2; Call_Close 1])
    as (i & _ & Hi & Ho & _ & Hc).
  - apply (demo_after_reach [Call_Open "x.dbxml"]). vm_compute; eauto.
  - reflexivity.
  - vm_compute; reflexivity.
  - reflexivity.
  - vm_compute; reflexivity.
  - vm_compute; reflexivity.
  - exists i. split; [exact Hi|]. split; [exact Ho | exact Hc].
Defined.





Lemma Name_Content_cached_witness :
  go_Docs demo_advanced !! 2 = Some demo_Docs_advanced ∧
  ∀ text s1,
    Docs_Name 2 demo_advanced = Ok text s1 → text ≠ "" →
    Docs_Name 2 s1 =
      Ok text (set_trace (trace s1 ++ [Enter (F_docs_name 2)]) s1).
Proof.
  assert (go_Docs demo_advanced !! 2 = Some demo_Docs_advanced) as Ha
    by (vm_compute; reflexivity).
  split; [exact Ha|].
  exact (proj1 (Name_Content_cached (E:=Toy.engine) demo_advanced 2
                  demo_Docs_advanced Ha)).
Defined.

Lemma Name_Content_follow_Next_witness :
  ∃ x it' doc',
    c_docs_heap demo_listing !! 2 = Some x ∧
    results_next (c_dbxml_docs_t.it x) (c_dbxml_docs_t.doc x) (world demo_listing) =
      (Val (true, it', doc'), world demo_advanced).
Proof.
  destruct (Name_Content_follow_Next (E:=Toy.engine) 3 demo_listing demo_advanced 2
              demo_Docs) as (x & it' & doc' & Hx & Hn & _).
  - apply (demo_after_reach
             [Call_Open "x.dbxml"; Call_PutXml 1 "a" "<a/>" false; Call_All 1]).
    vm_compute; eauto.
  - reflexivity.
  - vm_compute; reflexivity.
  - vm_compute; reflexivity.
  - exists x, it', doc'. split; [exact Hx | exact Hn].
Defined.

Lemma Close_frees_each_cursor_once_witness :
  ∃ s' l,
    Db_Close 1 demo_listing = Ok tt s' ∧ NoDup l ∧
    trace s' = (trace demo_listing ++ map (λ h, Enter (F_docs_free h)) l
                  ++ [Enter (F_free 1)])%list.
Proof.
  destruct (Close_frees_each_cursor_once (E:=Toy.engine) 3 demo_listing 1
              demo_Db_listing) as (s' & l & Hrun & Ht & Hnd & _).
  - apply (demo_after_reach
             [Call_Open "x.dbxml"; Call_PutXml 1 "a" "<a/>" false; Call_All 1]).
    vm_compute; eauto.
  - reflexivity.
  - vm_compute; reflexivity.
  - reflexivity.
  - exists s', l. split; [exact Hrun|]. split; [exact Hnd | exact Ht].
Defined.

Lemma made_then_closed_witness :
  ∃ s2,
    Docs_Close 2 demo_listing = Ok tt s2 ∧
    dom (c_docs_heap s2) = dom (c_docs_heap demo_stored).
Proof.
  destruct (made_then_closed (E:=Toy.engine) 2 demo_stored demo_listing
              (Call_All 1) 1 2 demo_Db) as (s2 & Hrun & _ & Hdom & _).
  - apply (demo_after_reach [Call_Open "x.dbxml"; Call_PutXml 1 "a" "<a/>" false]).
    vm_compute; eauto.
  - reflexivity.
  - by left.
  - vm_compute; reflexivity.
  - vm_compute; reflexivity.
  - exists s2. split; [exact Hrun | exact Hdom].
Defined.


Lemma Size_All_never_report_witness :
  c_dbxml_heap demo_stored !! 1 = Some demo_handle ∧
  Db_Size 1 demo_stored =
    Ok (1, None)
       (set_trace (trace demo_stored ++ [Enter (F_size 1);
                                         Lib L_getNumDocuments None])
          demo_stored).
Proof.
  assert (c_dbxml_heap demo_stored !! 1 = Some demo_handle) as Hx
    by (vm_compute; reflexivity).
  split; [exact Hx|].
  destruct (Size_All_never_report (E:=Toy.engine) demo_stored 1 demo_Db demo_handle)
    as [H _]; [vm_compute; reflexivity | reflexivity | exact Hx |].
  vm_compute in H. vm_compute. exact H.
Defined.

Lemma iterator_refers_while_open_witness :
  go_Docs demo_listing !! 2 = Some demo_Docs ∧
  (Docs.opened demo_Docs = true ↔ is_Some (Docs.db demo_Docs)).
Proof.
  assert (go_Docs demo_listing !! 2 = Some demo_Docs) as Ha
    by (vm_compute; reflexivity).
  split; [exact Ha|].
  destruct (iterator_refers_while_open (E:=Toy.engine) 3 demo_listing 2 demo_Docs)
    as [H _]; [|reflexivity|exact Ha|exact H].
  apply (demo_after_reach
           [Call_Open "x.dbxml"; Call_PutXml 1 "a" "<a/>" false; Call_All 1]).
  vm_compute; eauto.
Defined.

Lemma Close_leaves_other_connections_witness :
  Db_Close 2 demo_two = Ok tt demo_two_closed ∧
  go_Db demo_two_closed !! 1 = go_Db demo_two !! 1.
Proof.
  assert (Db_Close 2 demo_two = Ok tt demo_two_closed) as Hrun
    by (vm_compute; reflexivity).
  split; [exact Hrun|].
  destruct (Close_leaves_other_connections (E:=Toy.engine) 3 demo_two
              demo_two_closed 2) as [H _]; [|reflexivity|exact Hrun|].
  - apply (demo_after_reach
             [Call_Open "src.dbxml"; Call_PutXml 1 "a" "<a/>" false;
              Call_Open "x.dbxml"]).
    vm_compute; eauto.
  - apply H. discriminate.
Defined.

Lemma Next_leaves_other_iterators_witness :
  Docs_Next 2 demo_listing = Ok true demo_advanced ∧
  c_dbxml_heap demo_advanced = c_dbxml_heap demo_listing.
Proof.
  assert (Docs_Next 2 demo_listing = Ok true demo_advanced) as Hrun
    by (vm_compute; reflexivity).
  split; [exact Hrun|].
  destruct (Next_leaves_other_iterators (E:=Toy.engine) 3 demo_listing
              demo_advanced 2 demo_Docs true) as (_ & _ & H);
    [|reflexivity|vm_compute; reflexivity|exact Hrun|exact H].
  apply (demo_after_reach
           [Call_Open "x.dbxml"; Call_PutXml 1 "a" "<a/>" false; Call_All 1]).
  vm_compute; eauto.
Defined.
